(** * Batch execution orchestrator of the angiogenesis GUI

    A shallow embedding of the batch-execution code of
    [gui/main_window.py] (conversion and validation of the entered
    values, sweep detection and expansion, the run button, run naming,
    batch bookkeeping and cancellation), of [gui/simulation_worker.py]
    (the per-run supervisor: launch, progress polling, exit-code
    classification, terminal signal) and of [utils/schema_utils.py] (the
    queries on the parameter schema and the validation against it),
    followed by the properties that the specification states about them.

    Layout: Part I holds the embedding, one module per source unit, each
    followed by the vocabulary in which its properties are stated, and the
    example inputs; Part II holds the lemmas and theorems. *)

From Stdlib Require Import ZArith List String Ascii Bool Arith Lia Sorted.
From Stdlib Require Import DecimalString DecimalNat DecimalZ.
From Stdlib Require Import Floats.
Import ListNotations.

Local Open Scope string_scope.
Local Open Scope list_scope.
Local Open Scope nat_scope.
Local Open Scope bool_scope.

(* ===================================================================== *)
(** * Part I.  The embedding                                              *)
(* ===================================================================== *)

(* --------------------------------------------------------------------- *)
(** ** Python strings                                                     *)
(* --------------------------------------------------------------------- *)

(** Python [str] values are modelled as [string]; the operations below are
    the ones the source applies to them. *)
Module PyStr.

(** [c in s] for a one-character [c]. *)
Fixpoint contains_char (c : ascii) (s : string) : bool :=
  match s with
  | EmptyString => false
  | String a s' => Ascii.eqb a c || contains_char c s'
  end.

(** [s.split(c)] for a one-character separator: always one more piece than
    there are separators, empty pieces included. *)
Fixpoint split (c : ascii) (s : string) : list string :=
  match s with
  | EmptyString => [EmptyString]
  | String a s' =>
      if Ascii.eqb a c then EmptyString :: split c s'
      else match split c s' with
           | [] => [String a EmptyString]
           | piece :: rest => String a piece :: rest
           end
  end.

(** The characters [str.strip()] removes: TAB, LF, VT, FF, CR, FS, GS, RS,
    US, space, NEL and NBSP. *)
Definition is_space (a : ascii) : bool :=
  let n := nat_of_ascii a in
  ((9 <=? n) && (n <=? 13)) || ((28 <=? n) && (n <=? 32))
  || (n =? 133) || (n =? 160).

Fixpoint lstrip (s : string) : string :=
  match s with
  | EmptyString => EmptyString
  | String a s' => if is_space a then lstrip s' else s
  end.

(** [rstrip] removes the trailing run of whitespace. *)
Fixpoint rstrip (s : string) : string :=
  match s with
  | EmptyString => EmptyString
  | String a s' =>
      match rstrip s' with
      | EmptyString => if is_space a then EmptyString else String a EmptyString
      | r => String a r
      end
  end.

Definition strip (s : string) : string := rstrip (lstrip s).

(** [str(n)] for a Python [int]. *)
Definition of_int (z : Z) : string := NilZero.string_of_int (Z.to_int z).

(** [str(n)] for a non-negative index. *)
Definition of_nat (n : nat) : string := NilEmpty.string_of_uint (Nat.to_uint n).

Fixpoint zeros (k : nat) : string :=
  match k with
  | O => EmptyString
  | S k' => String "0" (zeros k')
  end.

(** The format specification [{n:0wd}] for a non-negative [n]: the decimal
    digits, padded on the left with zeros up to width [w]; longer numbers
    are printed in full. *)
Definition fmt_0d (w : nat) (n : nat) : string :=
  let digits := of_nat n in
  (zeros (w - String.length digits) ++ digits)%string.

(** [needle in s] for strings. *)
Fixpoint contains (needle s : string) : bool :=
  if String.prefix needle s then true
  else match s with
       | EmptyString => false
       | String _ s' => contains needle s'
       end.

(** A string of decimal digits. *)
Fixpoint all_digits (s : string) : bool :=
  match s with
  | EmptyString => true
  | String a s' =>
      (48 <=? nat_of_ascii a) && (nat_of_ascii a <=? 57) && all_digits s'
  end.

(** Reading a zero-padded number back. *)
Definition read_nat (s : string) : option nat :=
  option_map Nat.of_uint (NilEmpty.uint_of_string s).

End PyStr.

(* --------------------------------------------------------------------- *)
(** ** Exit-code classification ([simulation_worker.py])                  *)
(* --------------------------------------------------------------------- *)

Module ExitCode.

Local Open Scope Z_scope.

Definition newline : string := String (ascii_of_nat 10) EmptyString.

Definition access_violation_msg : string :=
  ("Windows ACCESS_VIOLATION - Known CC3D crash issue" ++ newline ++
   "This is a known CC3D Windows bug (exit code 3221225477)." ++ newline ++
   "The crash may be related to:" ++ newline ++
   "  - Cumulative memory corruption after ~40 steps" ++ newline ++
   "  - Zarr write triggering corrupted state" ++ newline ++
   "  - Windows-specific file locking issues" ++ newline ++
   "Try: Reduce write frequency or use smaller lattice size")%string.

(** [SimulationWorker._interpret_exit_code]. *)
Definition _interpret_exit_code (exit_code : Z) : string :=
  if exit_code =? 0 then "Success"
  else if exit_code =? 1 then "Python exception (check stderr)"
  else if exit_code =? -11 then "Segmentation fault (SIGSEGV) - CC3D crashed"
  else if (exit_code =? 3221225477) || (exit_code =? -1073741819) then
    access_violation_msg
  else if exit_code <? 0 then
    ("Process killed by signal " ++ PyStr.of_int (- exit_code))%string
  else
    ("Unknown error (exit code " ++ PyStr.of_int exit_code ++ ")")%string.

End ExitCode.

(* --------------------------------------------------------------------- *)
(** ** Python values and dictionaries                                     *)
(* --------------------------------------------------------------------- *)

(** A parameter value: one of the four scalar types of the schema. *)
Inductive PyVal : Type :=
| VInt (z : Z)
| VFloat (f : float)
| VBool (b : bool)
| VStr (s : string).

(** A [dict] with string keys keeps insertion order and has one entry per
    key: an association list, updated in place. *)
Module Dict.

Section WithValue.
Context {V : Type}.

Definition t := list (string * V).

Definition keys (d : t) : list string := map fst d.

Fixpoint get (k : string) (d : t) : option V :=
  match d with
  | [] => None
  | (k', v) :: d' => if String.eqb k k' then Some v else get k d'
  end.

(** [d[k] = v]: an existing key keeps its position, a new key goes last. *)
Fixpoint set (k : string) (v : V) (d : t) : t :=
  match d with
  | [] => [(k, v)]
  | (k', v') :: d' =>
      if String.eqb k k' then (k, v) :: d' else (k', v') :: set k v d'
  end.

(** [d.get(k, default)]. *)
Definition get_default (k : string) (default : V) (d : t) : V :=
  match get k d with
  | Some v => v
  | None => default
  end.

End WithValue.

Arguments t : clear implicits.

End Dict.

(* --------------------------------------------------------------------- *)
(** ** Statements with state and exceptions                               *)
(* --------------------------------------------------------------------- *)

(** The exceptions the modelled code can meet. *)
Inductive PyExc : Type :=
| ValueError
| IndexError
| TypeError
| ZeroDivisionError
| OverflowError
| OSError
| TimeoutExpired.

(** What a statement does: it returns a value or raises. *)
Inductive Outcome (A : Type) : Type :=
| Ret (a : A)
| Raise (e : PyExc).

Arguments Ret {A} a.
Arguments Raise {A} e.

(** A statement over a mutable state [S]: the state changes made before an
    exception is raised are kept, as in Python. *)
Module Py.

Section WithState.
Context {S : Type}.

Definition M (A : Type) : Type := S -> Outcome A * S.

Definition ret {A} (a : A) : M A := fun s => (Ret a, s).

Definition raise {A} (e : PyExc) : M A := fun s => (Raise e, s).

Definition bind {A B} (c : M A) (k : A -> M B) : M B :=
  fun s =>
    match c s with
    | (Ret a, s') => k a s'
    | (Raise e, s') => (Raise e, s')
    end.

Definition get : M S := fun s => (Ret s, s).

Definition modify (f : S -> S) : M unit := fun s => (Ret tt, f s).

(** Lifts a pure computation that may raise. *)
Definition lift {A} (o : Outcome A) : M A := fun s => (o, s).

(** [try: c  except <those e with handler e = Some h>: h]. *)
Definition try_except {A} (c : M A) (handler : PyExc -> option (M A)) : M A :=
  fun s =>
    match c s with
    | (Ret a, s') => (Ret a, s')
    | (Raise e, s') =>
        match handler e with
        | Some h => h s'
        | None => (Raise e, s')
        end
    end.

(** [try: c  finally: f]: [f] always runs; an exception of [f] replaces the
    outcome of [c]. *)
Definition try_finally {A} (c : M A) (f : M unit) : M A :=
  fun s =>
    match c s with
    | (o, s') =>
        match f s' with
        | (Ret _, s'') => (o, s'')
        | (Raise e, s'') => (Raise e, s'')
        end
    end.

(** [for x in xs: body x]. *)
Fixpoint for_each {A} (xs : list A) (body : A -> M unit) : M unit :=
  match xs with
  | [] => ret tt
  | x :: xs' => bind (body x) (fun _ => for_each xs' body)
  end.

(** A list comprehension [[f x for x in xs]] of a pure function that may
    raise. *)
Fixpoint comprehension {A B} (f : A -> Outcome B) (xs : list A)
  : Outcome (list B) :=
  match xs with
  | [] => Ret []
  | x :: xs' =>
      match f x with
      | Raise e => Raise e
      | Ret y =>
          match comprehension f xs' with
          | Raise e => Raise e
          | Ret ys => Ret (y :: ys)
          end
      end
  end.

End WithState.

Arguments M : clear implicits.

End Py.

Declare Scope py_scope.
Delimit Scope py_scope with py.
Notation "x <- c ;; k" := (Py.bind c (fun x => k))
  (at level 61, c at next level, right associativity) : py_scope.
Notation "c ;;; k" := (Py.bind c (fun _ => k))
  (at level 61, right associativity) : py_scope.

(** [except ValueError:] and [except Exception:]. *)
Definition on_ValueError {S A} (h : Py.M S A) (e : PyExc) : option (Py.M S A) :=
  match e with
  | ValueError => Some h
  | _ => None
  end.

Definition on_Exception {S A} (h : PyExc -> Py.M S A) (e : PyExc)
  : option (Py.M S A) := Some (h e).

(* --------------------------------------------------------------------- *)
(** ** Sweep detection and expansion ([main_window.py])                   *)
(* --------------------------------------------------------------------- *)

Module Sweep.

Section WithBuiltins.

(** The built-in conversions [int(s)] and [float(s)] of a string ([None]
    stands for the [ValueError] they raise on a malformed literal) and the
    text [str(f)] of a float. *)
Variable int_of_str : string -> option Z.
Variable float_of_str : string -> option float.
Variable repr_float : float -> string.

(** [str(value)]. *)
Definition str (value : PyVal) : string :=
  match value with
  | VInt z => PyStr.of_int z
  | VFloat f => repr_float f
  | VBool true => "True"
  | VBool false => "False"
  | VStr s => s
  end.

Definition int (s : string) : Outcome PyVal :=
  match int_of_str s with
  | Some z => Ret (VInt z)
  | None => Raise ValueError
  end.

Definition float (s : string) : Outcome PyVal :=
  match float_of_str s with
  | Some f => Ret (VFloat f)
  | None => Raise ValueError
  end.

(** [MainWindow._convert_to_number]: the [try] with its
    [except ValueError]. *)
Definition _convert_to_number (value_str : string) : Outcome PyVal :=
  match (if negb (PyStr.contains_char "." value_str)
         then int value_str
         else float value_str) with
  | Ret v => Ret v
  | Raise ValueError => Ret (VStr value_str)
  | Raise e => Raise e
  end.

(** The two dictionaries [detect_sweep_parameters] fills. *)
Record SweepState : Type := mkSweepState {
  sweep_parameters : Dict.t (list PyVal);
  base_parameters : Dict.t PyVal
}.

Definition set_sweep (k : string) (vs : list PyVal) : Py.M SweepState unit :=
  Py.modify (fun st =>
    mkSweepState (Dict.set k vs (sweep_parameters st)) (base_parameters st)).

Definition set_base (k : string) (v : PyVal) : Py.M SweepState unit :=
  Py.modify (fun st =>
    mkSweepState (sweep_parameters st) (Dict.set k v (base_parameters st))).

(** [value_list[0]]. *)
Definition first (value_list : list PyVal) : Outcome PyVal :=
  match value_list with
  | [] => Raise IndexError
  | v :: _ => Ret v
  end.

(** The body of the loop over [current_params.items()]. *)
Definition detect_item (item : string * PyVal) : Py.M SweepState unit :=
  let '(param_name, value) := item in
  let value_str := str value in
  if PyStr.contains_char "," value_str then
    Py.try_except
      (value_list <- Py.lift (Py.comprehension
                       (fun v => _convert_to_number (PyStr.strip v))
                       (PyStr.split "," value_str)) ;;
       set_sweep param_name value_list ;;;
       v0 <- Py.lift (first value_list) ;;
       set_base param_name v0)%py
      (on_Exception (fun _ => set_base param_name value))
  else
    set_base param_name value.

(** [MainWindow.detect_sweep_parameters]: both dictionaries are reset, the
    loop fills them, and the result tells whether a sweep was found. *)
Definition detect_sweep_parameters (current_params : Dict.t PyVal)
  : Py.M SweepState bool :=
  (Py.modify (fun _ => mkSweepState [] []) ;;;
   Py.for_each current_params detect_item ;;;
   st <- Py.get ;;
   Py.ret (match sweep_parameters st with [] => false | _ => true end))%py.

(** [itertools.product] of the lists: the last list varies fastest. *)
Fixpoint product {A} (lists : list (list A)) : list (list A) :=
  match lists with
  | [] => [[]]
  | l :: rest => flat_map (fun x => map (cons x) (product rest)) l
  end.

(** The inner loop [for name, value in zip(...): combination[name] = value]. *)
Fixpoint assign (pairs : list (string * PyVal)) (combination : Dict.t PyVal)
  : Dict.t PyVal :=
  match pairs with
  | [] => combination
  | (name, value) :: pairs' => assign pairs' (Dict.set name value combination)
  end.

(** [MainWindow.generate_parameter_combinations]. *)
Definition generate_parameter_combinations (st : SweepState)
  : list (Dict.t PyVal) :=
  match sweep_parameters st with
  | [] => [base_parameters st]
  | _ =>
      let param_names := Dict.keys (sweep_parameters st) in
      let param_values :=
        map (fun name => Dict.get_default name [] (sweep_parameters st))
            param_names in
      map (fun value_combination =>
             assign (combine param_names value_combination)
                    (base_parameters st))
          (product param_values)
  end.

(** Detection followed by expansion, as [run_simulation] chains them. *)
Definition expand (current_params : Dict.t PyVal) (st0 : SweepState)
  : list (Dict.t PyVal) :=
  generate_parameter_combinations (snd (detect_sweep_parameters current_params st0)).

(** Whether a value is a sweep: its text contains a comma. *)
Definition is_sweep (value : PyVal) : bool :=
  PyStr.contains_char "," (str value).

(** The alternative a token of a sweep stands for: the number it reads as,
    or else the token itself, trimmed. *)
Definition token_value (token : string) : PyVal :=
  let s := PyStr.strip token in
  if PyStr.contains_char "." s then
    match float_of_str s with
    | Some f => VFloat f
    | None => VStr s
    end
  else
    match int_of_str s with
    | Some z => VInt z
    | None => VStr s
    end.

Definition alternatives (value : PyVal) : list PyVal :=
  map token_value (PyStr.split "," (str value)).

(** The sweep axes of a parameter set, in declaration order. *)
Definition sweep_axes (params : Dict.t PyVal) : Dict.t (list PyVal) :=
  flat_map (fun '(k, v) => if is_sweep v then [(k, alternatives v)] else [])
    params.

(** The base parameters: a swept parameter takes its first alternative. *)
Definition base_of (params : Dict.t PyVal) : Dict.t PyVal :=
  map (fun '(k, v) => (k, if is_sweep v then hd v (alternatives v) else v))
    params.

End WithBuiltins.

End Sweep.

(* --------------------------------------------------------------------- *)
(** ** Batch launch, bookkeeping and cancellation ([main_window.py])      *)
(* --------------------------------------------------------------------- *)

Module Batch.

(** The message boxes the batch code shows. *)
Inductive Dialog : Type :=
| QuestionCancelBatch (completed total running : nat)
| InfoBatchCancelled (completed total : nat)
| InfoBatchComplete (completed : nat) (output_folder : string)
| CriticalSimulationError (error_message : string).

Inductive Reply : Type := Yes | No.

(** The fields of [MainWindow] that the batch code reads and writes.
    [dialogs] lists the message boxes shown so far and [quit_requests] the
    threads that were asked to quit, both oldest first. *)
Record Window : Type := mkWindow {
  is_cancelled : bool;
  completed_combinations : nat;
  total_combinations : nat;
  batch_output_folder : string;
  simulation_threads : list nat;
  run_button_enabled : bool;
  cancel_button_visible : bool;
  progress_bar_visible : bool;
  progress_bar_maximum : nat;
  progress_bar_value : nat;
  status_message : string;
  dialogs : list Dialog;
  quit_requests : list nat
}.

Definition set_is_cancelled (b : bool) (w : Window) : Window :=
  mkWindow b (completed_combinations w) (total_combinations w)
    (batch_output_folder w) (simulation_threads w) (run_button_enabled w)
    (cancel_button_visible w) (progress_bar_visible w) (progress_bar_maximum w)
    (progress_bar_value w) (status_message w) (dialogs w) (quit_requests w).

Definition set_completed_combinations (n : nat) (w : Window) : Window :=
  mkWindow (is_cancelled w) n (total_combinations w)
    (batch_output_folder w) (simulation_threads w) (run_button_enabled w)
    (cancel_button_visible w) (progress_bar_visible w) (progress_bar_maximum w)
    (progress_bar_value w) (status_message w) (dialogs w) (quit_requests w).

Definition set_simulation_threads (ts : list nat) (w : Window) : Window :=
  mkWindow (is_cancelled w) (completed_combinations w) (total_combinations w)
    (batch_output_folder w) ts (run_button_enabled w)
    (cancel_button_visible w) (progress_bar_visible w) (progress_bar_maximum w)
    (progress_bar_value w) (status_message w) (dialogs w) (quit_requests w).

(** [run_button.setEnabled], [cancel_button.setVisible] and
    [progress_bar.setVisible]. *)
Definition set_controls (run_enabled cancel_visible bar_visible : bool)
  (w : Window) : Window :=
  mkWindow (is_cancelled w) (completed_combinations w) (total_combinations w)
    (batch_output_folder w) (simulation_threads w) run_enabled
    cancel_visible bar_visible (progress_bar_maximum w)
    (progress_bar_value w) (status_message w) (dialogs w) (quit_requests w).

Definition progress_bar_setMaximum (n : nat) (w : Window) : Window :=
  mkWindow (is_cancelled w) (completed_combinations w) (total_combinations w)
    (batch_output_folder w) (simulation_threads w) (run_button_enabled w)
    (cancel_button_visible w) (progress_bar_visible w) n
    (progress_bar_value w) (status_message w) (dialogs w) (quit_requests w).

Definition progress_bar_setValue (n : nat) (w : Window) : Window :=
  mkWindow (is_cancelled w) (completed_combinations w) (total_combinations w)
    (batch_output_folder w) (simulation_threads w) (run_button_enabled w)
    (cancel_button_visible w) (progress_bar_visible w) (progress_bar_maximum w)
    n (status_message w) (dialogs w) (quit_requests w).

Definition showMessage (msg : string) (w : Window) : Window :=
  mkWindow (is_cancelled w) (completed_combinations w) (total_combinations w)
    (batch_output_folder w) (simulation_threads w) (run_button_enabled w)
    (cancel_button_visible w) (progress_bar_visible w) (progress_bar_maximum w)
    (progress_bar_value w) msg (dialogs w) (quit_requests w).

Definition show_dialog (d : Dialog) (w : Window) : Window :=
  mkWindow (is_cancelled w) (completed_combinations w) (total_combinations w)
    (batch_output_folder w) (simulation_threads w) (run_button_enabled w)
    (cancel_button_visible w) (progress_bar_visible w) (progress_bar_maximum w)
    (progress_bar_value w) (status_message w) (dialogs w ++ [d]) (quit_requests w).

Definition thread_quit (t : nat) (w : Window) : Window :=
  mkWindow (is_cancelled w) (completed_combinations w) (total_combinations w)
    (batch_output_folder w) (simulation_threads w) (run_button_enabled w)
    (cancel_button_visible w) (progress_bar_visible w) (progress_bar_maximum w)
    (progress_bar_value w) (status_message w) (dialogs w) (quit_requests w ++ [t]).

(** [MainWindow.finalize_batch]. *)
Definition finalize_batch (was_cancelled : bool) (w : Window) : Window :=
  let w := set_controls true false false w in
  if was_cancelled then
    show_dialog (InfoBatchCancelled (completed_combinations w)
                                    (total_combinations w)) w
  else
    show_dialog (InfoBatchComplete (completed_combinations w)
                                   (batch_output_folder w)) w.

(** [MainWindow.cancel_batch].  [isRunning] is what [thread.isRunning()]
    answers for each thread and [reply] the user's answer to the
    confirmation box. *)
Definition cancel_batch (isRunning : nat -> bool) (reply : Reply) (w : Window)
  : Window :=
  let w := set_is_cancelled true w in
  let w := show_dialog
             (QuestionCancelBatch (completed_combinations w)
                (total_combinations w)
                (List.length (filter isRunning (simulation_threads w)))) w in
  match reply with
  | Yes =>
      let w := fold_left
                 (fun w thread => if isRunning thread then thread_quit thread w
                                  else w)
                 (simulation_threads w) w in
      let w := showMessage "Batch cancelled" w in
      finalize_batch true w
  | No => w
  end.

(** [MainWindow.on_batch_simulation_finished]; [exp_name] is
    [results.get('exp_name', 'unknown')]. *)
Definition on_batch_simulation_finished (exp_name : string) (w : Window)
  : Window :=
  if is_cancelled w then w
  else
    let w := set_completed_combinations (completed_combinations w + 1) w in
    let w := progress_bar_setValue (completed_combinations w) w in
    let w := showMessage
               ("Completed " ++ PyStr.of_nat (completed_combinations w) ++ "/"
                ++ PyStr.of_nat (total_combinations w) ++ ": " ++ exp_name)%string
               w in
    if total_combinations w <=? completed_combinations w
    then finalize_batch false w
    else w.

(** [error_message[:n]]. *)
Fixpoint take_chars (n : nat) (s : string) : string :=
  match n, s with
  | S n', String a s' => String a (take_chars n' s')
  | _, _ => EmptyString
  end.

(** [MainWindow.on_batch_simulation_error]. *)
Definition on_batch_simulation_error (error_message : string) (w : Window)
  : Window :=
  if is_cancelled w then w
  else
    let w := set_completed_combinations (completed_combinations w + 1) w in
    let w := progress_bar_setValue (completed_combinations w) w in
    let w := if total_combinations w =? 1
             then show_dialog
                    (CriticalSimulationError
                       ("Simulation failed!" ++ ExitCode.newline
                        ++ ExitCode.newline ++ take_chars 500 error_message
                        ++ "...")%string) w
             else w in
    if total_combinations w <=? completed_combinations w
    then finalize_batch false w
    else w.

(** A terminal signal of one run, as delivered to the two slots above. *)
Inductive Terminal : Type :=
| RunFinished (exp_name : string)
| RunError (error_message : string).

Definition deliver (ev : Terminal) (w : Window) : Window :=
  match ev with
  | RunFinished exp_name => on_batch_simulation_finished exp_name w
  | RunError error_message => on_batch_simulation_error error_message w
  end.

(** The slots run on the GUI thread, one queued signal at a time: an
    interleaving of the runs' terminal signals is the list of them in
    arrival order. *)
Definition deliver_all (evs : list Terminal) (w : Window) : Window :=
  fold_left (fun w ev => deliver ev w) evs w.

(** What may reach the window during a batch: a terminal signal or a click
    on the cancel button (with the thread states and the user's answer). *)
Inductive Input : Type :=
| Signal (ev : Terminal)
| CancelClicked (isRunning : nat -> bool) (reply : Reply).

Definition step (w : Window) (i : Input) : Window :=
  match i with
  | Signal ev => deliver ev w
  | CancelClicked isRunning reply => cancel_batch isRunning reply w
  end.

Definition steps (inputs : list Input) (w : Window) : Window :=
  fold_left step inputs w.

(** The batch-terminal events among the message boxes: [true] for a
    cancelled batch, [false] for a completed one. *)
Definition batch_terminal (d : Dialog) : option bool :=
  match d with
  | InfoBatchCancelled _ _ => Some true
  | InfoBatchComplete _ _ => Some false
  | _ => None
  end.

Fixpoint batch_terminals (ds : list Dialog) : list bool :=
  match ds with
  | [] => []
  | d :: ds' =>
      match batch_terminal d with
      | Some b => b :: batch_terminals ds'
      | None => batch_terminals ds'
      end
  end.

(** The run identifier [launch_batch_simulation] builds for combination
    [combo_idx] and replicate [rep_idx] (both counted from 0, as the loop
    variables are). *)
Definition exp_name_of (base_exp_name : string) (n_combinations replicates : nat)
  (combo_idx rep_idx : nat) : string :=
  if (1 <? n_combinations) && (1 <? replicates) then
    (base_exp_name ++ "_combo" ++ PyStr.fmt_0d 3 (combo_idx + 1)
     ++ "_rep" ++ PyStr.fmt_0d 2 (rep_idx + 1))%string
  else if 1 <? n_combinations then
    (base_exp_name ++ "_combo" ++ PyStr.fmt_0d 3 (combo_idx + 1))%string
  else if 1 <? replicates then
    (base_exp_name ++ "_rep" ++ PyStr.fmt_0d 2 (rep_idx + 1))%string
  else
    base_exp_name.

(** [enumerate(xs)]. *)
Definition enumerate {A} (xs : list A) : list (nat * A) :=
  combine (seq 0 (List.length xs)) xs.

(** The parameter dictionaries of the workers [launch_batch_simulation]
    creates, in launch order: the loop over the combinations, inside it the
    loop over [range(replicates)]. *)
Definition launch_workers (base_exp_name : string)
  (parameter_combinations : list (Dict.t PyVal)) (replicates : nat)
  : list (Dict.t PyVal) :=
  flat_map
    (fun '(combo_idx, params) =>
       map (fun rep_idx =>
              let exp_name :=
                exp_name_of base_exp_name (List.length parameter_combinations)
                  replicates combo_idx rep_idx in
              Dict.set "exp_name" (VStr exp_name) params)
           (seq 0 replicates))
    (enumerate parameter_combinations).

(** The multiplication sign U+00D7 of the status message. *)
Definition times_sign : string := String (ascii_of_nat 215) EmptyString.

(** [MainWindow.launch_batch_simulation]: the window after the launch and
    the workers started; thread [i] runs worker [i]. *)
Definition launch_batch_simulation (base_exp_name : string)
  (parameter_combinations : list (Dict.t PyVal)) (replicates : nat)
  (w : Window) : Window * list (Dict.t PyVal) :=
  let w := set_controls false true true w in
  let w := progress_bar_setMaximum (total_combinations w) w in
  let w := progress_bar_setValue 0 w in
  let w := set_simulation_threads [] w in
  let w :=
    if (1 <? List.length parameter_combinations) || (1 <? replicates) then
      showMessage
        ("Starting batch: " ++ PyStr.of_nat (total_combinations w)
         ++ " simulations (" ++ PyStr.of_nat (List.length parameter_combinations)
         ++ " combinations " ++ times_sign ++ " " ++ PyStr.of_nat replicates
         ++ " replicates)")%string
        w
    else showMessage "Starting simulation..." w in
  let workers := launch_workers base_exp_name parameter_combinations replicates in
  (set_simulation_threads (seq 0 (List.length workers)) w, workers).

(** The bookkeeping [run_simulation] resets before a launch. *)
Definition reset_batch (n_combinations replicates : nat) (w : Window) : Window :=
  mkWindow false 0 (n_combinations * replicates)
    (batch_output_folder w) (simulation_threads w) (run_button_enabled w)
    (cancel_button_visible w) (progress_bar_visible w) (progress_bar_maximum w)
    (progress_bar_value w) (status_message w) (dialogs w) (quit_requests w).

(** The identifier of the run with 1-based combination index [c] and
    1-based replicate index [r], in a batch of [N] configurations and [R]
    replicates. *)
Definition identifier (base_exp_name : string) (N R c r : nat) : string :=
  exp_name_of base_exp_name N R (c - 1) (r - 1).


End Batch.

(* --------------------------------------------------------------------- *)
(** ** Python numbers                                                     *)
(* --------------------------------------------------------------------- *)

(** Python's [float] is the IEEE 754 double: the primitive [float], with
    the integer conversions taken from the specification of binary64. *)
Module PyNum.

Local Open Scope Z_scope.

(** The double nearest to an integer (ties to even); an integer beyond the
    range of the doubles gives an infinity here. *)
Definition round_int (z : Z) : spec_float := binary_normalize prec emax z 0 false.

Definition is_infinite (x : spec_float) : bool :=
  match x with
  | S754_infinity _ => true
  | _ => false
  end.

(** [float(z)] for an [int]: [OverflowError] when [z] is too large. *)
Definition float_of_int (z : Z) : Outcome float :=
  let x := round_int z in
  if is_infinite x then Raise OverflowError else Ret (SF2Prim x).

(** An integer as an exact, unrounded, binary number. *)
Definition exact_int (z : Z) : spec_float :=
  match z with
  | Z0 => S754_zero false
  | Zpos p => S754_finite false p 0
  | Zneg p => S754_finite true p 0
  end.

(** [a / b] for two [int]s: the double nearest to the exact quotient. *)
Definition int_truediv (a b : Z) : Outcome float :=
  if b =? 0 then Raise ZeroDivisionError
  else
    let q := SFdiv prec emax (exact_int a) (exact_int b) in
    if is_infinite q then Raise OverflowError else Ret (SF2Prim q).

(** [x / y] for two [float]s. *)
Definition float_truediv (x y : float) : Outcome float :=
  if PrimFloat.eqb y 0%float then Raise ZeroDivisionError
  else Ret (PrimFloat.div x y).

(** [int(x)] for a [float]: truncation toward zero. *)
Definition int_of_float (x : float) : Outcome Z :=
  match Prim2SF x with
  | S754_zero _ => Ret 0
  | S754_nan => Raise ValueError
  | S754_infinity _ => Raise OverflowError
  | S754_finite s m e =>
      let magnitude :=
        if 0 <=? e then Z.shiftl (Zpos m) e else Z.shiftr (Zpos m) (- e) in
      Ret (if s then - magnitude else magnitude)
  end.

Definition int_of_bool (b : bool) : Z := if b then 1 else 0.

Section WithBuiltins.

(** [int(s)] for a string, as in [Sweep]. *)
Variable int_of_str : string -> option Z.

(** [a / v] for an [int] [a] and any value [v]. *)
Definition truediv (a : Z) (v : PyVal) : Outcome float :=
  match v with
  | VInt b => int_truediv a b
  | VBool b => int_truediv a (int_of_bool b)
  | VFloat y =>
      match float_of_int a with
      | Ret x => float_truediv x y
      | Raise e => Raise e
      end
  | VStr _ => Raise TypeError
  end.

(** [int(v)]. *)
Definition int (v : PyVal) : Outcome Z :=
  match v with
  | VInt z => Ret z
  | VBool b => Ret (int_of_bool b)
  | VFloat x => int_of_float x
  | VStr s =>
      match int_of_str s with
      | Some z => Ret z
      | None => Raise ValueError
      end
  end.

(** [v > 0]. *)
Definition gt_zero (v : PyVal) : Outcome bool :=
  match v with
  | VInt z => Ret (0 <? z)
  | VBool b => Ret b
  | VFloat x => Ret (PrimFloat.ltb 0%float x)
  | VStr _ => Raise TypeError
  end.

End WithBuiltins.

End PyNum.

(* --------------------------------------------------------------------- *)
(** ** Rounding to the doubles                                           *)
(* --------------------------------------------------------------------- *)

(** The notions in which Part II states how [binary_round_aux] of the
    specification of binary64 rounds a quotient, and how the doubles that
    are not negative are ordered. *)
Module Rounding.

Local Open Scope Z_scope.

(** The position of the remainder [R] of a division by [Y] within the
    unit: none, below the half, the half, above it. *)
Definition loc_of (R Y : Z) : location :=
  if R =? 0 then loc_Exact else loc_Inexact (2 * R ?= Y).

(** The record [mrs] holds the quotient [X / Y] and the position of the
    remainder. *)
Definition holds (mrs : shr_record) (X Y : Z) : Prop :=
  shr_m mrs = X / Y /\ loc_of_shr_record mrs = loc_of (X mod Y) Y.

(** Rounding of the quotient [X / Y] to the nearest integer, ties to even. *)
Definition rnd (X Y : Z) : Z :=
  round_nearest_even (X / Y) (loc_of (X mod Y) Y).

(** The last two steps of [binary_round_aux]: a rounded mantissa is
    brought back into range and the exponent is checked. *)
Definition finish (s : bool) (m e : Z) : spec_float :=
  let '(mrs, e') := shr_fexp prec emax m e loc_Exact in
  match shr_m mrs with
  | Z0 => S754_zero s
  | Zpos p => if e' <=? emax - prec then S754_finite s p e' else S754_infinity s
  | Zneg _ => S754_nan
  end.

(** What [binary_round_aux] returns for the quotient [X / Y] at exponent
    [e]. *)
Definition rounded (s : bool) (X Y e : Z) : spec_float :=
  let E := SpecFloat.fexp prec emax (Zdigits2 (X / Y) + e) in
  finish s (rnd X (2 ^ (E - e) * Y)) E.

(** The order of the values [X1 / Y1 * 2 ^ e1] and [X2 / Y2 * 2 ^ e2]. *)
Definition vle (X1 Y1 e1 X2 Y2 e2 : Z) : Prop :=
  X1 * Y2 * 2 ^ (e1 - Z.min e1 e2) <= X2 * Y1 * 2 ^ (e2 - Z.min e1 e2).

(** The order of the floats that are not negative. *)
Definition SFle (x y : spec_float) : Prop :=
  match x, y with
  | S754_zero _, (S754_zero _ | S754_finite false _ _ | S754_infinity false) => True
  | S754_finite false m1 e1, S754_finite false m2 e2 =>
      vle (Zpos m1) 1 e1 (Zpos m2) 1 e2
  | (S754_finite false _ _ | S754_infinity false), S754_infinity false => True
  | _, _ => False
  end.

(** The mantissas and exponents that the rounding step hands to the last
    step. *)
Definition in_range (m E : Z) : Prop :=
  0 <= m <= 2 ^ 53 /\ (-1074 < E -> 2 ^ 52 <= m) /\ -1074 <= E.

End Rounding.

(* --------------------------------------------------------------------- *)
(** ** The per-run supervisor ([simulation_worker.py])                    *)
(* --------------------------------------------------------------------- *)

Module Worker.

Local Open Scope Z_scope.

(** The texts of the progress signal. *)
Inductive Message : Type :=
| MsgInitializing (exp_name : string)
| MsgLaunching
| MsgRunning (pid : Z)
| MsgStep (current_step total : Z)
| MsgCompleted.

Definition render (m : Message) : string :=
  match m with
  | MsgInitializing exp_name => "Initializing simulation: " ++ exp_name
  | MsgLaunching => "Launching simulation process..."
  | MsgRunning pid =>
      "Simulation running (PID: " ++ PyStr.of_int pid
      ++ "), monitoring progress..."
  | MsgStep current_step total =>
      "Step " ++ PyStr.of_int current_step ++ "/" ++ PyStr.of_int total ++ " MCS"
  | MsgCompleted => "Simulation completed successfully!"
  end%string.

(** The payload of [finished] (the fields that vary from run to run). *)
Record Results : Type := mkResults {
  res_exp_name : string;
  res_final_step : Z;
  res_stdout : string;
  res_stderr : string
}.

(** The payload of [error]: the parts its text is assembled from. *)
Inductive Failure : Type :=
| FailedExit (exit_code : Z) (exit_code_msg : string) (final_step total : Z)
    (stdout_tail stderr_tail : string)
| TimedOut
| Exception (e : PyExc).

Inductive Signal : Type :=
| progress (percentage : Z) (message : Message)
| finished (results : Results)
| error (failure : Failure).

(** A log file object: open or closed. *)
Inductive Handle : Type := Open | Closed.

(** The attributes of the worker and the locals of [run] that outlive a
    statement, with the signals emitted so far (oldest first) and the number
    of [process.kill()] calls.  [None] stands for an attribute not set. *)
Record World : Type := mkWorld {
  signals : list Signal;
  stdout_log : option Handle;
  stderr_log : option Handle;
  process : option Z;
  kills : nat;
  temp_script : option bool;
  monitoring : bool;
  stdout : string;
  stderr : string;
  metadata_saved : bool
}.

Definition initial : World :=
  mkWorld [] None None None 0%nat None false EmptyString EmptyString false.

(** What the operating system, the child process and the store answer
    during one run. *)
Record Env : Type := mkEnv {
  exp_name : string;
  sim_time : PyVal;
  create_script_result : Outcome unit;
  mkdir_exp_dir : Outcome unit;
  mkdir_logs_dir : Outcome unit;
  open_stdout_log : Outcome unit;
  open_stderr_log : Outcome unit;
  popen_result : Outcome Z;
  (** [_get_latest_step()] at each poll made while the child is alive: the
      list is finite, the child exits; with a child that never exits, [run]
      stays in the polling loop and emits no terminal signal *)
  latest_steps : list Z;
  wait_result : Outcome Z;
  read_stdout_log : Outcome string;
  read_stderr_log : Outcome string;
  final_step : Z;
  resolve_paths : Outcome unit;
  write_metadata : Outcome unit;
  temp_script_exists : bool;
  unlink_result : Outcome unit
}.

Definition emit (sg : Signal) : Py.M World unit :=
  Py.modify (fun w =>
    mkWorld (signals w ++ [sg]) (stdout_log w) (stderr_log w) (process w)
      (kills w) (temp_script w) (monitoring w) (stdout w) (stderr w)
      (metadata_saved w)).

Definition set_stdout_log (h : option Handle) : Py.M World unit :=
  Py.modify (fun w =>
    mkWorld (signals w) h (stderr_log w) (process w)
      (kills w) (temp_script w) (monitoring w) (stdout w) (stderr w)
      (metadata_saved w)).

Definition set_stderr_log (h : option Handle) : Py.M World unit :=
  Py.modify (fun w =>
    mkWorld (signals w) (stdout_log w) h (process w)
      (kills w) (temp_script w) (monitoring w) (stdout w) (stderr w)
      (metadata_saved w)).

Definition set_process (p : option Z) : Py.M World unit :=
  Py.modify (fun w =>
    mkWorld (signals w) (stdout_log w) (stderr_log w) p
      (kills w) (temp_script w) (monitoring w) (stdout w) (stderr w)
      (metadata_saved w)).

Definition process_kill : Py.M World unit :=
  Py.modify (fun w =>
    mkWorld (signals w) (stdout_log w) (stderr_log w) (process w)
      (S (kills w)) (temp_script w) (monitoring w) (stdout w) (stderr w)
      (metadata_saved w)).

Definition set_temp_script (t : option bool) : Py.M World unit :=
  Py.modify (fun w =>
    mkWorld (signals w) (stdout_log w) (stderr_log w) (process w)
      (kills w) t (monitoring w) (stdout w) (stderr w)
      (metadata_saved w)).

Definition set_monitoring (b : bool) : Py.M World unit :=
  Py.modify (fun w =>
    mkWorld (signals w) (stdout_log w) (stderr_log w) (process w)
      (kills w) (temp_script w) b (stdout w) (stderr w)
      (metadata_saved w)).

Definition set_stdout (s : string) : Py.M World unit :=
  Py.modify (fun w =>
    mkWorld (signals w) (stdout_log w) (stderr_log w) (process w)
      (kills w) (temp_script w) (monitoring w) s (stderr w)
      (metadata_saved w)).

Definition set_stderr (s : string) : Py.M World unit :=
  Py.modify (fun w =>
    mkWorld (signals w) (stdout_log w) (stderr_log w) (process w)
      (kills w) (temp_script w) (monitoring w) (stdout w) s
      (metadata_saved w)).

Definition set_metadata_saved : Py.M World unit :=
  Py.modify (fun w =>
    mkWorld (signals w) (stdout_log w) (stderr_log w) (process w)
      (kills w) (temp_script w) (monitoring w) (stdout w) (stderr w)
      true).

(** [f.close()]: closes the file object the attribute holds. *)
Definition close (h : option Handle) : option Handle :=
  match h with
  | Some _ => Some Closed
  | None => None
  end.

(** [lines[-n:]]: the last [n] elements, and for [n = 0], where [-0] is
    [0], the whole list. *)
Definition last_n {A} (n : nat) (xs : list A) : list A :=
  match n with
  | O => xs
  | S _ => skipn (List.length xs - n) xs
  end.

(** [sep.join(pieces)]. *)
Fixpoint join (sep : string) (pieces : list string) : string :=
  match pieces with
  | [] => EmptyString
  | [p] => p
  | p :: rest => (p ++ sep ++ join sep rest)%string
  end.

(** [SimulationWorker._get_tail]. *)
Definition _get_tail (text : string) (num_lines : nat) : string :=
  match text with
  | EmptyString => "(empty)"
  | _ =>
      let lines := PyStr.split (ascii_of_nat 10) (PyStr.strip text) in
      join ExitCode.newline (last_n num_lines lines)
  end.

(** Appends signals to those emitted so far. *)
Definition add_signals (sgs : list Signal) (w : World) : World :=
  mkWorld (signals w ++ sgs) (stdout_log w) (stderr_log w) (process w)
    (kills w) (temp_script w) (monitoring w) (stdout w) (stderr w)
    (metadata_saved w).

Section WithEnv.

Variable int_of_str : string -> option Z.
Variable env : Env.

(** [int((current_step / self.sim_time) * 100)]. *)
Definition progress_pct (current_step : Z) : Outcome Z :=
  match PyNum.truediv current_step (sim_time env) with
  | Ret x => PyNum.int_of_float (PrimFloat.mul x 100%float)
  | Raise e => Raise e
  end.

(** One pass of the polling loop of [_monitor_progress] after the sleep:
    the [try] with its [except Exception: pass]; the result is the new
    [last_reported_step]. *)
Definition poll (current_step last_reported_step : Z) : Py.M World Z :=
  Py.try_except
    (if last_reported_step <? current_step then
       (progress_pct <- Py.lift (progress_pct current_step) ;;
        let progress_pct := Z.min 95 progress_pct in
        total <- Py.lift (PyNum.int int_of_str (sim_time env)) ;;
        emit (progress progress_pct (MsgStep current_step total)) ;;;
        Py.ret current_step)%py
     else Py.ret last_reported_step)
    (on_Exception (fun _ => Py.ret last_reported_step)).

(** The [while] loop: one pass per observation of the store made while the
    child is alive. *)
Fixpoint monitor_loop (steps : list Z) (last_reported_step : Z)
  : Py.M World unit :=
  match steps with
  | [] => Py.ret tt
  | current_step :: steps' =>
      (last_reported_step <- poll current_step last_reported_step ;;
       monitor_loop steps' last_reported_step)%py
  end.

(** [SimulationWorker._monitor_progress]. *)
Definition _monitor_progress : Py.M World unit :=
  (set_monitoring true ;;;
   monitor_loop (latest_steps env) 0 ;;;
   set_monitoring false)%py.

(** [SimulationWorker._save_run_metadata]: building the record may raise,
    a failure to write it is only printed. *)
Definition _save_run_metadata (exit_code final_step : Z) : Py.M World unit :=
  (_ <- Py.lift (PyNum.int int_of_str (sim_time env)) ;;
   positive <- Py.lift (PyNum.gt_zero (sim_time env)) ;;
   _ <- (if positive : bool
         then (q <- Py.lift (PyNum.truediv final_step (sim_time env)) ;;
               Py.ret (PrimFloat.mul q 100%float))
         else Py.ret 0%float) ;;
   Py.lift (resolve_paths env) ;;;
   Py.try_except
     (Py.lift (write_metadata env) ;;; set_metadata_saved)
     (on_Exception (fun _ => Py.ret tt)))%py.

(** The [try] around [process.wait] with its [except TimeoutExpired] and
    its [finally]. *)
Definition wait_for_exit : Py.M World Z :=
  Py.try_finally
    (Py.try_except
       (Py.lift (wait_result env))
       (fun e => match e with
                 | TimeoutExpired => Some (process_kill ;;; Py.raise TimeoutExpired)%py
                 | _ => None
                 end))
    (w <- Py.get ;;
     set_stdout_log (close (stdout_log w)) ;;;
     w <- Py.get ;;
     set_stderr_log (close (stderr_log w)) ;;;
     out <- Py.lift (read_stdout_log env) ;;
     set_stdout out ;;;
     err <- Py.lift (read_stderr_log env) ;;
     set_stderr err)%py.

(** The body of the outer [try] of [run]. *)
Definition run_body : Py.M World unit :=
  (emit (progress 0 (MsgInitializing (exp_name env))) ;;;
   Py.lift (create_script_result env) ;;;
   set_temp_script (Some true) ;;;
   emit (progress 5 MsgLaunching) ;;;
   Py.lift (mkdir_exp_dir env) ;;;
   Py.lift (mkdir_logs_dir env) ;;;
   Py.lift (open_stdout_log env) ;;;
   set_stdout_log (Some Open) ;;;
   Py.lift (open_stderr_log env) ;;;
   set_stderr_log (Some Open) ;;;
   pid <- Py.lift (popen_result env) ;;
   set_process (Some pid) ;;;
   emit (progress 10 (MsgRunning pid)) ;;;
   _monitor_progress ;;;
   exit_code <- wait_for_exit ;;
   let final_step := final_step env in
   let exit_code_msg := ExitCode._interpret_exit_code exit_code in
   _save_run_metadata exit_code final_step ;;;
   if exit_code =? 0 then
     (emit (progress 100 MsgCompleted) ;;;
      w <- Py.get ;;
      emit (finished (mkResults (exp_name env) final_step (stdout w) (stderr w))))
   else
     (total <- Py.lift (PyNum.int int_of_str (sim_time env)) ;;
      w <- Py.get ;;
      emit (error (FailedExit exit_code exit_code_msg final_step total
                     (_get_tail (stdout w) 20) (_get_tail (stderr w) 20)))))%py.

(** [SimulationWorker.run]. *)
Definition run : Py.M World unit :=
  Py.try_finally
    (Py.try_except run_body
       (fun e =>
          match e with
          | TimeoutExpired =>
              Some (emit (error TimedOut) ;;;
                    w <- Py.get ;;
                    match process w with
                    | Some _ => process_kill
                    | None => Py.ret tt
                    end)%py
          | _ => Some (emit (error (Exception e)))
          end))
    (w <- Py.get ;;
     match temp_script w with
     | Some _ =>
         if temp_script_exists env
         then (Py.lift (unlink_result env) ;;; set_temp_script (Some false))
         else Py.ret tt
     | None => Py.ret tt
     end)%py.

(** [run] up to a moment at which the child is still alive: the statements
    before the polling loop and the passes the loop has made by then,
    [steps] being what [_get_latest_step()] showed at each.  The loop is
    left only when [process.poll()] shows an exit code or [stop] lowers
    [monitoring]; nothing in it raises past the [except Exception: pass],
    so no handler of [run] has run by then.  The result is [Ret tt] when
    the run has reached the loop; when a statement before the loop raises,
    it is that exception, and the run is not polling (in [run] the
    handlers come next). *)
Definition run_polling (steps : list Z) : Py.M World unit :=
  (emit (progress 0 (MsgInitializing (exp_name env))) ;;;
   Py.lift (create_script_result env) ;;;
   set_temp_script (Some true) ;;;
   emit (progress 5 MsgLaunching) ;;;
   Py.lift (mkdir_exp_dir env) ;;;
   Py.lift (mkdir_logs_dir env) ;;;
   Py.lift (open_stdout_log env) ;;;
   set_stdout_log (Some Open) ;;;
   Py.lift (open_stderr_log env) ;;;
   set_stderr_log (Some Open) ;;;
   pid <- Py.lift (popen_result env) ;;
   set_process (Some pid) ;;;
   emit (progress 10 (MsgRunning pid)) ;;;
   set_monitoring true ;;;
   monitor_loop steps 0)%py.

(** The signals of one whole run, in emission order. *)
Definition run_signals : list Signal := signals (snd (run initial)).

(** The signals of the polling loop, given what the store shows at each
    poll and the step reported last. *)
Fixpoint monitor_events (steps : list Z) (last_reported_step : Z)
  : list Signal :=
  match steps with
  | [] => []
  | current_step :: steps' =>
      if last_reported_step <? current_step then
        match progress_pct current_step, PyNum.int int_of_str (sim_time env) with
        | Ret q, Ret total =>
            progress (Z.min 95 q) (MsgStep current_step total)
            :: monitor_events steps' current_step
        | _, _ => monitor_events steps' last_reported_step
        end
      else monitor_events steps' last_reported_step
  end.

End WithEnv.




Definition is_terminal (sg : Signal) : bool :=
  match sg with
  | progress _ _ => false
  | finished _ | error _ => true
  end.

(** Whether the percentage [q] is the floor of [100 * c / t] or one below
    it. *)
Definition near_floor (q c t : Z) : bool :=
  (q =? 100 * c / t) || (q =? 100 * c / t - 1).

(** The integers [a], [a + 1], ..., [a + n - 1]. *)
Definition range (a : Z) (n : nat) : list Z :=
  map (fun i => a + Z.of_nat i) (seq 0 n).

(** Whether [int((c / sim_time) * 100)] is near the floor, for the duration
    [t] given as [as_value t]. *)
Definition pct_near_floor (as_value : Z -> PyVal) (t c : Z) : bool :=
  match PyNum.truediv c (as_value t) with
  | Ret x =>
      match PyNum.int_of_float (PrimFloat.mul x 100%float) with
      | Ret q => near_floor q c t
      | Raise _ => false
      end
  | Raise _ => false
  end.

(** The same for every duration from 1 to [n] and every step up to the
    duration. *)
Definition pct_near_floor_upto (as_value : Z -> PyVal) (n : nat) : bool :=
  forallb (fun t => forallb (pct_near_floor as_value t)
                      (range 0 (Z.to_nat t + 1)))
    (range 1 n).

End Worker.

(* --------------------------------------------------------------------- *)
(** ** A batch from launch to completion                                  *)
(* --------------------------------------------------------------------- *)

Module BatchRun.

Import Batch.

(** The dialogs one terminal signal adds while the flag is down. *)
Definition dialogs_of (ev : Terminal) (w : Window) : list Dialog :=
  (match ev with
   | RunError error_message =>
       if total_combinations w =? 1
       then [CriticalSimulationError
               ("Simulation failed!" ++ ExitCode.newline ++ ExitCode.newline
                ++ take_chars 500 error_message ++ "...")%string]
       else []
   | RunFinished _ => []
   end)
  ++ (if total_combinations w <=? completed_combinations w + 1
      then [InfoBatchComplete (completed_combinations w + 1)
              (batch_output_folder w)]
      else []).

(** The window right after the launch of a batch. *)
Definition launched (base : string) (combos : list (Dict.t PyVal)) (R : nat)
  (w : Window) : Window :=
  fst (launch_batch_simulation base combos R
         (reset_batch (List.length combos) R w)).

(** A window on which no batch has run yet. *)
Definition idle : Window :=
  mkWindow false 0 0 "experiments" [] true false false 0 0 "" [] [].

End BatchRun.

(* --------------------------------------------------------------------- *)
(** ** Comparison of Python values                                        *)
(* --------------------------------------------------------------------- *)

(** The exceptions of the schema functions: a missing dictionary key, or
    one of the exceptions above. *)
Inductive SchemaExc : Type :=
| KeyError
| Other (e : PyExc).

Inductive Result (A : Type) : Type :=
| Ok (a : A)
| Err (e : SchemaExc).

Arguments Ok {A} a.
Arguments Err {A} e.

Module PyCmp.

Local Open Scope Z_scope.

(** The types of the parameter values, with [type(v)] and
    [isinstance(v, t)]: a [bool] is an instance of [int]. *)
Inductive PyType : Type := TInt | TFloat | TBool | TStr.

Definition type_of (v : PyVal) : PyType :=
  match v with
  | VInt _ => TInt
  | VFloat _ => TFloat
  | VBool _ => TBool
  | VStr _ => TStr
  end.

Definition type_eqb (t u : PyType) : bool :=
  match t, u with
  | TInt, TInt | TFloat, TFloat | TBool, TBool | TStr, TStr => true
  | _, _ => false
  end.

Definition isinstance (v : PyVal) (t : PyType) : bool :=
  type_eqb (type_of v) t
  || (type_eqb t TInt && type_eqb (type_of v) TBool).

(** [t.__name__]. *)
Definition type_name (t : PyType) : string :=
  match t with
  | TInt => "int"
  | TFloat => "float"
  | TBool => "bool"
  | TStr => "str"
  end.

(** The exact value of a number: not a number, an infinity, or the
    rational [m * 2^e]. *)
Inductive Num : Type :=
| NaN
| Inf (negative : bool)
| Fin (m e : Z).

Definition num_of_float (x : float) : Num :=
  match Prim2SF x with
  | S754_zero _ => Fin 0 0
  | S754_infinity s => Inf s
  | S754_nan => NaN
  | S754_finite s m e => Fin (if s then Zneg m else Zpos m) e
  end.

(** The number a value stands for in a comparison; a text is none. *)
Definition num_of (v : PyVal) : option Num :=
  match v with
  | VInt z => Some (Fin z 0)
  | VBool b => Some (Fin (PyNum.int_of_bool b) 0)
  | VFloat x => Some (num_of_float x)
  | VStr _ => None
  end.

Definition fin_lt (m1 e1 m2 e2 : Z) : bool :=
  let e := Z.min e1 e2 in
  m1 * 2 ^ (e1 - e) <? m2 * 2 ^ (e2 - e).

(** [a < b] for two numbers, compared exactly; false when one is not a
    number. *)
Definition num_lt (a b : Num) : bool :=
  match a, b with
  | NaN, _ | _, NaN => false
  | Inf true, Inf true => false
  | Inf true, _ => true
  | Inf false, _ => false
  | Fin _ _, Inf negative => negb negative
  | Fin m1 e1, Fin m2 e2 => fin_lt m1 e1 m2 e2
  end.

(** [a < b]: numbers with numbers, texts with texts (by code points), and
    [TypeError] otherwise. *)
Definition lt (a b : PyVal) : Result bool :=
  match a, b with
  | VStr s, VStr t => Ok (String.ltb s t)
  | _, _ =>
      match num_of a, num_of b with
      | Some x, Some y => Ok (num_lt x y)
      | _, _ => Err (Other TypeError)
      end
  end.

(** [a > b]. *)
Definition gt (a b : PyVal) : Result bool := lt b a.

(** [value < min_val or value > max_val]: the second comparison is made
    only when the first is false. *)
Definition outside (value min_val max_val : PyVal) : Result bool :=
  match lt value min_val with
  | Err e => Err e
  | Ok true => Ok true
  | Ok false => gt value max_val
  end.

End PyCmp.

(* --------------------------------------------------------------------- *)
(** ** The parameter schema ([schema_utils.py])                           *)
(* --------------------------------------------------------------------- *)

Module Schema.

(** The entries of a parameter's schema that the functions below read;
    [None] stands for a key that is absent. *)
Record ParamInfo : Type := mkParamInfo {
  _category : option string;
  _subcategory : option string;
  _description : option string;
  _default : option PyVal;
  _expert_level : option string;
  _hidden_basic : option bool;
  _presets : option (Dict.t PyVal);
  _physiological_range : option (PyVal * PyVal);
  _recommended_range : option (PyVal * PyVal);
  _mathematical_range : option (PyVal * PyVal);
  _warning_threshold : option PyVal;
  _reference_paper : option (Dict.t string)
}.

(** The schema: its ['inputs'] entry, when present, maps the parameter
    names to their entries. *)
Record t : Type := mkSchema {
  inputs : option (Dict.t ParamInfo)
}.

(** One validation issue. *)
Record Issue : Type := mkIssue {
  severity : string;
  message : string;
  reference : option string
}.

(** [schema['inputs'][param_name]] when both keys are present. *)
Definition lookup (schema : t) (param_name : string) : option ParamInfo :=
  match inputs schema with
  | None => None
  | Some params => Dict.get param_name params
  end.

(** [CATEGORY_TO_TAB_MAP.get(category, category)]. *)
Definition tab_of_category (category : string) : string :=
  if String.eqb category "Cell Properties" then "Cell Behavior"
  else if String.eqb category "Growth Factors" then "VEGF Dynamics"
  else if String.eqb category "Simulation Setup" then "Simulation"
  else category.

Definition TAB_ORDER : list string :=
  ["Cell Behavior"; "VEGF Dynamics"; "Simulation"].

(** The tab, the group and the description [get_parameter_structure] reads
    from a parameter's entry, with their defaults. *)
Definition tab_name_of (param_info : ParamInfo) : string :=
  tab_of_category (match _category param_info with
                   | Some c => c
                   | None => "General"
                   end).

Definition subcategory_of (param_info : ParamInfo) : string :=
  match _subcategory param_info with
  | Some s => s
  | None => "Parameters"
  end.

Definition description_of (param_info : ParamInfo) : string :=
  match _description param_info with
  | Some d => d
  | None => ""
  end.

(** Tabs, in them groups, in them the parameters with their
    descriptions. *)
Definition Structure : Type := Dict.t (Dict.t (Dict.t string)).

(** The body of the loop of [get_parameter_structure]. *)
Definition add_parameter (structure : Structure)
  (item : string * ParamInfo) : Structure :=
  let '(param_name, param_info) := item in
  let tab_name := tab_name_of param_info in
  let subcategory := subcategory_of param_info in
  let structure :=
    match Dict.get tab_name structure with
    | Some _ => structure
    | None => Dict.set tab_name [] structure
    end in
  let tab := Dict.get_default tab_name [] structure in
  let tab :=
    match Dict.get subcategory tab with
    | Some _ => tab
    | None => Dict.set subcategory [] tab
    end in
  let group := Dict.get_default subcategory [] tab in
  Dict.set tab_name
    (Dict.set subcategory
       (Dict.set param_name (description_of param_info) group) tab)
    structure.

(** [get_parameter_structure]: the tabs of [TAB_ORDER] first, and no tab
    without a group. *)
Definition get_parameter_structure (schema : t) : Structure :=
  let structure := map (fun tab => (tab, [])) TAB_ORDER in
  match inputs schema with
  | None => structure
  | Some params =>
      filter (fun kv => match snd kv with [] => false | _ => true end)
        (fold_left add_parameter params structure)
  end.

(** [structure[tab][group][param_name]], when the three keys are
    present. *)
Definition structure_entry (structure : Structure)
  (tab group param_name : string) : option string :=
  match Dict.get tab structure with
  | Some groups =>
      match Dict.get group groups with
      | Some params => Dict.get param_name params
      | None => None
      end
  | None => None
  end.

(** [get_model_defaults]. *)
Definition get_model_defaults (schema : t) : Dict.t PyVal :=
  match inputs schema with
  | None => []
  | Some params =>
      fold_left
        (fun defaults '(param_name, param_info) =>
           match _default param_info with
           | Some v => Dict.set param_name v defaults
           | None => defaults
           end)
        params []
  end.

(** The inner loop of [get_parameter_presets] for one parameter. *)
Definition add_presets (param_name : string) (param_presets : Dict.t PyVal)
  (presets : Dict.t (Dict.t PyVal)) : Dict.t (Dict.t PyVal) :=
  fold_left
    (fun presets '(preset_name, preset_value) =>
       let presets :=
         match Dict.get preset_name presets with
         | Some _ => presets
         | None => Dict.set preset_name [] presets
         end in
       Dict.set preset_name
         (Dict.set param_name preset_value
            (Dict.get_default preset_name [] presets))
         presets)
    param_presets presets.

(** [get_parameter_presets]. *)
Definition get_parameter_presets (schema : t) : Dict.t (Dict.t PyVal) :=
  match inputs schema with
  | None => []
  | Some params =>
      fold_left
        (fun presets '(param_name, param_info) =>
           match _presets param_info with
           | Some param_presets => add_presets param_name param_presets presets
           | None => presets
           end)
        params []
  end.

(** [level_order.get(level, default)]. *)
Definition level_order (level : string) (default : nat) : nat :=
  if String.eqb level "basic" then 0
  else if String.eqb level "intermediate" then 1
  else if String.eqb level "advanced" then 2
  else default.

(** [get_parameters_by_expertise_level]. *)
Definition get_parameters_by_expertise_level (schema : t) (level : string)
  : list string :=
  let target_level := level_order level 0 in
  match inputs schema with
  | None => []
  | Some params =>
      fold_left
        (fun names '(param_name, param_info) =>
           let param_level :=
             match _expert_level param_info with
             | Some l => l
             | None => "advanced"
             end in
           if level_order param_level 2 <=? target_level then
             if String.eqb level "basic"
                && match _hidden_basic param_info with
                   | Some b => b
                   | None => false
                   end
             then names
             else names ++ [param_name]
           else names)
        params []
  end.

(** Whether a parameter is listed at a level: its own level is not above
    the target, and it is not hidden at the basic level. *)
Definition shown (level : string) (param_info : ParamInfo) : bool :=
  (level_order (match _expert_level param_info with
                | Some l => l
                | None => "advanced"
                end) 2 <=? level_order level 0)
  && negb (String.eqb level "basic"
           && match _hidden_basic param_info with
              | Some b => b
              | None => false
              end).

(** The value a parameter's schema entry declares for a preset. *)
Definition declared_preset (params : Dict.t ParamInfo) (param_name : string)
  (preset_name : string) : option PyVal :=
  match Dict.get param_name params with
  | Some param_info =>
      match _presets param_info with
      | Some param_presets => Dict.get preset_name param_presets
      | None => None
      end
  | None => None
  end.

(** [presets[preset_name][param_name]], when both keys are present. *)
Definition preset_entry (presets : Dict.t (Dict.t PyVal))
  (preset_name param_name : string) : option PyVal :=
  match Dict.get preset_name presets with
  | Some d => Dict.get param_name d
  | None => None
  end.

(** [any(i['severity'] == sev for i in issues)]. *)
Definition any_severity (sev : string) (issues : list Issue) : bool :=
  existsb (fun i => String.eqb (severity i) sev) issues.

(** Two values that [<] compares without a [TypeError]: two texts, or two
    numbers. *)
Definition comparable (a b : PyVal) : bool :=
  match a, b with
  | VStr _, VStr _ => true
  | VStr _, _ | _, VStr _ => false
  | _, _ => true
  end.

(** A parameter whose declared bounds can all be compared with its
    default. *)
Definition bounds_comparable (param_info : ParamInfo) : bool :=
  match _default param_info with
  | None => false
  | Some default =>
      let range_ok r :=
        match r with
        | None => true
        | Some (min_val, max_val) =>
            comparable default min_val && comparable default max_val
        end in
      range_ok (_physiological_range param_info)
      && range_ok (_mathematical_range param_info)
      && match _warning_threshold param_info with
         | None => true
         | Some threshold => comparable default threshold
         end
  end.

(** A value inside a declared range; an absent range holds every value. *)
Definition inside (value : PyVal) (r : option (PyVal * PyVal)) : Prop :=
  match r with
  | None => True
  | Some (min_val, max_val) => PyCmp.outside value min_val max_val = Ok false
  end.

(** A value not above the declared threshold. *)
Definition below (value : PyVal) (threshold : option PyVal) : Prop :=
  match threshold with
  | None => True
  | Some t => PyCmp.gt value t = Ok false
  end.

Section WithBuiltins.

(** The text [str(f)] of a float, as in [Sweep]. *)
Variable repr_float : float -> string.

Local Abbreviation str := (Sweep.str repr_float).

(** [validate_parameter_value]. *)
Definition validate_parameter_value (schema : t) (param_name : string)
  (value : PyVal) : Result (list Issue) :=
  match lookup schema param_name with
  | None => Ok [mkIssue "ERROR" "Parameter not found in schema" None]
  | Some param_info =>
      match _default param_info with
      | None => Err KeyError
      | Some default =>
          let expected_type := PyCmp.type_of default in
          if negb (PyCmp.isinstance value expected_type) then
            Ok [mkIssue "ERROR"
                  ("Expected " ++ PyCmp.type_name expected_type ++ ", got "
                   ++ PyCmp.type_name (PyCmp.type_of value))%string
                  None]
          else
            (* physiological range *)
            match
              match _physiological_range param_info with
              | None => Ok []
              | Some (min_val, max_val) =>
                  match PyCmp.outside value min_val max_val with
                  | Err e => Err e
                  | Ok false => Ok []
                  | Ok true =>
                      let ref :=
                        Dict.get_default "source" "N/A"
                          (match _reference_paper param_info with
                           | Some paper => paper
                           | None => []
                           end) in
                      Ok [mkIssue "WARNING"
                            ("Value " ++ str value
                             ++ " outside physiological range ["
                             ++ str min_val ++ ", " ++ str max_val ++ "]")%string
                            (Some ref)]
                  end
              end
            with
            | Err e => Err e
            | Ok issues =>
                (* mathematical range *)
                match
                  match _mathematical_range param_info with
                  | None => Ok issues
                  | Some (min_val, max_val) =>
                      match PyCmp.outside value min_val max_val with
                      | Err e => Err e
                      | Ok false => Ok issues
                      | Ok true =>
                          Ok (issues ++
                              [mkIssue "ERROR"
                                 ("Value " ++ str value
                                  ++ " outside stable range ["
                                  ++ str min_val ++ ", " ++ str max_val
                                  ++ "]. Simulation may fail!")%string
                                 None])
                      end
                  end
                with
                | Err e => Err e
                | Ok issues =>
                    (* warning threshold *)
                    match _warning_threshold param_info with
                    | None => Ok issues
                    | Some threshold =>
                        match PyCmp.gt value threshold with
                        | Err e => Err e
                        | Ok false => Ok issues
                        | Ok true =>
                            Ok (issues ++
                                [mkIssue "WARNING"
                                   ("Value exceeds recommended threshold of "
                                    ++ str threshold)%string
                                   None])
                        end
                    end
                end
            end
      end
  end.

(** [validate_parameter_set]: the loop stops at the first validation that
    raises. *)
Fixpoint validate_items (schema : t) (items : list (string * PyVal))
  (all_issues : Dict.t (list Issue)) : Result (Dict.t (list Issue)) :=
  match items with
  | [] => Ok all_issues
  | (param_name, value) :: items' =>
      match validate_parameter_value schema param_name value with
      | Err e => Err e
      | Ok [] => validate_items schema items' all_issues
      | Ok issues =>
          validate_items schema items' (Dict.set param_name issues all_issues)
      end
  end.

Definition validate_parameter_set (schema : t) (params : Dict.t PyVal)
  : Result (Dict.t (list Issue)) :=
  validate_items schema params [].

End WithBuiltins.

End Schema.

(* --------------------------------------------------------------------- *)
(** ** Conversion and validation of the entered values ([main_window.py]) *)
(* --------------------------------------------------------------------- *)

Module Params.

(** [c.lower()] for one character: the capital letters A-Z and those of
    the Latin-1 range (but the multiplication sign) move 32 places up. *)
Definition lower_char (a : ascii) : ascii :=
  let n := nat_of_ascii a in
  if ((65 <=? n) && (n <=? 90))
     || ((192 <=? n) && (n <=? 222) && negb (n =? 215))
  then ascii_of_nat (n + 32)
  else a.

(** [s.lower()]. *)
Fixpoint lower (s : string) : string :=
  match s with
  | EmptyString => EmptyString
  | String a s' => String (lower_char a) (lower s')
  end.

(** [s.lower() in ('true', '1', 'yes')]. *)
Definition truthy (s : string) : bool :=
  let l := lower s in
  String.eqb l "true" || String.eqb l "1" || String.eqb l "yes".

Section WithBuiltins.

Variable int_of_str : string -> option Z.
Variable float_of_str : string -> option float.
Variable repr_float : float -> string.

(** [MainWindow._convert_parameter_value]. *)
Definition _convert_parameter_value (schema : Schema.t) (param_name : string)
  (value : PyVal) : Result PyVal :=
  match Schema.inputs schema with
  | None => Err KeyError
  | Some params =>
      match Dict.get param_name params with
      | None => Ok value
      | Some param_info =>
          match Schema._default param_info with
          | None => Err KeyError
          | Some default =>
              let expected_type := PyCmp.type_of default in
              if PyCmp.isinstance value expected_type then Ok value
              else
                match value with
                | VStr s =>
                    let value_str := PyStr.strip s in
                    if PyStr.contains_char "," value_str
                    then Ok (VStr value_str)
                    else
                      match expected_type with
                      | PyCmp.TInt =>
                          match int_of_str value_str with
                          | Some z => Ok (VInt z)
                          | None => Ok value
                          end
                      | PyCmp.TFloat =>
                          match float_of_str value_str with
                          | Some f => Ok (VFloat f)
                          | None => Ok value
                          end
                      | PyCmp.TBool => Ok (VBool (truthy value_str))
                      | PyCmp.TStr => Ok (VStr value_str)
                      end
                | _ => Ok value
                end
          end
      end
  end.

(** The conversion of one token in [_validate_sweep_parameter]; [None]
    stands for the [ValueError] of [int] and [float]. *)
Definition convert_token (expected_type : PyCmp.PyType) (val_str : string)
  : option PyVal :=
  match expected_type with
  | PyCmp.TInt => option_map VInt (int_of_str val_str)
  | PyCmp.TFloat => option_map VFloat (float_of_str val_str)
  | PyCmp.TBool => Some (VBool (truthy val_str))
  | PyCmp.TStr => Some (VStr val_str)
  end.

(** The prefix [f"Value #{i+1} ({val_str}): "]. *)
Definition value_prefix (i : nat) (val_str : string) : string :=
  ("Value #" ++ PyStr.of_nat (i + 1) ++ " (" ++ val_str ++ "): ")%string.

Definition prefixed (i : nat) (val_str : string) (issue : Schema.Issue)
  : Schema.Issue :=
  Schema.mkIssue (Schema.severity issue)
    (value_prefix i val_str ++ Schema.message issue)%string
    (Schema.reference issue).

(** The body of the loop of [_validate_sweep_parameter] for the token
    [val_str] at index [i]: the issues it appends to [all_issues].  A
    [ValueError] of the conversion gives one issue; what
    [validate_parameter_value] raises is not caught. *)
Definition token_issues (schema : Schema.t) (param_name : string)
  (expected_type : PyCmp.PyType) (i : nat) (val_str : string)
  : Result (list Schema.Issue) :=
  match convert_token expected_type val_str with
  | None =>
      Ok [Schema.mkIssue "ERROR"
            (value_prefix i val_str ++ "Cannot convert to "
             ++ PyCmp.type_name expected_type)%string
            None]
  | Some converted_val =>
      match Schema.validate_parameter_value repr_float schema param_name
              converted_val with
      | Err e => Err e
      | Ok issues => Ok (map (prefixed i val_str) issues)
      end
  end.

(** The loop over [enumerate(values)], from index [i] on. *)
Fixpoint validate_tokens (schema : Schema.t) (param_name : string)
  (expected_type : PyCmp.PyType) (i : nat) (values : list string)
  (all_issues : list Schema.Issue) : Result (list Schema.Issue) :=
  match values with
  | [] => Ok all_issues
  | val_str :: values' =>
      match token_issues schema param_name expected_type i val_str with
      | Err e => Err e
      | Ok issues =>
          validate_tokens schema param_name expected_type (S i) values'
            (all_issues ++ issues)
      end
  end.

(** [MainWindow._validate_sweep_parameter]. *)
Definition _validate_sweep_parameter (schema : Schema.t) (param_name : string)
  (value_str : string) : Result (list Schema.Issue) :=
  match Schema.inputs schema with
  | None => Err KeyError
  | Some params =>
      match Dict.get param_name params with
      | None =>
          Ok [Schema.mkIssue "ERROR" "Parameter not found in schema" None]
      | Some param_info =>
          match Schema._default param_info with
          | None => Err KeyError
          | Some default =>
              validate_tokens schema param_name (PyCmp.type_of default) 0
                (map PyStr.strip (PyStr.split "," value_str)) []
          end
      end
  end.

(** The validation of one entry of [current_params], as
    [validate_all_parameters] and [run_simulation] do it. *)
Definition validate_entry (schema : Schema.t) (param_name : string)
  (value : PyVal) : Result (list Schema.Issue) :=
  match value with
  | VStr s =>
      if PyStr.contains_char "," s
      then _validate_sweep_parameter schema param_name s
      else Schema.validate_parameter_value repr_float schema param_name value
  | _ => Schema.validate_parameter_value repr_float schema param_name value
  end.

(** The validation loop over [current_params.items()] that
    [validate_all_parameters] and [run_simulation] share: the parameters
    with issues, in order; the loop stops at the first validation that
    raises. *)
Fixpoint validate_entries (schema : Schema.t) (items : list (string * PyVal))
  (all_issues : Dict.t (list Schema.Issue))
  : Result (Dict.t (list Schema.Issue)) :=
  match items with
  | [] => Ok all_issues
  | (param_name, value) :: items' =>
      match validate_entry schema param_name value with
      | Err e => Err e
      | Ok [] => validate_entries schema items' all_issues
      | Ok issues =>
          validate_entries schema items'
            (Dict.set param_name issues all_issues)
      end
  end.

End WithBuiltins.

End Params.

(* --------------------------------------------------------------------- *)
(** ** The run button ([main_window.py])                                  *)
(* --------------------------------------------------------------------- *)

Module Launch.

(** The message boxes of [run_simulation]: the validation summary with the
    parameters in error and those with warnings, the warning about an
    empty batch, and the confirmation with what it displays. *)
Inductive Prompt : Type :=
| ValidationIssuesDetected (errors warnings : Dict.t (list Schema.Issue))
| NoCombinations
| RunSimulationQuestion (batch : bool) (base_exp_name : string)
    (sweep_info : list (string * nat)) (replicates total : nat)
    (sim_time : string) (n_issues : nat).

(** The part of [MainWindow] that [run_simulation] writes: the batch
    fields, the two sweep dictionaries, the combinations, and what it did
    to the outside: the message boxes shown, the folders created and the
    workers started, oldest first. *)
Record App : Type := mkApp {
  window : Batch.Window;
  sweep : Sweep.SweepState;
  parameter_combinations : list (Dict.t PyVal);
  prompts : list Prompt;
  folders : list string;
  workers : list (Dict.t PyVal)
}.

Definition set_window (w : Batch.Window) (a : App) : App :=
  mkApp w (sweep a) (parameter_combinations a) (prompts a) (folders a)
    (workers a).

Definition set_sweep (st : Sweep.SweepState) (a : App) : App :=
  mkApp (window a) st (parameter_combinations a) (prompts a) (folders a)
    (workers a).

Definition set_parameter_combinations (combos : list (Dict.t PyVal)) (a : App)
  : App :=
  mkApp (window a) (sweep a) combos (prompts a) (folders a) (workers a).

Definition show_prompt (p : Prompt) (a : App) : App :=
  mkApp (window a) (sweep a) (parameter_combinations a) (prompts a ++ [p])
    (folders a) (workers a).

Definition add_folder (path : string) (a : App) : App :=
  mkApp (window a) (sweep a) (parameter_combinations a) (prompts a)
    (folders a ++ [path]) (workers a).

Definition add_workers (ws : list (Dict.t PyVal)) (a : App) : App :=
  mkApp (window a) (sweep a) (parameter_combinations a) (prompts a)
    (folders a) (workers a ++ ws).

Definition set_batch_output_folder (path : string) (w : Batch.Window)
  : Batch.Window :=
  Batch.mkWindow (Batch.is_cancelled w) (Batch.completed_combinations w)
    (Batch.total_combinations w) path (Batch.simulation_threads w)
    (Batch.run_button_enabled w) (Batch.cancel_button_visible w)
    (Batch.progress_bar_visible w) (Batch.progress_bar_maximum w)
    (Batch.progress_bar_value w) (Batch.status_message w) (Batch.dialogs w)
    (Batch.quit_requests w).

(** The two dictionary comprehensions over [all_issues.items()]. *)
Definition with_severity (sev : string) (all_issues : Dict.t (list Schema.Issue))
  : Dict.t (list Schema.Issue) :=
  filter (fun kv => Schema.any_severity sev (snd kv)) all_issues.

Section WithBuiltins.

Variable int_of_str : string -> option Z.
Variable float_of_str : string -> option float.
Variable repr_float : float -> string.

(** [output_dir / folder_name] of [pathlib]. *)
Variable joinpath : string -> string -> string.

Local Abbreviation str := (Sweep.str repr_float).

(** Whether a value is a text. *)
Definition is_text (v : PyVal) : bool :=
  match v with
  | VStr _ => true
  | _ => false
  end.

(** [launch_batch_simulation] as [run_simulation] calls it, with the value
    of [exp_name] as it is in [current_params].  With several combinations
    or replicates the identifiers are texts built from it.  The one run of
    a launch without them keeps the value itself as its name, and
    [SimulationWorker.__init__] joins it to the output directory
    ([self.output_dir / self.exp_name]), which raises [TypeError] unless it
    is a text: the launch then ends there, after the buttons and the
    progress bar were set, with no thread started. *)
Definition launch (base_exp_name : PyVal)
  (combos : list (Dict.t PyVal)) (replicates : nat) (w : Batch.Window)
  : Result unit * Batch.Window * list (Dict.t PyVal) :=
  let '(w', ws) :=
    Batch.launch_batch_simulation (str base_exp_name) combos replicates w in
  if (1 <? List.length combos) || (1 <? replicates) || is_text base_exp_name
  then (Ok tt, w', ws)
  else
    match ws with
    | [] => (Ok tt, w', ws)
    | _ :: _ => (Err (Other TypeError), Batch.set_simulation_threads [] w', [])
    end.

(** The folder [run_simulation] gives a launch: one of its own, named
    after the experiment and the time, for a sweep or for replicates, and
    the output directory itself for a single run. *)
Definition folder_of (current_params : Dict.t PyVal) (replicates : nat)
  (output_dir now : string) : string :=
  if (match Sweep.sweep_axes int_of_str float_of_str repr_float current_params
      with [] => false | _ => true end)
     || (1 <? replicates)
  then joinpath output_dir
         (str (Dict.get_default "exp_name" (VStr "unnamed_run") current_params)
          ++ "_" ++ now)%string
  else output_dir.

(** [MainWindow.run_simulation].  [replicates] is the value of the spin
    box, [now] the time stamp, [mkdir] what creating the batch folder
    does, [reply_issues] and [reply_run] the user's answers to the two
    questions (each read only if its box is shown). *)
Definition run_simulation (schema : Schema.t) (current_params : Dict.t PyVal)
  (replicates : nat) (output_dir now : string) (mkdir : Outcome unit)
  (reply_issues reply_run : Batch.Reply) (a : App) : Result unit * App :=
  match Params.validate_entries int_of_str float_of_str repr_float schema
          current_params [] with
  | Err e => (Err e, a)
  | Ok all_issues =>
      let errors := with_severity "ERROR" all_issues in
      let warnings := with_severity "WARNING" all_issues in
      let asked :=
        match errors, warnings with
        | [], [] => false
        | _, _ => true
        end in
      let a := if asked
               then show_prompt (ValidationIssuesDetected errors warnings) a
               else a in
      if asked && match reply_issues with Batch.No => true | Batch.Yes => false end
      then (Ok tt, a)
      else
        match Sweep.detect_sweep_parameters int_of_str float_of_str repr_float
                current_params (sweep a) with
        | (Raise e, st) => (Err (Other e), set_sweep st a)
        | (Ret is_sweep, st) =>
            let a := set_sweep st a in
            let combos := Sweep.generate_parameter_combinations st in
            let a := set_parameter_combinations combos a in
            let a := set_window
                       (Batch.reset_batch (List.length combos) replicates
                          (window a)) a in
            if Batch.total_combinations (window a) =? 0
            then (Ok tt, show_prompt NoCombinations a)
            else
              let base_exp_name :=
                Dict.get_default "exp_name" (VStr "unnamed_run")
                  current_params in
              let batch := is_sweep || (1 <? replicates) in
              let folder :=
                if batch
                then joinpath output_dir (str base_exp_name ++ "_" ++ now)%string
                else output_dir in
              let a := set_window (set_batch_output_folder folder (window a)) a in
              match (if batch then mkdir else Ret tt) with
              | Raise e => (Err (Other e), a)
              | Ret _ =>
                  let a := if batch then add_folder folder a else a in
                  let sweep_info :=
                    if is_sweep
                    then map (fun kv => (fst kv, List.length (snd kv)))
                             (Sweep.sweep_parameters st)
                    else [] in
                  let a :=
                    show_prompt
                      (RunSimulationQuestion batch (str base_exp_name)
                         sweep_info replicates
                         (Batch.total_combinations (window a))
                         (str (Dict.get_default "sim_time" (VInt 100)
                                 current_params))
                         (List.length all_issues)) a in
                  match reply_run with
                  | Batch.Yes =>
                      let '(r, w, ws) :=
                        launch base_exp_name combos replicates (window a) in
                      (r, add_workers ws (set_window w a))
                  | Batch.No => (Ok tt, a)
                  end
              end
        end
  end.

End WithBuiltins.

End Launch.

(* --------------------------------------------------------------------- *)
(** ** Example inputs                                                     *)
(* --------------------------------------------------------------------- *)

Module Examples.

(** A batch of two runs that has just been launched. *)
Definition two_runs : Batch.Window :=
  fst (Batch.launch_batch_simulation "run" [[]] 2
         (Batch.reset_batch 1 2
            (Batch.mkWindow false 0 0 "experiments" [] true false false 0 0 "" [] []))).

(** [int(s)] on decimal literals, for the examples. *)
Definition decimal_int (s : string) : option Z :=
  option_map Z.of_int (NilZero.int_of_string s).

(** The example of the specification: the base set with [jee] swept over
    2 and 4 expands to two configurations, equal but for [jee]. *)
Definition example_params : Dict.t PyVal :=
  [("jee", VStr "2,4"); ("jem", VFloat 3%float); ("exp_name", VStr "x")].

(** A run in which nothing fails apart from what the arguments say. *)
Definition example_env (sim_time : PyVal) (latest_steps : list Z)
  (popen_result wait_result : Outcome Z) : Worker.Env :=
  Worker.mkEnv "run" sim_time (Ret tt) (Ret tt) (Ret tt) (Ret tt) (Ret tt)
    popen_result latest_steps wait_result (Ret "out") (Ret "")
    (last latest_steps 0%Z) (Ret tt) (Ret tt) true (Ret tt).

(** The entry of an integer parameter with presets, ranges and a
    threshold, and the entry of the experiment name. *)
Definition jee_info : Schema.ParamInfo :=
  Schema.mkParamInfo (Some "Cell Properties") (Some "Adhesion")
    (Some "EC-EC adhesion energy") (Some (VInt 2)) (Some "basic") None
    (Some [("weak", VInt 8); ("strong", VInt 2)])
    (Some (VInt 1, VInt 10)) None (Some (VInt 0, VInt 20)) (Some (VInt 15))
    (Some [("source", "Merks 2008")]).

Definition exp_name_info : Schema.ParamInfo :=
  Schema.mkParamInfo (Some "Simulation Setup") None None (Some (VStr "x"))
    None None None None None None None None.

Definition example_schema : Schema.t :=
  Schema.mkSchema (Some [("jee", jee_info); ("exp_name", exp_name_info)]).

(** The conversions of the examples: no float literal is read, and every
    float prints as [3.0]. *)
Definition no_float (s : string) : option float := None.

Definition float_text (f : float) : string := "3.0".

(** [output_dir / folder_name] on a POSIX system, for a relative folder
    name. *)
Definition joinpath (output_dir folder_name : string) : string :=
  (output_dir ++ "/" ++ folder_name)%string.

(** A window on which nothing has happened yet. *)
Definition fresh_app : Launch.App :=
  Launch.mkApp BatchRun.idle (Sweep.mkSweepState [] []) [] [] [] [].

End Examples.

(* ===================================================================== *)
(** * Part II.  Properties                                                *)
(* ===================================================================== *)

(* --------------------------------------------------------------------- *)
(** ** Strings and dictionaries                                           *)
(* --------------------------------------------------------------------- *)

Lemma append_inv_head (p s t : string) :
  (p ++ s)%string = (p ++ t)%string -> s = t.
Proof.
  induction p as [|a p IH]; simpl; intros H.
  - exact H.
  - injection H as H. auto.
Qed.

Lemma all_digits_app (s t : string) :
  PyStr.all_digits (s ++ t) = PyStr.all_digits s && PyStr.all_digits t.
Proof.
  induction s as [|a s IH]; simpl.
  - reflexivity.
  - rewrite IH. now rewrite andb_assoc.
Qed.

Lemma all_digits_string_of_uint (d : Decimal.uint) :
  PyStr.all_digits (NilEmpty.string_of_uint d) = true.
Proof. induction d; simpl; auto. Qed.

Lemma all_digits_zeros (k : nat) : PyStr.all_digits (PyStr.zeros k) = true.
Proof. induction k; simpl; auto. Qed.

Lemma all_digits_fmt_0d (w n : nat) : PyStr.all_digits (PyStr.fmt_0d w n) = true.
Proof.
  unfold PyStr.fmt_0d, PyStr.of_nat.
  now rewrite all_digits_app, all_digits_zeros, all_digits_string_of_uint.
Qed.

Lemma read_nat_zeros (k : nat) (s : string) :
  PyStr.read_nat (PyStr.zeros k ++ s) = PyStr.read_nat s.
Proof.
  unfold PyStr.read_nat. induction k as [|k IH]; simpl.
  - reflexivity.
  - destruct (NilEmpty.uint_of_string (PyStr.zeros k ++ s)) as [d|] eqn:E;
      destruct (NilEmpty.uint_of_string s) as [d'|] eqn:E'; simpl in *;
      try discriminate; auto.
Qed.

Lemma read_nat_fmt_0d (w n : nat) : PyStr.read_nat (PyStr.fmt_0d w n) = Some n.
Proof.
  unfold PyStr.fmt_0d, PyStr.of_nat. rewrite read_nat_zeros.
  unfold PyStr.read_nat. rewrite NilEmpty.usu. simpl. now rewrite Unsigned.of_to.
Qed.

Lemma fmt_0d_inj (w n m : nat) : PyStr.fmt_0d w n = PyStr.fmt_0d w m -> n = m.
Proof.
  intros H. pose proof (read_nat_fmt_0d w n) as Hn.
  rewrite H, read_nat_fmt_0d in Hn. congruence.
Qed.

(** Two digit strings followed by an underscore: the digit strings end at
    the same place. *)
Lemma digits_then_underscore_inj (s1 s2 t1 t2 : string) :
  PyStr.all_digits s1 = true -> PyStr.all_digits s2 = true ->
  (s1 ++ String "_" t1)%string = (s2 ++ String "_" t2)%string ->
  s1 = s2 /\ t1 = t2.
Proof.
  revert s2. induction s1 as [|a s1 IH]; intros [|b s2]; simpl; intros H1 H2 H.
  - injection H as H. auto.
  - injection H as Ha H. subst b. discriminate H2.
  - injection H as Ha H. subst a. discriminate H1.
  - injection H as Ha H. subst b.
    apply andb_prop in H1 as [_ H1]. apply andb_prop in H2 as [_ H2].
    destruct (IH s2 H1 H2 H) as [-> ->]. auto.
Qed.

Lemma Dict_get_set_same {V} (k : string) (v : V) (d : Dict.t V) :
  Dict.get k (Dict.set k v d) = Some v.
Proof.
  induction d as [|[k' v'] d IH]; simpl.
  - now rewrite String.eqb_refl.
  - destruct (String.eqb k k') eqn:E; simpl.
    + now rewrite String.eqb_refl.
    + now rewrite E.
Qed.

Lemma Dict_get_set_other {V} (k k' : string) (v : V) (d : Dict.t V) :
  k' <> k -> Dict.get k' (Dict.set k v d) = Dict.get k' d.
Proof.
  intros Hne. induction d as [|[k0 v0] d IH]; simpl.
  - destruct (String.eqb k' k) eqn:E; [apply String.eqb_eq in E; contradiction | reflexivity].
  - destruct (String.eqb k k0) eqn:E; simpl.
    + apply String.eqb_eq in E. subst k0.
      destruct (String.eqb k' k) eqn:E'; [apply String.eqb_eq in E'; contradiction | reflexivity].
    + destruct (String.eqb k' k0); auto.
Qed.

Lemma Dict_keys_set_in {V} (k : string) (v : V) (d : Dict.t V) :
  In k (Dict.keys d) -> Dict.keys (Dict.set k v d) = Dict.keys d.
Proof.
  induction d as [|[k0 v0] d IH]; simpl; intros H.
  - contradiction.
  - destruct (String.eqb k k0) eqn:E; simpl.
    + apply String.eqb_eq in E. now subst.
    + destruct H as [H|H].
      * subst. now rewrite String.eqb_refl in E.
      * now rewrite IH.
Qed.

Lemma NoDup_list_prod {A B} (l : list A) (l' : list B) :
  NoDup l -> NoDup l' -> NoDup (list_prod l l').
Proof.
  intros Hl Hl'. induction Hl as [|a l Ha Hl IH]; simpl.
  - constructor.
  - apply NoDup_app.
    + apply NoDup_map_NoDup_ForallPairs; [|exact Hl'].
      intros x y _ _ H. now injection H.
    + exact IH.
    + intros [a' b'] Hin1 Hin2. apply in_map_iff in Hin1 as [b [Heq _]].
      injection Heq as -> _. apply in_prod_iff in Hin2 as [Hin2 _]. contradiction.
Qed.

(* --------------------------------------------------------------------- *)
(** ** Exit-code classification                                           *)
(* --------------------------------------------------------------------- *)

Section ExitCodeFacts.

Local Open Scope Z_scope.

(** C3. For every integer exit code [_interpret_exit_code] follows the
    decision table: 0 is success; 1 is the Python exception of the child;
    -11 is the segmentation fault; 3221225477 and -1073741819 are the known
    access-violation crash, whose message suggests reducing the write
    frequency or the lattice size; any other negative code is "killed by
    signal -code"; any other positive code is the unknown error with the raw
    code. *)
Theorem interpret_exit_code_table (exit_code : Z) :
  let msg := ExitCode._interpret_exit_code exit_code in
  (exit_code = 0 -> msg = "Success")
  /\ (exit_code = 1 -> msg = "Python exception (check stderr)")
  /\ (exit_code = -11 -> msg = "Segmentation fault (SIGSEGV) - CC3D crashed")
  /\ (exit_code = 3221225477 \/ exit_code = -1073741819 ->
      msg = ExitCode.access_violation_msg
      /\ PyStr.contains "ACCESS_VIOLATION" msg = true
      /\ PyStr.contains
           "Reduce write frequency or use smaller lattice size" msg = true)
  /\ (exit_code < 0 -> exit_code <> -11 -> exit_code <> -1073741819 ->
      msg = ("Process killed by signal " ++ PyStr.of_int (- exit_code))%string)
  /\ (exit_code > 0 -> exit_code <> 1 -> exit_code <> 3221225477 ->
      msg = ("Unknown error (exit code " ++ PyStr.of_int exit_code ++ ")")%string).
Proof.
  cbv zeta. unfold ExitCode._interpret_exit_code.
  refine (conj _ (conj _ (conj _ (conj _ (conj _ _))))).
  - intros ->. reflexivity.
  - intros ->. reflexivity.
  - intros ->. reflexivity.
  - intros [-> | ->]; vm_compute; auto.
  - intros Hneg H11 Hav.
    destruct (Z.eqb_spec exit_code 0); [lia|].
    destruct (Z.eqb_spec exit_code 1); [lia|].
    destruct (Z.eqb_spec exit_code (-11)); [lia|].
    destruct (Z.eqb_spec exit_code 3221225477); [lia|].
    destruct (Z.eqb_spec exit_code (-1073741819)); [lia|].
    simpl. destruct (Z.ltb_spec exit_code 0); [reflexivity | lia].
  - intros Hpos H1 Hav.
    destruct (Z.eqb_spec exit_code 0); [lia|].
    destruct (Z.eqb_spec exit_code 1); [lia|].
    destruct (Z.eqb_spec exit_code (-11)); [lia|].
    destruct (Z.eqb_spec exit_code 3221225477); [lia|].
    destruct (Z.eqb_spec exit_code (-1073741819)); [lia|].
    simpl. destruct (Z.ltb_spec exit_code 0); [lia | reflexivity].
Qed.

(** The table at exit code -9 (killed by signal 9). *)
Lemma interpret_exit_code_table_witness :
  ExitCode._interpret_exit_code (-9) = "Process killed by signal 9".
Proof.
  destruct (interpret_exit_code_table (-9)) as (_ & _ & _ & _ & Hneg & _).
  rewrite Hneg; [reflexivity | lia | lia | lia].
Defined.

End ExitCodeFacts.

(* --------------------------------------------------------------------- *)
(** ** Run identifiers                                                    *)
(* --------------------------------------------------------------------- *)

Section NamingFacts.

Variable base_exp_name : string.

Local Abbreviation identifier := (Batch.identifier base_exp_name).

Lemma launch_workers_names_from (N R start : nat)
  (combos : list (Dict.t PyVal)) :
  map (Dict.get "exp_name")
    (flat_map
       (fun '(combo_idx, params) =>
          map (fun rep_idx =>
                 Dict.set "exp_name"
                   (VStr (Batch.exp_name_of base_exp_name N R combo_idx rep_idx))
                   params)
              (seq 0 R))
       (combine (seq start (List.length combos)) combos))
  = map (fun cr => Some (VStr (identifier N R (fst cr) (snd cr))))
      (list_prod (seq (S start) (List.length combos)) (seq 1 R)).
Proof.
  revert start. induction combos as [|params combos IH]; intros start; simpl.
  - reflexivity.
  - rewrite !map_app, IH. f_equal.
    rewrite <- seq_shift, !map_map. apply map_ext. intros rep_idx.
    rewrite Dict_get_set_same. unfold Batch.identifier. simpl.
    now rewrite !Nat.sub_0_r.
Qed.

Lemma launch_workers_names (combos : list (Dict.t PyVal)) (R : nat) :
  map (Dict.get "exp_name") (Batch.launch_workers base_exp_name combos R)
  = map (fun cr => Some (VStr (identifier (List.length combos) R (fst cr) (snd cr))))
      (list_prod (seq 1 (List.length combos)) (seq 1 R)).
Proof.
  unfold Batch.launch_workers, Batch.enumerate.
  apply launch_workers_names_from.
Qed.

Lemma identifier_cases (N R c r : nat) :
  1 <= c -> 1 <= r ->
  (N <= 1 -> R <= 1 -> identifier N R c r = base_exp_name)
  /\ (N > 1 -> R <= 1 ->
      identifier N R c r = (base_exp_name ++ "_combo" ++ PyStr.fmt_0d 3 c)%string)
  /\ (N <= 1 -> R > 1 ->
      identifier N R c r = (base_exp_name ++ "_rep" ++ PyStr.fmt_0d 2 r)%string)
  /\ (N > 1 -> R > 1 ->
      identifier N R c r
      = (base_exp_name ++ "_combo" ++ PyStr.fmt_0d 3 c
         ++ "_rep" ++ PyStr.fmt_0d 2 r)%string).
Proof.
  intros Hc Hr. unfold Batch.identifier, Batch.exp_name_of.
  replace (c - 1 + 1) with c by lia. replace (r - 1 + 1) with r by lia.
  repeat split; intros HN HR;
    destruct (Nat.ltb_spec 1 N); destruct (Nat.ltb_spec 1 R);
    simpl; try lia; reflexivity.
Qed.

Lemma identifier_inj (N R c r c' r' : nat) :
  1 <= c <= N -> 1 <= r <= R -> 1 <= c' <= N -> 1 <= r' <= R ->
  identifier N R c r = identifier N R c' r' -> c = c' /\ r = r'.
Proof.
  intros Hc Hr Hc' Hr' H.
  destruct (identifier_cases N R c r) as (H1 & H2 & H3 & H4); try lia.
  destruct (identifier_cases N R c' r') as (H1' & H2' & H3' & H4'); try lia.
  destruct (Nat.le_gt_cases N 1) as [HN|HN];
    destruct (Nat.le_gt_cases R 1) as [HR|HR].
  - lia.
  - rewrite (H3 HN HR), (H3' HN HR) in H.
    apply append_inv_head in H. apply append_inv_head in H.
    apply fmt_0d_inj in H. lia.
  - rewrite (H2 HN HR), (H2' HN HR) in H.
    apply append_inv_head in H. apply append_inv_head in H.
    apply fmt_0d_inj in H. lia.
  - rewrite (H4 HN HR), (H4' HN HR) in H.
    apply append_inv_head in H. apply append_inv_head in H.
    change ("_rep" ++ PyStr.fmt_0d 2 r)%string
      with (String "_" ("rep" ++ PyStr.fmt_0d 2 r)%string) in H.
    change ("_rep" ++ PyStr.fmt_0d 2 r')%string
      with (String "_" ("rep" ++ PyStr.fmt_0d 2 r')%string) in H.
    apply digits_then_underscore_inj in H as [Hcc Hrr];
      try apply all_digits_fmt_0d.
    apply fmt_0d_inj in Hcc. apply append_inv_head in Hrr.
    apply fmt_0d_inj in Hrr. auto.
Qed.

(** C4. The identifiers [launch_batch_simulation] gives to the workers of a
    batch of [N] configurations and [R] replicates are, in launch order,
    those of the pairs (c, r) with c in 1..N and r in 1..R; the identifier
    of (c, r) is the base name alone when N = 1 and R = 1, the base name
    with [_combo{c:03d}] when N > 1 and R = 1, with [_rep{r:02d}] when
    N = 1 and R > 1, with [_combo{c:03d}_rep{r:02d}] when both exceed 1;
    and the N * R identifiers are pairwise distinct. *)
Theorem run_identifiers (parameter_combinations : list (Dict.t PyVal))
  (replicates : nat) :
  let N := List.length parameter_combinations in
  let R := replicates in
  let names :=
    map (Dict.get "exp_name")
      (Batch.launch_workers base_exp_name parameter_combinations replicates) in
  names = map (fun cr => Some (VStr (identifier N R (fst cr) (snd cr))))
            (list_prod (seq 1 N) (seq 1 R))
  /\ (forall c r, 1 <= c <= N -> 1 <= r <= R ->
        (N = 1 -> R = 1 -> identifier N R c r = base_exp_name)
        /\ (N > 1 -> R = 1 ->
            identifier N R c r
            = (base_exp_name ++ "_combo" ++ PyStr.fmt_0d 3 c)%string)
        /\ (N = 1 -> R > 1 ->
            identifier N R c r
            = (base_exp_name ++ "_rep" ++ PyStr.fmt_0d 2 r)%string)
        /\ (N > 1 -> R > 1 ->
            identifier N R c r
            = (base_exp_name ++ "_combo" ++ PyStr.fmt_0d 3 c
               ++ "_rep" ++ PyStr.fmt_0d 2 r)%string))
  /\ List.length names = N * R
  /\ NoDup names.
Proof.
  cbv zeta. rewrite launch_workers_names.
  set (N := List.length parameter_combinations).
  split; [reflexivity|]. split; [|split].
  - intros c r Hc Hr.
    destruct (identifier_cases N replicates c r) as (H1 & H2 & H3 & H4);
      try lia.
    repeat split; intros; auto with arith; [apply H1 | apply H2 | apply H3]; lia.
  - now rewrite length_map, length_prod, !length_seq.
  - apply NoDup_map_NoDup_ForallPairs.
    + intros [c r] [c' r'] Hin Hin' Heq. simpl in Heq.
      apply in_prod_iff in Hin as [Hc Hr]. apply in_prod_iff in Hin' as [Hc' Hr'].
      apply in_seq in Hc, Hr, Hc', Hr'.
      injection Heq as Heq.
      apply identifier_inj in Heq as [-> ->]; [reflexivity | lia..].
    + apply NoDup_list_prod; apply seq_NoDup.
Qed.

End NamingFacts.

(** Three configurations and two replicates of base ["run"]: the last run
    is [run_combo003_rep02]. *)
Lemma run_identifiers_witness :
  Batch.identifier "run" 3 2 3 2 = "run_combo003_rep02".
Proof.
  destruct (run_identifiers "run" [[]; []; []] 2) as (_ & Hcases & _).
  destruct (Hcases 3 2) as (_ & _ & _ & H); [simpl; lia | lia |].
  exact (H ltac:(simpl; lia) ltac:(lia)).
Defined.

(* --------------------------------------------------------------------- *)
(** ** Batch bookkeeping and cancellation                                 *)
(* --------------------------------------------------------------------- *)

Section BatchFacts.

Import Batch.
Import Examples.

Lemma batch_terminals_app (ds ds' : list Dialog) :
  batch_terminals (ds ++ ds') = batch_terminals ds ++ batch_terminals ds'.
Proof.
  induction ds as [|d ds IH]; simpl.
  - reflexivity.
  - destruct (batch_terminal d); simpl; now rewrite IH.
Qed.

(** A terminal signal that arrives while the flag is down is counted. *)
Lemma deliver_counts (ev : Terminal) (w : Window) :
  is_cancelled w = false ->
  let w' := deliver ev w in
  completed_combinations w' = completed_combinations w + 1
  /\ progress_bar_value w' = completed_combinations w + 1
  /\ total_combinations w' = total_combinations w
  /\ is_cancelled w' = false
  /\ batch_terminals (dialogs w')
     = batch_terminals (dialogs w)
       ++ (if total_combinations w <=? completed_combinations w + 1
           then [false] else []).
Proof.
  intros Hc. destruct ev as [exp_name | error_message]; simpl;
    unfold on_batch_simulation_finished, on_batch_simulation_error;
    rewrite Hc; cbn;
    try destruct (total_combinations w =? 1); cbn;
    destruct (total_combinations w <=? completed_combinations w + 1); cbn;
    repeat split; rewrite ?batch_terminals_app; cbn;
    rewrite ?app_nil_r; auto.
Qed.

(** A terminal signal that arrives while the flag is up changes nothing. *)
Lemma deliver_cancelled (ev : Terminal) (w : Window) :
  is_cancelled w = true -> deliver ev w = w.
Proof.
  intros Hc. destruct ev; simpl;
    unfold on_batch_simulation_finished, on_batch_simulation_error;
    now rewrite Hc.
Qed.

Lemma deliver_all_snoc (evs : list Terminal) (ev : Terminal) (w : Window) :
  deliver_all (evs ++ [ev]) w = deliver ev (deliver_all evs w).
Proof. unfold deliver_all. now rewrite fold_left_app. Qed.

(** While the flag stays down, [k] deliveries add [k] to the count and the
    batch is finalized at the delivery that brings the count to the total,
    provided the count started below it. *)
Lemma deliver_all_counts (evs : list Terminal) (w : Window) :
  is_cancelled w = false ->
  completed_combinations w + List.length evs <= total_combinations w ->
  completed_combinations w < total_combinations w ->
  let w' := deliver_all evs w in
  completed_combinations w' = completed_combinations w + List.length evs
  /\ total_combinations w' = total_combinations w
  /\ is_cancelled w' = false
  /\ progress_bar_value w'
     = match evs with
       | [] => progress_bar_value w
       | _ => completed_combinations w + List.length evs
       end
  /\ batch_terminals (dialogs w')
     = batch_terminals (dialogs w)
       ++ (if total_combinations w <=? completed_combinations w + List.length evs
           then [false] else []).
Proof.
  intros Hc. induction evs as [|ev evs IH] using rev_ind; intros Hle Hlt.
  - simpl. rewrite Nat.add_0_r.
    destruct (Nat.leb_spec (total_combinations w) (completed_combinations w));
      [lia|]. rewrite app_nil_r. repeat split; auto.
  - rewrite length_app in *. simpl in *. cbv zeta.
    rewrite deliver_all_snoc.
    destruct IH as (Hk & Ht & Hf & _ & Hd); [lia | lia |].
    destruct (deliver_counts ev (deliver_all evs w) Hf)
      as (Hk' & Hp' & Ht' & Hf' & Hd').
    rewrite Hk', Hp', Ht', Hf', Hd', Hd, Hk, Ht.
    destruct (Nat.leb_spec (total_combinations w)
                (completed_combinations w + List.length evs)); [lia|].
    rewrite app_nil_r, Nat.add_assoc.
    repeat split; auto.
    destruct (evs ++ [ev]) eqn:E; [now destruct evs | reflexivity].
Qed.

Lemma cancel_quits (isRunning : nat -> bool) (threads : list nat) (w : Window) :
  let w' := fold_left
              (fun w thread => if isRunning thread then thread_quit thread w
                               else w) threads w in
  quit_requests w' = quit_requests w ++ filter isRunning threads
  /\ is_cancelled w' = is_cancelled w
  /\ completed_combinations w' = completed_combinations w
  /\ total_combinations w' = total_combinations w
  /\ progress_bar_value w' = progress_bar_value w
  /\ dialogs w' = dialogs w.
Proof.
  revert w. induction threads as [|t threads IH]; intros w; simpl.
  - rewrite app_nil_r. repeat split; auto.
  - destruct (IH (if isRunning t then thread_quit t w else w))
      as (Hq & Hc & Hk & Ht & Hp & Hd).
    rewrite Hq, Hc, Hk, Ht, Hp, Hd.
    destruct (isRunning t); simpl; rewrite <- ?app_assoc; repeat split; auto.
Qed.

(** What a click on the cancel button does, for either answer. *)
Lemma cancel_batch_effect (isRunning : nat -> bool) (reply : Reply) (w : Window) :
  let w' := cancel_batch isRunning reply w in
  is_cancelled w' = true
  /\ completed_combinations w' = completed_combinations w
  /\ total_combinations w' = total_combinations w
  /\ progress_bar_value w' = progress_bar_value w
  /\ batch_terminals (dialogs w')
     = batch_terminals (dialogs w)
       ++ match reply with Yes => [true] | No => [] end
  /\ quit_requests w'
     = quit_requests w
       ++ match reply with
          | Yes => filter isRunning (simulation_threads w)
          | No => []
          end.
Proof.
  unfold cancel_batch. destruct reply; simpl.
  - match goal with
    | |- context [fold_left ?f ?l ?a] =>
        destruct (cancel_quits isRunning l a) as (Hq & Hc & Hk & Ht & Hp & Hd)
    end.
    simpl in *. unfold finalize_batch. simpl.
    rewrite Hq, Hk, Hp, Hd, Ht, !batch_terminals_app. simpl.
    rewrite app_nil_r. repeat split; auto.
  - rewrite batch_terminals_app, !app_nil_r. simpl. rewrite ?app_nil_r.
    repeat split; auto.
Qed.






(** The path that works: when the user confirms the cancel request, every
    thread that is still running is asked to quit and the batch-terminal
    event fires at once, exactly once and as a cancelled batch, showing the
    count reached so far. *)
Lemma cancel_confirmed_finalizes (isRunning : nat -> bool) (w : Window) :
  let yes := cancel_batch isRunning Yes w in
  is_cancelled yes = true
  /\ completed_combinations yes = completed_combinations w
  /\ quit_requests yes
     = quit_requests w ++ filter isRunning (simulation_threads w)
  /\ batch_terminals (dialogs yes) = batch_terminals (dialogs w) ++ [true]
  /\ last (dialogs yes) (InfoBatchComplete 0 "")
     = InfoBatchCancelled (completed_combinations w) (total_combinations w)
  /\ run_button_enabled yes = true.
Proof.
  cbv zeta.
  destruct (cancel_batch_effect isRunning Yes w) as (Hc & Hk & Ht & _ & Hd & Hq).
  repeat split; auto.
  unfold cancel_batch, finalize_batch. simpl.
  match goal with
  | |- context [fold_left ?f ?l ?a] =>
      destruct (cancel_quits isRunning l a) as (_ & _ & Hk2 & Ht2 & _ & _)
  end.
  rewrite last_last. simpl in *. now rewrite Hk2, Ht2.
Qed.

(** C7. The defect: [cancel_batch] raises the cancellation flag before it
    asks, and nothing lowers it when the user answers No.  After a declined
    cancel request no thread has been asked to quit, and whatever terminal
    signals the runs deliver from then on are all ignored: the window stays
    as the request left it, so the completed count stands still, no
    batch-terminal event fires, neither as cancelled nor as completed, and
    the run button keeps the state the launch gave it. *)
Theorem cancel_declined_blocks_batch (isRunning : nat -> bool) (w : Window)
  (evs : list Terminal) :
  let no := cancel_batch isRunning No w in
  let after := deliver_all evs no in
  is_cancelled no = true
  /\ quit_requests no = quit_requests w
  /\ after = no
  /\ completed_combinations after = completed_combinations w
  /\ batch_terminals (dialogs after) = batch_terminals (dialogs w)
  /\ run_button_enabled after = run_button_enabled w
  /\ cancel_button_visible after = cancel_button_visible w.
Proof.
  cbv zeta.
  destruct (cancel_batch_effect isRunning No w) as (Hc & Hk & _ & _ & Hd & Hq).
  rewrite app_nil_r in Hd, Hq.
  assert (Hsame : deliver_all evs (cancel_batch isRunning No w)
                  = cancel_batch isRunning No w).
  { generalize dependent (cancel_batch isRunning No w). intros w' Hc _ _ _.
    induction evs as [|ev evs IH]; [reflexivity|].
    unfold deliver_all in *. simpl. now rewrite deliver_cancelled. }
  rewrite Hsame. repeat split; auto.
Qed.

(** The defect on a batch of two runs: one run is done, the cancel request
    is declined, the other run ends, and the batch is never finalized
    while the run button stays disabled. *)
Lemma cancel_declined_example :
  let w1 := deliver (RunFinished "run_rep01") two_runs in
  let w2 := cancel_batch (fun _ => true) No w1 in
  let w3 := deliver (RunFinished "run_rep02") w2 in
  completed_combinations w1 = 1
  /\ completed_combinations w3 = 1
  /\ batch_terminals (dialogs w3) = []
  /\ run_button_enabled w3 = false.
Proof. vm_compute. repeat split. Qed.

End BatchFacts.

(* --------------------------------------------------------------------- *)
(** ** Sweep detection and expansion                                      *)
(* --------------------------------------------------------------------- *)

Lemma split_not_nil (c : ascii) (s : string) : PyStr.split c s <> [].
Proof.
  induction s as [|a s IH]; simpl.
  - discriminate.
  - destruct (Ascii.eqb a c); [discriminate|].
    destruct (PyStr.split c s); discriminate.
Qed.

Lemma Dict_set_fresh {V} (k : string) (v : V) (d : Dict.t V) :
  ~ In k (Dict.keys d) -> Dict.set k v d = d ++ [(k, v)].
Proof.
  induction d as [|[k' v'] d IH]; simpl; intros Hnin.
  - reflexivity.
  - destruct (String.eqb_spec k k') as [->|Hne].
    + exfalso. auto.
    + rewrite IH; auto.
Qed.

Lemma Dict_get_in {V} (k : string) (v : V) (d : Dict.t V) :
  NoDup (Dict.keys d) -> In (k, v) d -> Dict.get k d = Some v.
Proof.
  induction d as [|[k' v'] d IH]; simpl; intros Hnd Hin.
  - contradiction.
  - inversion Hnd as [|? ? Hnin Hnd']; subst.
    destruct Hin as [Heq|Hin].
    + injection Heq as -> ->. now rewrite String.eqb_refl.
    + destruct (String.eqb_spec k k') as [->|Hne].
      * exfalso. apply Hnin. apply in_map_iff. now exists (k', v).
      * auto.
Qed.

Lemma Dict_get_not_in {V} (k : string) (d : Dict.t V) :
  ~ In k (Dict.keys d) -> Dict.get k d = None.
Proof.
  induction d as [|[k' v'] d IH]; simpl; intros Hnin.
  - reflexivity.
  - destruct (String.eqb_spec k k') as [->|Hne]; [exfalso; auto | auto].
Qed.

Lemma Dict_get_some_in_keys {V} (k : string) (v : V) (d : Dict.t V) :
  Dict.get k d = Some v -> In k (Dict.keys d).
Proof.
  induction d as [|[k' v'] d IH]; simpl; intros H.
  - discriminate.
  - destruct (String.eqb_spec k k') as [->|Hne]; auto.
Qed.

Lemma Dict_values_by_key {V} (default : V) (d : Dict.t V) :
  NoDup (Dict.keys d) ->
  map (fun k => Dict.get_default k default d) (Dict.keys d) = map snd d.
Proof.
  intros Hnd. unfold Dict.keys. rewrite map_map. apply map_ext_in.
  intros [k v] Hin. unfold Dict.get_default. simpl.
  now rewrite (Dict_get_in k v d Hnd Hin).
Qed.

Lemma product_length {A} (lists : list (list A)) :
  List.length (Sweep.product lists)
  = fold_right Nat.mul 1 (map (@List.length A) lists).
Proof.
  induction lists as [|l lists IH]; simpl.
  - reflexivity.
  - rewrite <- IH. induction l as [|x l IHl]; simpl.
    + reflexivity.
    + now rewrite length_app, length_map, IHl.
Qed.

Lemma product_element_length {A} (lists : list (list A)) (choice : list A) :
  In choice (Sweep.product lists) -> List.length choice = List.length lists.
Proof.
  revert choice. induction lists as [|l lists IH]; simpl; intros choice Hin.
  - destruct Hin as [<-|[]]. reflexivity.
  - apply in_flat_map in Hin as [x [_ Hin]].
    apply in_map_iff in Hin as [rest [<- Hin]]. simpl. f_equal. auto.
Qed.

Section SweepFacts.

Variable int_of_str : string -> option Z.
Variable float_of_str : string -> option float.
Variable repr_float : float -> string.

Local Abbreviation str := (Sweep.str repr_float).
Local Abbreviation _convert_to_number := (Sweep._convert_to_number int_of_str float_of_str).
Local Abbreviation detect_item := (Sweep.detect_item int_of_str float_of_str repr_float).
Local Abbreviation detect_sweep_parameters :=
  (Sweep.detect_sweep_parameters int_of_str float_of_str repr_float).
Local Abbreviation expand := (Sweep.expand int_of_str float_of_str repr_float).
Local Abbreviation is_sweep := (Sweep.is_sweep repr_float).
Local Abbreviation token_value := (Sweep.token_value int_of_str float_of_str).
Local Abbreviation alternatives :=
  (Sweep.alternatives int_of_str float_of_str repr_float).
Local Abbreviation sweep_axes :=
  (Sweep.sweep_axes int_of_str float_of_str repr_float).
Local Abbreviation base_of := (Sweep.base_of int_of_str float_of_str repr_float).

Lemma convert_to_number_total (s : string) :
  _convert_to_number (PyStr.strip s) = Ret (token_value s).
Proof.
  unfold Sweep._convert_to_number, Sweep.token_value, Sweep.int, Sweep.float.
  destruct (PyStr.contains_char "." (PyStr.strip s)); simpl.
  - destruct (float_of_str (PyStr.strip s)); reflexivity.
  - destruct (int_of_str (PyStr.strip s)); reflexivity.
Qed.

Lemma convert_to_number_never_raises (s : string) :
  exists v, _convert_to_number s = Ret v
            /\ (v = VStr s \/ (exists z, v = VInt z) \/ (exists f, v = VFloat f)).
Proof.
  unfold Sweep._convert_to_number, Sweep.int, Sweep.float.
  destruct (PyStr.contains_char "." s); simpl.
  - destruct (float_of_str s); eauto 6.
  - destruct (int_of_str s); eauto 6.
Qed.

Lemma comprehension_tokens (tokens : list string) :
  Py.comprehension (fun v => _convert_to_number (PyStr.strip v)) tokens
  = Ret (map token_value tokens).
Proof.
  induction tokens as [|t tokens IH]; simpl.
  - reflexivity.
  - now rewrite convert_to_number_total, IH.
Qed.

Lemma alternatives_not_nil (value : PyVal) : alternatives value <> [].
Proof.
  unfold Sweep.alternatives. intros H. apply map_eq_nil in H.
  now apply split_not_nil in H.
Qed.

(** The loop body on a swept parameter: the [try] succeeds. *)
Lemma detect_item_sweep (k : string) (value : PyVal) (st : Sweep.SweepState) :
  is_sweep value = true ->
  detect_item (k, value) st
  = (Ret tt,
     Sweep.mkSweepState
       (Dict.set k (alternatives value) (Sweep.sweep_parameters st))
       (Dict.set k (hd value (alternatives value)) (Sweep.base_parameters st))).
Proof.
  intros Hs. unfold Sweep.detect_item. unfold Sweep.is_sweep in Hs. rewrite Hs.
  unfold Py.try_except, Py.bind, Py.lift. rewrite comprehension_tokens.
  fold (alternatives value).
  destruct (alternatives value) as [|v0 vs] eqn:E.
  - now apply alternatives_not_nil in E.
  - reflexivity.
Qed.

Lemma detect_item_single (k : string) (value : PyVal) (st : Sweep.SweepState) :
  is_sweep value = false ->
  detect_item (k, value) st
  = (Ret tt,
     Sweep.mkSweepState (Sweep.sweep_parameters st)
       (Dict.set k value (Sweep.base_parameters st))).
Proof.
  intros Hs. unfold Sweep.detect_item. unfold Sweep.is_sweep in Hs. now rewrite Hs.
Qed.

Lemma sweep_axes_keys_incl (params : Dict.t PyVal) (k : string) :
  In k (Dict.keys (sweep_axes params)) -> In k (Dict.keys params).
Proof.
  induction params as [|[k' v] params IH]; simpl; intros H.
  - contradiction.
  - unfold Dict.keys in *. rewrite map_app in H. apply in_app_or in H as [H|H].
    + destruct (is_sweep v); simpl in H; [|contradiction].
      destruct H as [H|[]]. auto.
    + auto.
Qed.

Lemma sweep_axes_NoDup (params : Dict.t PyVal) :
  NoDup (Dict.keys params) -> NoDup (Dict.keys (sweep_axes params)).
Proof.
  induction params as [|[k v] params IH]; simpl; intros Hnd.
  - constructor.
  - inversion Hnd as [|? ? Hnin Hnd']; subst.
    unfold Dict.keys. rewrite map_app.
    destruct (is_sweep v); simpl.
    + constructor; [|apply IH; assumption].
      intros H. apply Hnin. now apply sweep_axes_keys_incl.
    + apply IH; assumption.
Qed.

Lemma base_of_keys (params : Dict.t PyVal) :
  Dict.keys (base_of params) = Dict.keys params.
Proof.
  unfold Sweep.base_of, Dict.keys. rewrite map_map. apply map_ext. now intros [k v].
Qed.

(** The loop of [detect_sweep_parameters] over a dictionary. *)
Lemma detect_loop (params : Dict.t PyVal) (st : Sweep.SweepState) :
  NoDup (Dict.keys params) ->
  (forall k, In k (Dict.keys params) ->
             ~ In k (Dict.keys (Sweep.base_parameters st))
             /\ ~ In k (Dict.keys (Sweep.sweep_parameters st))) ->
  Py.for_each params detect_item st
  = (Ret tt,
     Sweep.mkSweepState
       (Sweep.sweep_parameters st ++ sweep_axes params)
       (Sweep.base_parameters st ++ base_of params)).
Proof.
  revert st. induction params as [|[k v] params IH]; intros st Hnd Hfresh.
  - simpl. unfold Py.ret. rewrite !app_nil_r. now destruct st.
  - inversion Hnd as [|? ? Hnin Hnd']; subst.
    destruct (Hfresh k (or_introl eq_refl)) as [Hb Hs].
    cbn [Py.for_each]. unfold Py.bind at 1.
    assert (Hfresh' : forall (sw : Dict.t (list PyVal)) (v' : PyVal),
      (forall k', In k' (Dict.keys sw) ->
                  In k' (Dict.keys (Sweep.sweep_parameters st)) \/ k' = k) ->
      forall k', In k' (Dict.keys params) ->
      ~ In k' (Dict.keys (Sweep.base_parameters st ++ [(k, v')]))
      /\ ~ In k' (Dict.keys sw)).
    { intros sw v' Hsw k' Hin. destruct (Hfresh k' (or_intror Hin)) as [Hb' Hs'].
      split.
      - unfold Dict.keys. rewrite map_app, in_app_iff. simpl.
        intros [H|[H|[]]]; [now apply Hb' | subst; contradiction].
      - intros H. apply Hsw in H as [H| ->]; [now apply Hs' | contradiction]. }
    destruct (is_sweep v) eqn:Esw.
    + rewrite detect_item_sweep by exact Esw.
      rewrite !Dict_set_fresh by assumption.
      rewrite IH; [| assumption |].
      * cbn [Sweep.sweep_parameters Sweep.base_parameters Sweep.sweep_axes
             Sweep.base_of flat_map map]. rewrite Esw. now rewrite <- !app_assoc.
      * cbn [Sweep.sweep_parameters Sweep.base_parameters].
        apply Hfresh'. intros k'. unfold Dict.keys.
        rewrite map_app, in_app_iff. simpl. intros [H|[H|[]]]; auto.
    + rewrite detect_item_single by exact Esw.
      rewrite !Dict_set_fresh by assumption.
      rewrite IH; [| assumption |].
      * cbn [Sweep.sweep_parameters Sweep.base_parameters Sweep.sweep_axes
             Sweep.base_of flat_map map]. rewrite Esw. now rewrite <- !app_assoc.
      * cbn [Sweep.sweep_parameters Sweep.base_parameters].
        apply Hfresh'. auto.
Qed.

(** [detect_sweep_parameters] on a dictionary: it returns, leaving the axes
    and the base parameters in the two attributes. *)
Lemma detect_sweep_parameters_spec (params : Dict.t PyVal)
  (st0 : Sweep.SweepState) :
  NoDup (Dict.keys params) ->
  detect_sweep_parameters params st0
  = (Ret (match sweep_axes params with [] => false | _ => true end),
     Sweep.mkSweepState (sweep_axes params) (base_of params)).
Proof.
  intros Hnd. unfold Sweep.detect_sweep_parameters, Py.bind, Py.modify.
  rewrite detect_loop; [reflexivity | assumption |].
  intros k _. simpl. auto.
Qed.

Lemma detect_item_returns (item : string * PyVal) (st : Sweep.SweepState) :
  fst (detect_item item st) = Ret tt.
Proof.
  destruct item as [k v]. destruct (is_sweep v) eqn:E.
  - now rewrite detect_item_sweep.
  - now rewrite detect_item_single.
Qed.

Lemma detect_loop_returns (params : Dict.t PyVal) (st : Sweep.SweepState) :
  fst (Py.for_each params detect_item st) = Ret tt.
Proof.
  revert st. induction params as [|item params IH]; intros st; simpl.
  - reflexivity.
  - unfold Py.bind. pose proof (detect_item_returns item st) as H.
    destruct (detect_item item st) as [o st']. simpl in H. subst o. apply IH.
Qed.

Lemma base_of_get (params : Dict.t PyVal) (k : string) :
  Dict.get k (base_of params)
  = option_map (fun v => if is_sweep v then hd v (alternatives v) else v)
      (Dict.get k params).
Proof.
  induction params as [|[k' v] params IH]; simpl.
  - reflexivity.
  - destruct (String.eqb k k'); [reflexivity | exact IH].
Qed.

Lemma Dict_get_some_in {V} (k : string) (v : V) (d : Dict.t V) :
  Dict.get k d = Some v -> In (k, v) d.
Proof.
  induction d as [|[k' v'] d IH]; simpl; intros H.
  - discriminate.
  - destruct (String.eqb_spec k k') as [->|Hne].
    + injection H as ->. auto.
    + auto.
Qed.

Lemma sweep_axes_key_is_sweep (params : Dict.t PyVal) (k : string) :
  In k (Dict.keys (sweep_axes params)) ->
  exists v, In (k, v) params /\ is_sweep v = true.
Proof.
  induction params as [|[k' v] params IH]; simpl; intros H.
  - contradiction.
  - unfold Dict.keys in H. rewrite map_app in H. apply in_app_or in H as [H|H].
    + destruct (is_sweep v) eqn:E; simpl in H; [|contradiction].
      destruct H as [<-|[]]. eauto.
    + destruct (IH H) as [v' [Hin Hs]]. eauto.
Qed.

Lemma assign_get_other (pairs : list (string * PyVal)) (d : Dict.t PyVal)
  (k : string) :
  ~ In k (map fst pairs) ->
  Dict.get k (Sweep.assign pairs d) = Dict.get k d.
Proof.
  revert d. induction pairs as [|[n x] pairs IH]; intros d Hnin; simpl.
  - reflexivity.
  - simpl in Hnin. rewrite IH by tauto.
    apply Dict_get_set_other. intros ->. tauto.
Qed.

Lemma combine_fst_incl {A B} (xs : list A) (ys : list B) (x : A) :
  In x (map fst (combine xs ys)) -> In x xs.
Proof.
  revert ys. induction xs as [|a xs IH]; intros [|b ys]; simpl; try tauto.
  intros [H|H]; eauto.
Qed.

Lemma assign_get (names : list string) (choice : list PyVal)
  (d : Dict.t PyVal) :
  NoDup names -> List.length choice = List.length names ->
  map (fun k => Dict.get k (Sweep.assign (combine names choice) d)) names
  = map Some choice.
Proof.
  revert choice d. induction names as [|n names IH];
    intros [|x choice] d Hnd Hlen; simpl in *; try discriminate.
  - reflexivity.
  - inversion Hnd as [|? ? Hnin Hnd']; subst. f_equal.
    + rewrite assign_get_other.
      * apply Dict_get_set_same.
      * intros H. apply combine_fst_incl in H. contradiction.
    + apply IH; [assumption | lia].
Qed.

Lemma assign_keys (pairs : list (string * PyVal)) (d : Dict.t PyVal) :
  (forall k, In k (map fst pairs) -> In k (Dict.keys d)) ->
  Dict.keys (Sweep.assign pairs d) = Dict.keys d.
Proof.
  revert d. induction pairs as [|[n x] pairs IH]; intros d Hin; simpl.
  - reflexivity.
  - assert (Hk : Dict.keys (Dict.set n x d) = Dict.keys d)
      by (apply Dict_keys_set_in; apply Hin; simpl; auto).
    rewrite IH; [exact Hk|].
    intros k Hk'. rewrite Hk. apply Hin. simpl. auto.
Qed.

(** [generate_parameter_combinations] once the axes have no repeated name:
    one assignment per element of the product, also when there is no
    axis. *)
Lemma generate_spec (axes : Dict.t (list PyVal)) (base : Dict.t PyVal) :
  NoDup (Dict.keys axes) ->
  Sweep.generate_parameter_combinations (Sweep.mkSweepState axes base)
  = map (fun choice => Sweep.assign (combine (Dict.keys axes) choice) base)
      (Sweep.product (map snd axes)).
Proof.
  intros Hnd. unfold Sweep.generate_parameter_combinations.
  cbn [Sweep.sweep_parameters Sweep.base_parameters].
  destruct axes as [|ax axes'] eqn:E.
  - reflexivity.
  - rewrite <- E in *. now rewrite Dict_values_by_key.
Qed.

(** C2. For a parameter set whose sweep parameters, in declaration order,
    have n1, ..., nk alternatives, detection followed by expansion returns
    exactly n1 * ... * nk configurations; read at the sweep parameters, they
    are the elements of the Cartesian product of the alternatives, in the
    order of [itertools.product] over the axes in declaration order; every
    parameter that is not swept has, in each configuration, the value it
    has in the parameter set; and each configuration has the same keys as
    the parameter set. *)
Theorem expansion_is_cartesian_product (current_params : Dict.t PyVal)
  (st0 : Sweep.SweepState) :
  NoDup (Dict.keys current_params) ->
  let axes := sweep_axes current_params in
  let configurations := expand current_params st0 in
  List.length configurations
  = fold_right Nat.mul 1 (map (fun ax => List.length (snd ax)) axes)
  /\ map (fun c => map (fun k => Dict.get k c) (Dict.keys axes)) configurations
     = map (map Some) (Sweep.product (map snd axes))
  /\ (forall c k v,
        In c configurations ->
        Dict.get k current_params = Some v -> is_sweep v = false ->
        Dict.get k c = Some v)
  /\ (forall c, In c configurations -> Dict.keys c = Dict.keys current_params).
Proof.
  intros Hnd. cbv zeta. unfold Sweep.expand.
  rewrite detect_sweep_parameters_spec by assumption. cbn [snd].
  pose proof (sweep_axes_NoDup current_params Hnd) as Hax.
  rewrite generate_spec by assumption.
  split; [|split; [|split]].
  - rewrite length_map, product_length, map_map. reflexivity.
  - rewrite map_map. apply map_ext_in. intros choice Hin.
    apply assign_get; [assumption|].
    rewrite (product_element_length _ _ Hin). unfold Dict.keys.
    now rewrite !length_map.
  - intros c k v Hc Hget Hns. apply in_map_iff in Hc as [choice [<- Hin]].
    rewrite assign_get_other.
    + rewrite base_of_get, Hget. simpl. now rewrite Hns.
    + intros H. apply combine_fst_incl in H.
      apply sweep_axes_key_is_sweep in H as [v' [Hin' Hs]].
      rewrite (Dict_get_in k v' current_params Hnd Hin') in Hget. congruence.
  - intros c Hc. apply in_map_iff in Hc as [choice [<- Hin]].
    rewrite assign_keys; [apply base_of_keys|].
    intros k H. apply combine_fst_incl in H. rewrite base_of_keys.
    now apply sweep_axes_keys_incl.
Qed.

(** C9. The token-conversion helper never raises: it returns the number a
    token reads as, or the token itself when [int] or [float] rejects it.
    Hence, for a value whose text contains a comma, the [try] of the
    detection loop always succeeds: the parameter is recorded as a sweep
    over one alternative per token, a rejected token being kept as its
    trimmed text, the base value becomes the first alternative and not the
    whole field, and detection as a whole returns without raising. *)
Theorem sweep_tokens_kept (param_name : string) (value : PyVal)
  (st : Sweep.SweepState) :
  is_sweep value = true ->
  (forall s, exists v,
      _convert_to_number s = Ret v
      /\ (v = VStr s \/ (exists z, v = VInt z) \/ (exists f, v = VFloat f)))
  /\ (let st' := snd (detect_item (param_name, value) st) in
      fst (detect_item (param_name, value) st) = Ret tt
      /\ Dict.get param_name (Sweep.sweep_parameters st')
         = Some (alternatives value)
      /\ Dict.get param_name (Sweep.base_parameters st')
         = Some (hd value (alternatives value))
      /\ exists first rest, alternatives value = first :: rest)
  /\ (forall i token,
        nth_error (PyStr.split "," (str value)) i = Some token ->
        int_of_str (PyStr.strip token) = None ->
        float_of_str (PyStr.strip token) = None ->
        nth_error (alternatives value) i = Some (VStr (PyStr.strip token)))
  /\ List.length (alternatives value)
     = List.length (PyStr.split "," (str value))
  /\ (forall current_params st0,
        exists is_sweep_run,
          fst (detect_sweep_parameters current_params st0) = Ret is_sweep_run).
Proof.
  intros Hs. split; [|split; [|split; [|split]]].
  - apply convert_to_number_never_raises.
  - cbv zeta. rewrite detect_item_sweep by assumption. cbn [fst snd].
    cbn [Sweep.sweep_parameters Sweep.base_parameters].
    rewrite !Dict_get_set_same. repeat split.
    destruct (alternatives value) as [|v0 vs] eqn:E.
    + now apply alternatives_not_nil in E.
    + eauto.
  - intros i token Hi Hint Hfloat. unfold Sweep.alternatives.
    rewrite nth_error_map, Hi. simpl. unfold Sweep.token_value.
    rewrite Hint, Hfloat. now destruct (PyStr.contains_char "." _).
  - unfold Sweep.alternatives. apply length_map.
  - intros current_params st0.
    unfold Sweep.detect_sweep_parameters, Py.bind, Py.modify.
    pose proof (detect_loop_returns current_params (Sweep.mkSweepState [] []))
      as H.
    destruct (Py.for_each current_params detect_item _) as [o st'].
    simpl in H. subst o. unfold Py.get, Py.ret. simpl. eauto.
Qed.

End SweepFacts.

Lemma expansion_is_cartesian_product_witness :
  List.length
    (Sweep.expand Examples.decimal_int (fun _ => None) (fun _ => "3.0")
       Examples.example_params (Sweep.mkSweepState [] [])) = 2.
Proof.
  refine (proj1 (expansion_is_cartesian_product Examples.decimal_int (fun _ => None)
                   (fun _ => "3.0") Examples.example_params (Sweep.mkSweepState [] [])
                   _)).
  repeat constructor; simpl; intuition discriminate.
Defined.

(** A sweep with a token that is not a number: ["2, fast"] is swept over
    the number 2 and the text ["fast"]. *)
Lemma sweep_tokens_kept_witness :
  Dict.get "mode"
    (Sweep.sweep_parameters
       (snd (Sweep.detect_item Examples.decimal_int (fun _ => None) (fun _ => "3.0")
               ("mode", VStr "2, fast") (Sweep.mkSweepState [] []))))
  = Some [VInt 2; VStr "fast"].
Proof.
  destruct (sweep_tokens_kept Examples.decimal_int (fun _ => None) (fun _ => "3.0")
              "mode" (VStr "2, fast") (Sweep.mkSweepState [] []) eq_refl)
    as (_ & (_ & H & _) & _).
  exact H.
Defined.

(* --------------------------------------------------------------------- *)
(** ** Rounding to the doubles                                            *)
(* --------------------------------------------------------------------- *)

(** [int((current_step / sim_time) * 100)] rounds twice and truncates once.
    Each of the three steps keeps the order of its arguments: this is
    proved here from the definitions of the specification of binary64
    ([binary_round_aux], [SFdiv], [SFmul]). *)
Section RoundingFacts.

Import Rounding.

Local Open Scope Z_scope.

Local Abbreviation fexp := (SpecFloat.fexp prec emax).



Lemma digits2_pos_log2 (p : positive) :
  Zpos (digits2_pos p) = Z.log2 (Zpos p) + 1.
Proof.
  induction p as [p IH|p IH|]; cbn [digits2_pos]; [| |reflexivity].
  - rewrite Pos2Z.inj_succ, IH. cbn [Z.log2].
    destruct p; cbn; lia.
  - rewrite Pos2Z.inj_succ, IH. cbn [Z.log2].
    destruct p; cbn; lia.
Qed.

Lemma Zdigits2_bounds (m : Z) :
  0 < m -> 2 ^ (Zdigits2 m - 1) <= m < 2 ^ Zdigits2 m.
Proof.
  intros H. destruct m as [|p|p]; try lia.
  cbn [Zdigits2]. rewrite digits2_pos_log2.
  replace (Z.log2 (Zpos p) + 1 - 1) with (Z.log2 (Zpos p)) by lia.
  replace (Z.log2 (Zpos p) + 1) with (Z.succ (Z.log2 (Zpos p))) by lia.
  apply Z.log2_spec. lia.
Qed.

Lemma Zdigits2_pos (m : Z) : 0 < m -> 0 < Zdigits2 m.
Proof. destruct m; cbn; lia. Qed.

Lemma Zdigits2_unique (m d : Z) :
  0 < m -> 2 ^ (d - 1) <= m < 2 ^ d -> Zdigits2 m = d.
Proof.
  intros Hm H. destruct m as [|p|p]; try lia.
  cbn [Zdigits2]. rewrite digits2_pos_log2.
  assert (Hd : 0 < d).
  { destruct (Z.ltb_spec 0 d); [assumption|].
    rewrite (Z.pow_neg_r 2 (d - 1)) in H by lia.
    destruct (Z.eqb_spec d 0) as [->|]; [cbn in H; lia|].
    rewrite (Z.pow_neg_r 2 d) in H by lia. lia. }
  rewrite (Z.log2_unique (Zpos p) (d - 1)); [lia|lia|].
  replace (Z.succ (d - 1)) with d by lia. exact H.
Qed.

Ltac cmp_cases :=
  repeat match goal with
         | |- context [?a =? ?b] => destruct (Z.eqb_spec a b)
         | |- context [?a ?= ?b] => destruct (Z.compare_spec a b)
         end;
  cbn [negb]; try reflexivity; try lia.

(** One shift to the right keeps the record in step with the division. *)
Lemma shr_1_holds (mrs : shr_record) (X Y : Z) :
  0 <= X -> 0 < Y -> holds mrs X Y -> holds (shr_1 mrs) X (2 * Y).
Proof.
  intros HX HY [Hm Hl].
  assert (HR : 0 <= X mod Y < Y) by (apply Z.mod_pos_bound; lia).
  assert (Hq : 0 <= X / Y) by (apply Z.div_pos; lia).
  assert (HXe : X = Y * (X / Y) + X mod Y) by (apply Z.div_mod; lia).
  assert (Hdiv : X / (2 * Y) = (X / Y) / 2).
  { rewrite (Z.mul_comm 2 Y), Z.div_div by lia. reflexivity. }
  assert (Hmod : X mod (2 * Y) = ((X / Y) mod 2) * Y + X mod Y).
  { rewrite (Z.mul_comm 2 Y), Z.rem_mul_r by lia. lia. }
  assert (Hm2 : 0 <= (X / Y) mod 2 < 2) by (apply Z.mod_pos_bound; lia).
  assert (Hqe : X / Y = 2 * ((X / Y) / 2) + (X / Y) mod 2)
    by (apply Z.div_mod; lia).
  destruct mrs as [m r s]. cbn [shr_m] in Hm.
  unfold holds. rewrite Hdiv, Hmod. unfold loc_of in *.
  set (q := X / Y) in *. set (R := X mod Y) in *.
  assert (Hrs : orb r s = negb (R =? 0)).
  { destruct r, s, (R =? 0); cbn in Hl |- *; congruence. }
  destruct m as [|[p|p|]|[p|p|]]; cbn [shr_1 shr_m loc_of_shr_record];
    rewrite Hrs; try lia.
  - assert (q / 2 = 0 /\ q mod 2 = 0) as [-> ->] by (split; lia).
    split; [reflexivity|]. cmp_cases.
  - assert (q / 2 = Zpos p /\ q mod 2 = 1) as [-> ->] by (split; lia).
    split; [reflexivity|]. cmp_cases.
  - assert (q / 2 = Zpos p /\ q mod 2 = 0) as [-> ->] by (split; lia).
    split; [reflexivity|]. cmp_cases.
  - assert (q / 2 = 0 /\ q mod 2 = 1) as [-> ->] by (split; lia).
    split; [reflexivity|]. cmp_cases.
Qed.

Lemma iter_shr_1_holds (n : positive) (mrs : shr_record) (X Y : Z) :
  0 <= X -> 0 < Y -> holds mrs X Y ->
  holds (iter_pos shr_1 n mrs) X (2 ^ Zpos n * Y).
Proof.
  intros HX. revert mrs Y.
  induction n as [n IH|n IH|]; intros mrs Y HY H; cbn [iter_pos].
  - replace (2 ^ Zpos n~1 * Y) with (2 ^ Zpos n * (2 ^ Zpos n * (2 * Y))).
    + apply IH; [lia|]. apply IH; [lia|]. now apply shr_1_holds.
    + replace (Zpos n~1) with (Zpos n + Zpos n + 1) by lia.
      rewrite !Z.pow_add_r by lia. change (2 ^ 1) with 2. ring.
  - replace (2 ^ Zpos n~0 * Y) with (2 ^ Zpos n * (2 ^ Zpos n * Y)).
    + apply IH; [lia|]. now apply IH.
    + replace (Zpos n~0) with (Zpos n + Zpos n) by lia.
      rewrite !Z.pow_add_r by lia. ring.
  - change (2 ^ 1) with 2. now apply shr_1_holds.
Qed.

Lemma shr_holds (mrs : shr_record) (e n X Y : Z) :
  0 <= X -> 0 < Y -> 0 <= n -> holds mrs X Y ->
  holds (fst (shr mrs e n)) X (2 ^ n * Y) /\ snd (shr mrs e n) = e + n.
Proof.
  intros HX HY Hn H. destruct n as [|p|p]; cbn [shr fst snd]; try lia.
  - split; [|lia]. now rewrite Z.pow_0_r, Z.mul_1_l.
  - split; [|reflexivity]. now apply iter_shr_1_holds.
Qed.

Lemma shr_none (mrs : shr_record) (e n : Z) : n <= 0 -> shr mrs e n = (mrs, e).
Proof. destruct n; cbn; intros; try reflexivity; lia. Qed.

Lemma record_of_loc (m : Z) (l : location) :
  shr_m (shr_record_of_loc m l) = m
  /\ loc_of_shr_record (shr_record_of_loc m l) = l.
Proof. destruct l as [|[]]; split; reflexivity. Qed.

Lemma fexp_eq (e : Z) : fexp e = Z.max (e - 53) (-1074).
Proof. reflexivity. Qed.

Lemma rnd_bounds (X Y : Z) : X / Y <= rnd X Y <= X / Y + 1.
Proof.
  unfold rnd, round_nearest_even.
  destruct (loc_of _ _) as [|[]]; try destruct (Z.even _); lia.
Qed.

Lemma div_le_cross (X1 Y1 X2 Y2 : Z) :
  0 < Y1 -> 0 < Y2 -> X1 * Y2 <= X2 * Y1 -> X1 / Y1 <= X2 / Y2.
Proof.
  intros H1 H2 H.
  assert (E1 : X1 = Y1 * (X1 / Y1) + X1 mod Y1) by (apply Z.div_mod; lia).
  assert (E2 : X2 = Y2 * (X2 / Y2) + X2 mod Y2) by (apply Z.div_mod; lia).
  assert (R1 : 0 <= X1 mod Y1 < Y1) by (apply Z.mod_pos_bound; lia).
  assert (R2 : 0 <= X2 mod Y2 < Y2) by (apply Z.mod_pos_bound; lia).
  set (q1 := X1 / Y1) in *. set (q2 := X2 / Y2) in *.
  set (r1 := X1 mod Y1) in *. set (r2 := X2 mod Y2) in *.
  destruct (Z.le_gt_cases q1 q2) as [|Hlt]; [assumption|exfalso].
  assert (q2 + 1 <= q1) by lia.
  assert ((q2 + 1) * (Y1 * Y2) <= q1 * (Y1 * Y2)) by (apply Z.mul_le_mono_nonneg_r; nia).
  nia.
Qed.

Lemma rnd_mono (X1 Y1 X2 Y2 : Z) :
  0 < Y1 -> 0 < Y2 -> X1 * Y2 <= X2 * Y1 -> rnd X1 Y1 <= rnd X2 Y2.
Proof.
  intros H1 H2 H.
  pose proof (div_le_cross _ _ _ _ H1 H2 H) as Hq.
  pose proof (rnd_bounds X1 Y1) as B1. pose proof (rnd_bounds X2 Y2) as B2.
  destruct (Z.eq_dec (X1 / Y1) (X2 / Y2)) as [Heq|]; [|lia].
  assert (E1 : X1 = Y1 * (X1 / Y1) + X1 mod Y1) by (apply Z.div_mod; lia).
  assert (E2 : X2 = Y2 * (X2 / Y2) + X2 mod Y2) by (apply Z.div_mod; lia).
  assert (R1 : 0 <= X1 mod Y1 < Y1) by (apply Z.mod_pos_bound; lia).
  assert (R2 : 0 <= X2 mod Y2 < Y2) by (apply Z.mod_pos_bound; lia).
  unfold rnd in *. rewrite <- Heq in *.
  set (q := X1 / Y1) in *.
  set (r1 := X1 mod Y1) in *. set (r2 := X2 mod Y2) in *.
  assert (Hr : r1 * Y2 <= r2 * Y1) by nia.
  unfold loc_of, round_nearest_even.
  destruct (Z.eqb_spec r1 0), (Z.eqb_spec r2 0);
    repeat match goal with
           | |- context [?a ?= ?b] => destruct (Z.compare_spec a b)
           end;
    destruct (Z.even q); try lia; exfalso; nia.
Qed.

Lemma pow2_pos (k : Z) : 0 <= k -> 0 < 2 ^ k.
Proof. intros. apply Z.pow_pos_nonneg; lia. Qed.

Lemma pow2_ge_2 (k : Z) : 1 <= k -> 2 <= 2 ^ k.
Proof.
  intros. change 2 with (2 ^ 1) at 1. apply Z.pow_le_mono_r; lia.
Qed.

Lemma pow2_lt_inv (a b : Z) : 0 <= b -> 2 ^ a < 2 ^ b -> a < b.
Proof. intros Hb H. apply (Z.pow_lt_mono_r_iff 2); lia. Qed.

Lemma binary_round_aux_finish (s : bool) (m e : Z) (l : location) :
  binary_round_aux prec emax s m e l
  = finish s (round_nearest_even (shr_m (fst (shr_fexp prec emax m e l)))
                (loc_of_shr_record (fst (shr_fexp prec emax m e l))))
      (snd (shr_fexp prec emax m e l)).
Proof.
  unfold binary_round_aux, finish.
  destruct (shr_fexp prec emax m e l) as [mrs' e']. reflexivity.
Qed.

Lemma binary_round_aux_spec (s : bool) (X Y e : Z) :
  0 <= X -> 0 < Y -> e <= fexp (Zdigits2 (X / Y) + e) ->
  binary_round_aux prec emax s (X / Y) e (loc_of (X mod Y) Y) = rounded s X Y e.
Proof.
  intros HX HY He. rewrite binary_round_aux_finish. unfold rounded, shr_fexp.
  set (E := fexp (Zdigits2 (X / Y) + e)) in *.
  destruct (record_of_loc (X / Y) (loc_of (X mod Y) Y)) as [Hm Hl].
  destruct (shr_holds (shr_record_of_loc (X / Y) (loc_of (X mod Y) Y)) e (E - e) X Y)
    as [[H1 H2] H3]; try lia.
  { split; assumption. }
  rewrite H1, H2, H3. unfold rnd. f_equal. lia.
Qed.

Lemma shifted_range (X Y e : Z) :
  0 <= X -> 0 < Y ->
  let E := fexp (Zdigits2 (X / Y) + e) in
  e <= E ->
  0 <= X / (2 ^ (E - e) * Y) < 2 ^ 53
  /\ (-1074 < E -> 2 ^ 52 <= X / (2 ^ (E - e) * Y)).
Proof.
  intros HX HY E He.
  assert (Hp : 0 < 2 ^ (E - e)) by (apply pow2_pos; lia).
  assert (Hq : 0 <= X / Y) by (apply Z.div_pos; lia).
  rewrite (Z.mul_comm _ Y), <- Z.div_div by lia.
  unfold E in *. rewrite fexp_eq in *. clear E.
  set (m := X / Y) in *.
  destruct (Z.eq_dec m 0) as [Hm0|Hm0].
  - rewrite Hm0 in *. cbn [Zdigits2] in *. rewrite Z.div_0_l by lia.
    repeat split; try lia.
  - pose proof (Zdigits2_bounds m ltac:(lia)) as Hd.
    pose proof (Zdigits2_pos m ltac:(lia)) as Hd0.
    set (d := Zdigits2 m) in *.
    set (n := Z.max (d + e - 53) (-1074) - e) in *.
    repeat split.
    + apply Z.div_pos; lia.
    + apply Z.div_lt_upper_bound; [lia|].
      rewrite <- Z.pow_add_r by lia.
      apply Z.lt_le_trans with (2 ^ d); [lia|].
      apply Z.pow_le_mono_r; lia.
    + intros HE. apply Z.div_le_lower_bound; [lia|].
      rewrite <- Z.pow_add_r by lia.
      apply Z.le_trans with (2 ^ (d - 1)); [|lia].
      apply Z.pow_le_mono_r; lia.
Qed.

Lemma rounded_range (X Y e : Z) :
  0 <= X -> 0 < Y ->
  let E := fexp (Zdigits2 (X / Y) + e) in
  e <= E ->
  0 <= rnd X (2 ^ (E - e) * Y) <= 2 ^ 53
  /\ (-1074 < E -> 2 ^ 52 <= rnd X (2 ^ (E - e) * Y))
  /\ -1074 <= E.
Proof.
  intros HX HY E He.
  destruct (shifted_range X Y e HX HY He) as [H1 H2]. fold E in H1, H2.
  pose proof (rnd_bounds X (2 ^ (E - e) * Y)) as B.
  split; [lia|split].
  - intros HE. specialize (H2 HE). lia.
  - unfold E. rewrite fexp_eq. lia.
Qed.

Lemma finish_zero (s : bool) (E : Z) : -1074 <= E -> finish s 0 E = S754_zero s.
Proof.
  intros HE. unfold finish, shr_fexp. cbn [Zdigits2].
  rewrite shr_none by (rewrite fexp_eq; lia). reflexivity.
Qed.

Lemma finish_carry (s : bool) (E : Z) :
  -1074 <= E ->
  finish s (2 ^ 53) E
  = if E + 1 <=? 971 then S754_finite s (2 ^ 52) (E + 1) else S754_infinity s.
Proof.
  intros HE. unfold finish, shr_fexp.
  change (Zdigits2 (2 ^ 53)) with 54.
  replace (fexp (54 + E) - E) with 1 by (rewrite fexp_eq; lia).
  reflexivity.
Qed.

Lemma finish_plain (s : bool) (m E : Z) :
  -1074 <= E -> 0 < m < 2 ^ 53 -> (-1074 < E -> 2 ^ 52 <= m) ->
  finish s m E
  = if E <=? 971 then S754_finite s (Z.to_pos m) E else S754_infinity s.
Proof.
  intros HE Hm Hn. unfold finish, shr_fexp.
  pose proof (Zdigits2_bounds m ltac:(lia)) as Hd.
  pose proof (Zdigits2_pos m ltac:(lia)) as Hd0.
  assert (Hd53 : Zdigits2 m <= 53).
  { assert (Zdigits2 m - 1 < 53); [|lia]. apply pow2_lt_inv; lia. }
  assert (Hfe : fexp (Zdigits2 m + E) - E <= 0).
  { rewrite fexp_eq.
    destruct (Z.eq_dec E (-1074)) as [->|]; [lia|].
    rewrite (Zdigits2_unique m 53); [lia|lia|].
    change (53 - 1) with 52. split; [apply Hn|]; lia. }
  rewrite shr_none by assumption.
  destruct m as [|p|p]; try lia.
  cbn [shr_record_of_loc shr_m]. reflexivity.
Qed.

Lemma vle_aligned (m1 e1 m2 e2 : Z) :
  0 <= m2 -> e1 <= e2 -> (e1 = e2 -> m1 <= m2) -> (e1 < e2 -> m1 <= 2 * m2) ->
  vle m1 1 e1 m2 1 e2.
Proof.
  intros H0 He Heq Hlt. unfold vle.
  rewrite Z.min_l by lia. rewrite Z.sub_diag, Z.pow_0_r, !Z.mul_1_r.
  destruct (Z.eq_dec e1 e2) as [->|Hne].
  - rewrite Z.sub_diag, Z.pow_0_r. lia.
  - pose proof (pow2_ge_2 (e2 - e1) ltac:(lia)). nia.
Qed.

Ltac finish_cases m E :=
  destruct (Z.eq_dec m 0) as [?|?];
  [subst m; rewrite (finish_zero _ E) by lia
  |destruct (Z.eq_dec m (2 ^ 53)) as [?|?];
   [subst m; rewrite (finish_carry _ E) by lia
   |rewrite (finish_plain _ m E) by lia]].

Lemma finish_mono (m1 E1 m2 E2 : Z) :
  in_range m1 E1 -> in_range m2 E2 ->
  E1 <= E2 -> (E1 = E2 -> m1 <= m2) ->
  SFle (finish false m1 E1) (finish false m2 E2).
Proof.
  intros (R1 & N1 & L1) (R2 & N2 & L2) HE Hm.
  assert (P53 : 2 ^ 53 = 9007199254740992) by reflexivity.
  assert (P52 : 2 ^ 52 = 4503599627370496) by reflexivity.
  finish_cases m1 E1; finish_cases m2 E2;
    repeat match goal with
           | |- context [?a <=? ?b] => destruct (Z.leb_spec a b)
           end;
    cbn [SFle]; try exact I; try lia;
    rewrite ?Z2Pos.id by lia;
    try (change (Z.pos (2 ^ 52)) with (2 ^ 52));
    apply vle_aligned; lia.
Qed.



Lemma rounded_in_range (X Y e : Z) :
  0 <= X -> 0 < Y -> e <= fexp (Zdigits2 (X / Y) + e) ->
  in_range (rnd X (2 ^ (fexp (Zdigits2 (X / Y) + e) - e) * Y))
    (fexp (Zdigits2 (X / Y) + e)).
Proof. intros HX HY He. exact (rounded_range X Y e HX HY He). Qed.



Lemma vle_common (X1 Y1 e1 X2 Y2 e2 E : Z) :
  vle X1 Y1 e1 X2 Y2 e2 -> e1 <= E -> e2 <= E ->
  X1 * (2 ^ (E - e2) * Y2) <= X2 * (2 ^ (E - e1) * Y1).
Proof.
  unfold vle. intros H H1 H2.
  replace (E - e2) with ((E - Z.max e1 e2) + (e1 - Z.min e1 e2)) by lia.
  replace (E - e1) with ((E - Z.max e1 e2) + (e2 - Z.min e1 e2)) by lia.
  rewrite !Z.pow_add_r by lia.
  pose proof (pow2_pos (E - Z.max e1 e2) ltac:(lia)) as Hc.
  set (c := 2 ^ (E - Z.max e1 e2)) in *.
  set (a := 2 ^ (e1 - Z.min e1 e2)) in *.
  set (b := 2 ^ (e2 - Z.min e1 e2)) in *.
  replace (X1 * (c * a * Y2)) with (c * (X1 * Y2 * a)) by ring.
  replace (X2 * (c * b * Y1)) with (c * (X2 * Y1 * b)) by ring.
  apply Z.mul_le_mono_nonneg_l; lia.
Qed.

Lemma quotient_upper (X Y : Z) : 0 <= X -> 0 < Y -> X < 2 ^ Zdigits2 (X / Y) * Y.
Proof.
  intros HX HY.
  assert (E : X = Y * (X / Y) + X mod Y) by (apply Z.div_mod; lia).
  assert (R : 0 <= X mod Y < Y) by (apply Z.mod_pos_bound; lia).
  assert (Hq : 0 <= X / Y) by (apply Z.div_pos; lia).
  assert (H : X / Y + 1 <= 2 ^ Zdigits2 (X / Y)).
  { destruct (Z.eq_dec (X / Y) 0) as [->|]; [cbn; lia|].
    pose proof (Zdigits2_bounds (X / Y) ltac:(lia)). lia. }
  nia.
Qed.

Lemma quotient_lower (X Y : Z) :
  0 <= X -> 0 < Y -> 0 < X / Y -> 2 ^ (Zdigits2 (X / Y) - 1) * Y <= X.
Proof.
  intros HX HY Hq.
  assert (E : X = Y * (X / Y) + X mod Y) by (apply Z.div_mod; lia).
  assert (R : 0 <= X mod Y < Y) by (apply Z.mod_pos_bound; lia).
  pose proof (Zdigits2_bounds (X / Y) Hq). nia.
Qed.

Lemma target_exp_mono (X1 Y1 e1 X2 Y2 e2 : Z) :
  0 <= X1 -> 0 < Y1 -> 0 <= X2 -> 0 < Y2 ->
  e1 <= fexp (Zdigits2 (X1 / Y1) + e1) ->
  vle X1 Y1 e1 X2 Y2 e2 ->
  fexp (Zdigits2 (X1 / Y1) + e1) <= fexp (Zdigits2 (X2 / Y2) + e2).
Proof.
  intros HX1 HY1 HX2 HY2 He1 H.
  assert (Hq1 : 0 <= X1 / Y1) by (apply Z.div_pos; lia).
  assert (Hq2 : 0 <= X2 / Y2) by (apply Z.div_pos; lia).
  assert (Hd2 : 0 <= Zdigits2 (X2 / Y2)).
  { destruct (X2 / Y2); cbn; lia. }
  destruct (Z.eq_dec (X1 / Y1) 0) as [H0|H0].
  - rewrite H0 in *. cbn [Zdigits2] in *. rewrite !fexp_eq in *. lia.
  - pose proof (quotient_lower X1 Y1 HX1 HY1 ltac:(lia)) as L1.
    pose proof (quotient_upper X2 Y2 HX2 HY2) as U2.
    pose proof (Zdigits2_pos (X1 / Y1) ltac:(lia)) as Hd1.
    set (d1 := Zdigits2 (X1 / Y1)) in *. set (d2 := Zdigits2 (X2 / Y2)) in *.
    unfold vle in H.
    pose proof (pow2_pos (e1 - Z.min e1 e2) ltac:(lia)) as Ha.
    pose proof (pow2_pos (e2 - Z.min e1 e2) ltac:(lia)) as Hb.
    assert (Hlt : 2 ^ (d1 - 1 + (e1 - Z.min e1 e2)) < 2 ^ (d2 + (e2 - Z.min e1 e2))).
    { rewrite !Z.pow_add_r by lia.
      set (a := 2 ^ (e1 - Z.min e1 e2)) in *.
      set (b := 2 ^ (e2 - Z.min e1 e2)) in *.
      set (P := 2 ^ (d1 - 1)) in *. set (Q := 2 ^ d2) in *.
      assert (S1 : P * Y1 * (Y2 * a) <= X1 * (Y2 * a))
        by (apply Z.mul_le_mono_nonneg_r; nia).
      assert (S2 : X2 * (Y1 * b) < Q * Y2 * (Y1 * b))
        by (apply Z.mul_lt_mono_pos_r; nia).
      assert (S3 : (P * a) * (Y1 * Y2) < (Q * b) * (Y1 * Y2)) by nia.
      apply Z.mul_lt_mono_pos_r in S3; nia. }
    apply pow2_lt_inv in Hlt; [|lia].
    rewrite !fexp_eq. lia.
Qed.

Lemma rounded_mono (X1 Y1 e1 X2 Y2 e2 : Z) :
  0 <= X1 -> 0 < Y1 -> 0 <= X2 -> 0 < Y2 ->
  e1 <= fexp (Zdigits2 (X1 / Y1) + e1) ->
  e2 <= fexp (Zdigits2 (X2 / Y2) + e2) ->
  vle X1 Y1 e1 X2 Y2 e2 ->
  SFle (rounded false X1 Y1 e1) (rounded false X2 Y2 e2).
Proof.
  intros HX1 HY1 HX2 HY2 He1 He2 H. unfold rounded.
  apply finish_mono.
  - now apply rounded_in_range.
  - now apply rounded_in_range.
  - now apply target_exp_mono.
  - intros Heq. rewrite <- Heq.
    set (E := fexp (Zdigits2 (X1 / Y1) + e1)) in *.
    apply rnd_mono.
    + apply Z.mul_pos_pos; [apply pow2_pos|]; lia.
    + apply Z.mul_pos_pos; [apply pow2_pos|]; lia.
    + apply vle_common; [assumption|lia|lia].
Qed.

Lemma vle_intro (X1 Y1 e1 X2 Y2 e2 k : Z) :
  k <= e1 -> k <= e2 ->
  X1 * Y2 * 2 ^ (e1 - k) <= X2 * Y1 * 2 ^ (e2 - k) ->
  vle X1 Y1 e1 X2 Y2 e2.
Proof.
  intros H1 H2 H. unfold vle.
  replace (e1 - k) with ((e1 - Z.min e1 e2) + (Z.min e1 e2 - k)) in H by lia.
  replace (e2 - k) with ((e2 - Z.min e1 e2) + (Z.min e1 e2 - k)) in H by lia.
  rewrite !Z.pow_add_r, !Z.mul_assoc in H by lia.
  apply Z.mul_le_mono_pos_r in H; [exact H|]. apply pow2_pos. lia.
Qed.



Lemma binary_round_aux_exact (s : bool) (m e : Z) :
  0 <= m -> e <= fexp (Zdigits2 m + e) ->
  binary_round_aux prec emax s m e loc_Exact = rounded s m 1 e.
Proof.
  intros Hm He.
  pose proof (binary_round_aux_spec s m 1 e Hm ltac:(lia)) as H.
  rewrite Z.div_1_r, Z.mod_1_r in H. apply H. exact He.
Qed.

Lemma pos_iter_xO (p d : positive) :
  Zpos (Pos.iter xO p d) = Zpos p * 2 ^ Zpos d.
Proof.
  induction d as [|d IH] using Pos.peano_ind.
  - cbn [Pos.iter]. lia.
  - rewrite Pos.iter_succ, Pos2Z.inj_succ, Z.pow_succ_r by lia.
    rewrite Pos2Z.inj_xO, IH. ring.
Qed.

Lemma digits_shift (m k : Z) :
  0 < m -> 0 <= k -> Zdigits2 (m * 2 ^ k) = Zdigits2 m + k.
Proof.
  intros Hm Hk.
  pose proof (Zdigits2_bounds m Hm) as Hd.
  pose proof (Zdigits2_pos m Hm) as Hd0.
  pose proof (pow2_pos k Hk) as Hp.
  apply Zdigits2_unique; [nia|].
  replace (Zdigits2 m + k - 1) with ((Zdigits2 m - 1) + k) by lia.
  rewrite !Z.pow_add_r by lia. nia.
Qed.

(** [float(c)] for a positive [int]: the rounding of [c] itself. *)
Lemma round_pos_rounded (p : positive) :
  let z := Z.min 0 (fexp (Zdigits2 (Zpos p))) in
  binary_normalize prec emax (Zpos p) 0 false
  = rounded false (Zpos p * 2 ^ (- z)) 1 z
  /\ z <= fexp (Zdigits2 (Zpos p * 2 ^ (- z) / 1) + z).
Proof.
  intros z.
  assert (Hc : z <= fexp (Zdigits2 (Zpos p * 2 ^ (- z)) + z)).
  { rewrite digits_shift by lia.
    replace (Zdigits2 (Zpos p) + - z + z) with (Zdigits2 (Zpos p)) by lia.
    unfold z. lia. }
  split; [|rewrite Z.div_1_r; exact Hc].
  rewrite <- binary_round_aux_exact; [|apply Z.mul_nonneg_nonneg;
    [lia|apply Z.lt_le_incl, pow2_pos; lia]|exact Hc].
  unfold binary_normalize, binary_round, shl_align.
  rewrite Z.add_0_r, Z.sub_0_r.
  change (Zpos (digits2_pos p)) with (Zdigits2 (Zpos p)).
  unfold z. clear Hc z.
  destruct (fexp (Zdigits2 (Zpos p))) as [|f|f] eqn:Hf.
  - rewrite Z.min_l by lia. cbn [Z.opp]. rewrite Z.pow_0_r, Z.mul_1_r. reflexivity.
  - rewrite Z.min_l by lia. cbn [Z.opp]. rewrite Z.pow_0_r, Z.mul_1_r. reflexivity.
  - rewrite Z.min_r by lia. cbn [Z.opp]. rewrite pos_iter_xO. reflexivity.
Qed.

(** The integers round to doubles in their order. *)
Lemma round_pos_mono (p1 p2 : positive) :
  (p1 <= p2)%positive ->
  SFle (binary_normalize prec emax (Zpos p1) 0 false)
    (binary_normalize prec emax (Zpos p2) 0 false).
Proof.
  intros Hle.
  destruct (round_pos_rounded p1) as [E1 C1].
  destruct (round_pos_rounded p2) as [E2 C2].
  cbv zeta in *. rewrite E1, E2.
  set (z1 := Z.min 0 (fexp (Zdigits2 (Zpos p1)))) in *.
  set (z2 := Z.min 0 (fexp (Zdigits2 (Zpos p2)))) in *.
  assert (Hz1 : z1 <= 0) by (unfold z1; lia).
  assert (Hz2 : z2 <= 0) by (unfold z2; lia).
  pose proof (pow2_pos (- z1) ltac:(lia)). pose proof (pow2_pos (- z2) ltac:(lia)).
  apply rounded_mono; try first [lia | assumption].
  apply (vle_intro _ _ _ _ _ _ (Z.min z1 z2)); [lia|lia|].
  rewrite !Z.mul_1_r, <- !Z.mul_assoc, <- !Z.pow_add_r by lia.
  replace (- z1 + (z1 - Z.min z1 z2)) with (- Z.min z1 z2) by lia.
  replace (- z2 + (z2 - Z.min z1 z2)) with (- Z.min z1 z2) by lia.
  apply Z.mul_le_mono_nonneg_r; [|lia].
  apply Z.lt_le_incl, pow2_pos. lia.
Qed.





















(** *** Negative durations: the same magnitudes with the sign turned *)



Lemma SFle_shape (x y : spec_float) :
  SFle x y -> SFle (S754_zero false) x /\ SFle (S754_zero false) y.
Proof. destruct x as [|[]| |[]], y as [|[]| |[]]; cbn; tauto. Qed.







Lemma round_int_shape (c : Z) : 0 < c -> SFle (S754_zero false) (PyNum.round_int c).
Proof.
  intros Hc. destruct c as [|p|p]; try lia.
  destruct (SFle_shape _ _ (round_pos_mono p p ltac:(lia))) as [H _]. exact H.
Qed.


End RoundingFacts.

(* --------------------------------------------------------------------- *)
(** ** The per-run supervisor                                             *)
(* --------------------------------------------------------------------- *)

Section WorkerFacts.

Import Worker.

Local Open Scope Z_scope.

Variable int_of_str : string -> option Z.
Variable env : Env.

Local Abbreviation progress_pct := (Worker.progress_pct env).
Local Abbreviation poll := (Worker.poll int_of_str env).
Local Abbreviation monitor_loop := (Worker.monitor_loop int_of_str env).
Local Abbreviation run := (Worker.run int_of_str env).
Local Abbreviation run_signals := (Worker.run_signals int_of_str env).
Local Abbreviation monitor_events := (Worker.monitor_events int_of_str env).
Local Abbreviation run_polling := (Worker.run_polling int_of_str env).

Lemma add_signals_nil (w : World) : add_signals [] w = w.
Proof. destruct w. unfold add_signals. simpl. now rewrite app_nil_r. Qed.

Lemma add_signals_cons (sg : Signal) (sgs : list Signal) (w : World) :
  add_signals sgs (add_signals [sg] w) = add_signals (sg :: sgs) w.
Proof. unfold add_signals. simpl. now rewrite <- app_assoc. Qed.

Lemma monitor_loop_spec (steps : list Z) (last : Z) (w : World) :
  monitor_loop steps last w
  = (Ret tt, add_signals (monitor_events steps last) w).
Proof.
  revert last w. induction steps as [|c steps IH]; intros last w; simpl.
  - now rewrite add_signals_nil.
  - unfold Py.bind at 1. unfold Worker.poll, Py.try_except.
    destruct (last <? c).
    + unfold Py.bind, Py.lift, emit, Py.modify, Py.ret, on_Exception.
      destruct (progress_pct c) as [q|e]; [|apply IH].
      destruct (PyNum.int int_of_str (sim_time env)) as [total|e]; [|apply IH].
      rewrite IH. fold (add_signals [progress (Z.min 95 q) (MsgStep c total)] w).
      now rewrite add_signals_cons.
    + unfold Py.ret. apply IH.
Qed.









Ltac destruct_stuck :=
  match goal with
  | |- context [match ?x with _ => _ end] =>
      lazymatch x with
      | context [match _ with _ => _ end] => fail
      | _ => destruct x eqn:?
      end
  end.

Ltac eval_run :=
  cbv beta iota zeta delta
    [Worker.run_signals Worker.run run_body wait_for_exit _save_run_metadata
     _monitor_progress Py.try_finally Py.try_except Py.bind Py.lift Py.get
     Py.ret Py.raise emit set_temp_script set_stdout_log set_stderr_log
     add_signals set_process set_monitoring set_stdout set_stderr
     set_metadata_saved process_kill Py.modify on_Exception initial
     signals stdout_log stderr_log process kills temp_script monitoring stdout
     stderr metadata_saved fst snd close];
  cbn [app].

Ltac close_case :=
  repeat eexists; repeat split;
  first [ reflexivity | assumption ].

Ltac pick_case :=
  first [ solve [left; close_case]
        | solve [right; left; close_case]
        | solve [right; right; left; close_case]
        | solve [right; right; right; left; close_case]
        | solve [right; right; right; right; left; close_case]
        | solve [right; right; right; right; right; close_case] ].

Ltac run_to_end :=
  repeat (destruct_stuck; eval_run);
  try match goal with
      | H : (_ =? 0) = true |- _ => apply Z.eqb_eq in H; subst
      end;
  rewrite <- ?app_assoc; cbn [app];
  pick_case.

(** The ways a run can go, with the signals it emits and the state of the
    two log files when it ends: it fails before a log file is opened; it
    fails between the two [open] calls; it fails at [Popen]; the child was
    started and the run ends with [error]; the child was started and exited
    with code 0. *)
Lemma run_cases :
  let w := snd (run initial) in
  let p0 := progress 0 (MsgInitializing (exp_name env)) in
  let p5 := progress 5 MsgLaunching in
  let mon := monitor_events (latest_steps env) 0 in
  (exists f, stdout_log w = None /\ stderr_log w = None /\ process w = None
             /\ signals w = [p0; error f])
  \/ (exists f, stdout_log w = None /\ stderr_log w = None /\ process w = None
                /\ signals w = [p0; p5; error f])
  \/ (exists f, stdout_log w = Some Open /\ stderr_log w = None
                /\ process w = None
                /\ signals w = [p0; p5; error f])
  \/ (exists f, stdout_log w = Some Open /\ stderr_log w = Some Open
                /\ process w = None
                /\ signals w = [p0; p5; error f])
  \/ (exists pid f, stdout_log w = Some Closed /\ stderr_log w = Some Closed
        /\ process w = Some pid
        /\ signals w = [p0; p5; progress 10 (MsgRunning pid)] ++ mon ++ [error f])
  \/ (exists pid r, stdout_log w = Some Closed /\ stderr_log w = Some Closed
        /\ process w = Some pid
        /\ wait_result env = Ret 0
        /\ signals w = [p0; p5; progress 10 (MsgRunning pid)] ++ mon
                       ++ [progress 100 MsgCompleted; finished r]).
Proof.
  eval_run.
  destruct (create_script_result env) as [[]|e0]; eval_run; [|run_to_end].
  destruct (mkdir_exp_dir env) as [[]|e0]; eval_run; [|run_to_end].
  destruct (mkdir_logs_dir env) as [[]|e0]; eval_run; [|run_to_end].
  destruct (open_stdout_log env) as [[]|e0]; eval_run; [|run_to_end].
  destruct (open_stderr_log env) as [[]|e0]; eval_run; [|run_to_end].
  destruct (popen_result env) as [pid|e0]; eval_run; [|run_to_end].
  rewrite monitor_loop_spec. eval_run.
  destruct (wait_result env) as [exit_code|e0] eqn:Hwait; eval_run;
    run_to_end.
Qed.


(** The run while the child is alive: it has emitted the three stage marks
    and the signals of the passes the polling loop has made; or it failed
    before the loop, having emitted stage marks only. *)
Lemma run_polling_cases (steps : list Z) :
  let r := run_polling steps initial in
  (exists e, fst r = Raise e
     /\ (create_script_result env = Raise e \/ mkdir_exp_dir env = Raise e
         \/ mkdir_logs_dir env = Raise e \/ open_stdout_log env = Raise e
         \/ open_stderr_log env = Raise e \/ popen_result env = Raise e)
     /\ Forall (fun sg => is_terminal sg = false) (signals (snd r)))
  \/ (exists pid, fst r = Ret tt
        /\ create_script_result env = Ret tt /\ mkdir_exp_dir env = Ret tt
        /\ mkdir_logs_dir env = Ret tt /\ open_stdout_log env = Ret tt
        /\ open_stderr_log env = Ret tt /\ popen_result env = Ret pid
        /\ signals (snd r)
           = [progress 0 (MsgInitializing (exp_name env)); progress 5 MsgLaunching;
              progress 10 (MsgRunning pid)] ++ monitor_events steps 0).
Proof.
  unfold Worker.run_polling. eval_run.
  destruct (create_script_result env) as [[]|e0]; eval_run;
    [|left; exists e0; repeat split; auto 10; repeat constructor].
  destruct (mkdir_exp_dir env) as [[]|e0]; eval_run;
    [|left; exists e0; repeat split; auto 10; repeat constructor].
  destruct (mkdir_logs_dir env) as [[]|e0]; eval_run;
    [|left; exists e0; repeat split; auto 10; repeat constructor].
  destruct (open_stdout_log env) as [[]|e0]; eval_run;
    [|left; exists e0; repeat split; auto 10; repeat constructor].
  destruct (open_stderr_log env) as [[]|e0]; eval_run;
    [|left; exists e0; repeat split; auto 10; repeat constructor].
  destruct (popen_result env) as [pid|e0]; eval_run;
    [|left; exists e0; repeat split; auto 10; repeat constructor].
  rewrite monitor_loop_spec. eval_run.
  right. exists pid. repeat split.
Qed.

(** What a run emits begins with what it had emitted while the child was
    alive. *)
Lemma run_extends_polling :
  fst (run_polling (latest_steps env) initial) = Ret tt ->
  exists rest,
    run_signals = signals (snd (run_polling (latest_steps env) initial)) ++ rest
    /\ rest <> [].
Proof.
  intros H.
  destruct (run_polling_cases (latest_steps env))
    as [(e & He & _)|(pid & _ & Hc & Hm1 & Hm2 & Ho1 & Ho2 & Hp & E)];
    cbv zeta in *; [congruence|].
  rewrite E. eval_run.
  rewrite Hc. eval_run. rewrite Hm1. eval_run. rewrite Hm2. eval_run.
  rewrite Ho1. eval_run. rewrite Ho2. eval_run. rewrite Hp. eval_run.
  rewrite monitor_loop_spec. eval_run.
  repeat (destruct_stuck; eval_run);
    rewrite <- ?app_assoc; cbn [app];
    eexists; (split; [reflexivity|discriminate]).
Qed.




(** When the child process was started, both log files are closed by the
    time the run ends. *)
Lemma logs_closed_once_started (pid : Z) :
  process (snd (run initial)) = Some pid ->
  stdout_log (snd (run initial)) = Some Closed
  /\ stderr_log (snd (run initial)) = Some Closed.
Proof.
  intros Hp.
  destruct run_cases
    as [(f & _ & _ & P & _) | [(f & _ & _ & P & _) | [(f & _ & _ & P & _)
       | [(f & _ & _ & P & _) | [(pid' & f & O & E & _)
       | (pid' & r & O & E & _)]]]]];
    cbv zeta in *; try congruence; auto.
Qed.

End WorkerFacts.

Lemma range_in (a z : Z) (n : nat) :
  (a <= z < a + Z.of_nat n)%Z -> In z (Worker.range a n).
Proof.
  intros H. unfold Worker.range. apply in_map_iff.
  exists (Z.to_nat (z - a)). split; [lia|]. apply in_seq. lia.
Qed.

Lemma pct_near_floor_upto_correct (as_value : Z -> PyVal) (n : nat) (t c : Z) :
  Worker.pct_near_floor_upto as_value n = true ->
  (1 <= t <= Z.of_nat n)%Z -> (0 <= c <= t)%Z ->
  Worker.pct_near_floor as_value t c = true.
Proof.
  unfold Worker.pct_near_floor_upto. intros H Ht Hc.
  rewrite forallb_forall in H.
  specialize (H t (range_in 1 t n ltac:(lia))).
  rewrite forallb_forall in H. apply H. apply range_in. lia.
Qed.

(** For a duration of 1 to 200 steps, given as an [int] or as a [float],
    the percentage the polling loop computes for a step within the duration
    is the floor of [100 * step / duration] or one below it. *)
Lemma progress_pct_near_floor (env : Worker.Env) (t c : Z) :
  (1 <= t <= 200)%Z -> (0 <= c <= t)%Z ->
  Worker.sim_time env = VInt t
  \/ Worker.sim_time env = VFloat (SF2Prim (PyNum.round_int t)) ->
  exists q, Worker.progress_pct env c = Ret q
            /\ (q = 100 * c / t \/ q = 100 * c / t - 1)%Z.
Proof.
  intros Ht Hc Hsim.
  assert (H : exists as_value,
             Worker.sim_time env = as_value t
             /\ Worker.pct_near_floor as_value t c = true).
  { destruct Hsim as [E|E].
    - exists VInt. split; [exact E|].
      apply (pct_near_floor_upto_correct VInt 200); [|lia|lia].
      vm_compute. reflexivity.
    - exists (fun t => VFloat (SF2Prim (PyNum.round_int t))).
      split; [exact E|].
      apply (pct_near_floor_upto_correct _ 200); [|lia|lia].
      vm_compute. reflexivity. }
  destruct H as (as_value & E & H).
  unfold Worker.progress_pct. rewrite E.
  unfold Worker.pct_near_floor in H.
  destruct (PyNum.truediv c (as_value t)) as [x|]; [|discriminate].
  destruct (PyNum.int_of_float (x * 100)%float) as [q|]; [|discriminate].
  exists q. split; [reflexivity|].
  unfold Worker.near_floor in H. apply orb_true_iff in H as [H|H];
    apply Z.eqb_eq in H; auto.
Qed.





(** C8 on the run in which [subprocess.Popen] raises: the run ends with
    an [error] signal while both log files, opened before the call, are
    still open. *)
Lemma popen_failure_leaves_logs_open :
  let w := snd (Worker.run (fun _ => None)
                  (Examples.example_env (VFloat 100%float) [] (Raise OSError) (Ret 0%Z))
                  Worker.initial) in
  Worker.signals w
  = [Worker.progress 0 (Worker.MsgInitializing "run");
     Worker.progress 5 Worker.MsgLaunching;
     Worker.error (Worker.Exception OSError)]
  /\ Worker.stdout_log w = Some Worker.Open
  /\ Worker.stderr_log w = Some Worker.Open.
Proof. vm_compute. repeat split. Qed.

(* --------------------------------------------------------------------- *)
(** ** Further properties of the supervisor                               *)
(* --------------------------------------------------------------------- *)

Section WorkerRuns.

Import Worker.

Local Open Scope Z_scope.


Variable int_of_str : string -> option Z.
Variable env : Env.

Local Abbreviation run := (Worker.run int_of_str env).
Local Abbreviation monitor_loop := (Worker.monitor_loop int_of_str env).
Local Abbreviation monitor_events := (Worker.monitor_events int_of_str env).

Ltac stuck_scrutinee :=
  match goal with
  | |- context [match ?x with _ => _ end] =>
      lazymatch x with
      | context [match _ with _ => _ end] => fail
      | _ => destruct x eqn:?
      end
  end.

Ltac eval_worker :=
  cbv beta iota zeta delta
    [Worker.run_signals Worker.run run_body wait_for_exit _save_run_metadata
     _monitor_progress Py.try_finally Py.try_except Py.bind Py.lift Py.get
     Py.ret Py.raise emit set_temp_script set_stdout_log set_stderr_log
     add_signals set_process set_monitoring set_stdout set_stderr
     set_metadata_saved process_kill Py.modify on_Exception initial
     signals stdout_log stderr_log process kills temp_script monitoring stdout
     stderr metadata_saved fst snd close];
  cbn [app].

Ltac close_error :=
  split; [eauto 7|];
  rewrite <- ?app_assoc; cbn [app];
  first [ eexists [_]; left; eexists; reflexivity
        | eexists [_; _]; left; eexists; reflexivity
        | eexists (_ :: _ :: _ :: _); left; eexists;
          rewrite <- ?app_assoc; cbn [app]; reflexivity ].

(** X1. [run] reports every failure through the [error] signal.  Its
    last signal is [finished] only when no step raised and the child
    exited with code 0; in every other case it is an [error] signal.  The
    only exception that leaves [run] is the one raised when the temporary
    script, created and still present, cannot be removed. *)
Theorem run_raises_only_from_unlink :
  (fst (run initial) = Ret tt
   \/ exists e, fst (run initial) = Raise e
                /\ Worker.create_script_result env = Ret tt
                /\ Worker.temp_script_exists env = true
                /\ Worker.unlink_result env = Raise e)
  /\ exists pre,
       (exists f, signals (snd (run initial)) = pre ++ [error f])
       \/ (exists r, signals (snd (run initial)) = pre ++ [finished r]
             /\ create_script_result env = Ret tt
             /\ mkdir_exp_dir env = Ret tt /\ mkdir_logs_dir env = Ret tt
             /\ open_stdout_log env = Ret tt /\ open_stderr_log env = Ret tt
             /\ (exists pid, popen_result env = Ret pid)
             /\ wait_result env = Ret 0
             /\ (exists out, read_stdout_log env = Ret out)
             /\ (exists err, read_stderr_log env = Ret err)
             /\ (exists total, PyNum.int int_of_str (sim_time env) = Ret total)
             /\ resolve_paths env = Ret tt).
Proof.
  eval_worker.
  destruct (create_script_result env) as [[]|e0] eqn:Hc; eval_worker.
  2:{ repeat (stuck_scrutinee; eval_worker); close_error. }
  destruct (mkdir_exp_dir env) as [[]|e0] eqn:Hm1; eval_worker.
  2:{ repeat (stuck_scrutinee; eval_worker); close_error. }
  destruct (mkdir_logs_dir env) as [[]|e0] eqn:Hm2; eval_worker.
  2:{ repeat (stuck_scrutinee; eval_worker); close_error. }
  destruct (open_stdout_log env) as [[]|e0] eqn:Ho1; eval_worker.
  2:{ repeat (stuck_scrutinee; eval_worker); close_error. }
  destruct (open_stderr_log env) as [[]|e0] eqn:Ho2; eval_worker.
  2:{ repeat (stuck_scrutinee; eval_worker); close_error. }
  destruct (popen_result env) as [pid|e0] eqn:Hp; eval_worker.
  2:{ repeat (stuck_scrutinee; eval_worker); close_error. }
  rewrite monitor_loop_spec. eval_worker.
  destruct (wait_result env) as [exit_code|e0] eqn:Hw; eval_worker.
  2:{ repeat (stuck_scrutinee; eval_worker); close_error. }
  destruct (read_stdout_log env) as [out|e0] eqn:Hr1; eval_worker.
  2:{ repeat (stuck_scrutinee; eval_worker); close_error. }
  destruct (read_stderr_log env) as [err|e0] eqn:Hr2; eval_worker.
  2:{ repeat (stuck_scrutinee; eval_worker); close_error. }
  destruct (PyNum.int int_of_str (sim_time env)) as [total|e0] eqn:Hi;
    eval_worker.
  2:{ repeat (stuck_scrutinee; eval_worker); close_error. }
  destruct (PyNum.gt_zero (sim_time env)) as [positive|e0]; eval_worker.
  2:{ repeat (stuck_scrutinee; eval_worker); close_error. }
  destruct positive; eval_worker;
    [destruct (PyNum.truediv (final_step env) (sim_time env)) as [x|e0];
     eval_worker;
     [|repeat (stuck_scrutinee; eval_worker); close_error]|].
  all: destruct (resolve_paths env) as [[]|e0] eqn:Hrp; eval_worker;
    [|repeat (stuck_scrutinee; eval_worker); close_error].
  all: destruct (exit_code =? 0) eqn:He;
    [|repeat (stuck_scrutinee; eval_worker); close_error].
  all: apply Z.eqb_eq in He; subst exit_code.
  all: repeat (stuck_scrutinee; eval_worker);
    (split; [eauto 7|]);
    (exists ([progress 0 (MsgInitializing (exp_name env));
              progress 5 MsgLaunching; progress 10 (MsgRunning pid)]
             ++ monitor_events (latest_steps env) 0
             ++ [progress 100 MsgCompleted]));
    right; eexists; (split; [rewrite <- ?app_assoc; cbn [app]; reflexivity|]);
    eauto 15.
Qed.

Ltac launch_ok Hc Hm1 Hm2 Ho1 Ho2 Hp :=
  eval_worker; rewrite Hc; eval_worker; rewrite Hm1; eval_worker;
  rewrite Hm2; eval_worker; rewrite Ho1; eval_worker; rewrite Ho2;
  eval_worker; rewrite Hp; eval_worker; rewrite monitor_loop_spec;
  eval_worker.

(** X2. When no step of a run raises, the signals are the three stage
    marks, those of the polling loop, and then, for exit code 0, the
    percentage 100 and [finished] with the experiment name, the final step
    and both logs, and for any other exit code [error] with the code, its
    classification by [_interpret_exit_code], the final step, the duration
    and the last 20 lines of both logs.  Both log files are closed, the
    child is never killed, and the metadata record is saved exactly when
    writing it succeeds. *)
Theorem run_to_completion (pid exit_code total : Z) (out err : string)
  (positive : bool) :
  create_script_result env = Ret tt ->
  mkdir_exp_dir env = Ret tt -> mkdir_logs_dir env = Ret tt ->
  open_stdout_log env = Ret tt -> open_stderr_log env = Ret tt ->
  popen_result env = Ret pid ->
  wait_result env = Ret exit_code ->
  read_stdout_log env = Ret out -> read_stderr_log env = Ret err ->
  PyNum.int int_of_str (sim_time env) = Ret total ->
  PyNum.gt_zero (sim_time env) = Ret positive ->
  (positive = true ->
   exists x, PyNum.truediv (final_step env) (sim_time env) = Ret x) ->
  resolve_paths env = Ret tt ->
  let w := snd (run initial) in
  signals w
  = [progress 0 (MsgInitializing (exp_name env)); progress 5 MsgLaunching;
     progress 10 (MsgRunning pid)]
    ++ monitor_events (latest_steps env) 0
    ++ (if exit_code =? 0
        then [progress 100 MsgCompleted;
              finished (mkResults (exp_name env) (final_step env) out err)]
        else [error (FailedExit exit_code
                       (ExitCode._interpret_exit_code exit_code)
                       (final_step env) total
                       (_get_tail out 20) (_get_tail err 20))])
  /\ stdout_log w = Some Closed /\ stderr_log w = Some Closed
  /\ kills w = 0%nat
  /\ metadata_saved w
     = match write_metadata env with Ret _ => true | Raise _ => false end.
Proof.
  intros Hc Hm1 Hm2 Ho1 Ho2 Hp Hw Hr1 Hr2 Hint Hpos Hdiv Hres.
  launch_ok Hc Hm1 Hm2 Ho1 Ho2 Hp.
  rewrite Hw, Hr1, Hr2; eval_worker. rewrite Hint, Hpos; eval_worker.
  assert (Hmeta : forall s : World,
            (if positive
             then fun s : World =>
                    match PyNum.truediv (final_step env) (sim_time env) with
                    | Ret a2 => (Ret (a2 * 100)%float, s)
                    | Raise e => (Raise e, s)
                    end
             else fun s : World => (Ret 0%float, s)) s
            = (Ret (if positive
                    then match PyNum.truediv (final_step env) (sim_time env) with
                         | Ret a2 => (a2 * 100)%float
                         | Raise _ => 0%float
                         end
                    else 0%float), s)).
  { intros s. destruct positive; [|reflexivity].
    destruct (Hdiv eq_refl) as [x ->]. reflexivity. }
  rewrite Hmeta; eval_worker. rewrite Hres; eval_worker.
  destruct (write_metadata env) as [[]|e]; eval_worker;
    destruct (exit_code =? 0); eval_worker; rewrite ?Hint; eval_worker;
    repeat (stuck_scrutinee; eval_worker);
    rewrite <- ?app_assoc; cbn [app]; repeat split.
Qed.

Lemma int_raises (v : PyVal) (e : PyExc) :
  PyNum.int int_of_str v = Raise e -> e = ValueError \/ e = OverflowError.
Proof.
  destruct v as [z|x|b|s]; simpl; try discriminate.
  - unfold PyNum.int_of_float. destruct (Prim2SF x); try discriminate;
      intros H; injection H as <-; auto.
  - destruct (int_of_str s); [discriminate|]. intros H; injection H as <-; auto.
Qed.

(** X4. When the duration does not convert to an integer, a run whose
    child exits with code 0 is still reported as failed: building the
    metadata raises, so the only signals are the three stage marks and
    [error] with that exception; neither 100 nor [finished] is emitted and
    no metadata is saved. *)
Theorem run_exit_zero_reported_as_error (pid : Z) (out err : string)
  (e : PyExc) :
  create_script_result env = Ret tt ->
  mkdir_exp_dir env = Ret tt -> mkdir_logs_dir env = Ret tt ->
  open_stdout_log env = Ret tt -> open_stderr_log env = Ret tt ->
  popen_result env = Ret pid ->
  wait_result env = Ret 0 ->
  read_stdout_log env = Ret out -> read_stderr_log env = Ret err ->
  PyNum.int int_of_str (sim_time env) = Raise e ->
  let w := snd (run initial) in
  signals w
  = [progress 0 (MsgInitializing (exp_name env)); progress 5 MsgLaunching;
     progress 10 (MsgRunning pid); error (Exception e)]
  /\ metadata_saved w = false.
Proof.
  intros Hc Hm1 Hm2 Ho1 Ho2 Hp Hw Hr1 Hr2 Hint.
  assert (Hmon : monitor_events (latest_steps env) 0 = []).
  { generalize 0. induction (latest_steps env) as [|c steps IH]; intros last;
      simpl; [reflexivity|].
    rewrite Hint. destruct (last <? c); [|apply IH].
    destruct (progress_pct env c); apply IH. }
  launch_ok Hc Hm1 Hm2 Ho1 Ho2 Hp. rewrite Hmon.
  rewrite Hw; eval_worker. rewrite Hr1, Hr2; eval_worker.
  rewrite Hint; eval_worker.
  destruct (int_raises _ _ Hint) as [-> | ->]; eval_worker;
    repeat (stuck_scrutinee; eval_worker); repeat split.
Qed.

(** X5. The polling loop emits nothing and leaves the worker unchanged
    when the duration is zero ([0], [False], [0.0]) or a text, since the
    division then raises at every poll and the exception is swallowed, and
    also when no poll finds a step beyond the last reported one. *)
Theorem monitor_silent (steps : list Z) (last : Z) (w : World) :
  (sim_time env = VInt 0 \/ sim_time env = VBool false
   \/ (exists s, sim_time env = VStr s)
   \/ (exists x, sim_time env = VFloat x /\ PrimFloat.eqb x 0%float = true)
   \/ Forall (fun c => c <= last) steps) ->
  monitor_loop steps last w = (Ret tt, w).
Proof.
  intros H. rewrite monitor_loop_spec.
  assert (E : Worker.monitor_events int_of_str env steps last = []);
    [|now rewrite E, add_signals_nil].
  assert (Hdiv : (forall c, exists e, PyNum.truediv c (sim_time env) = Raise e)
                 \/ Forall (fun c => c <= last) steps).
  { destruct H as [E | [E | [[s E] | [[x [E Hx]] | F]]]]; [left..|right; exact F];
      intros c; rewrite E; simpl; unfold PyNum.int_truediv; simpl; eauto.
    destruct (PyNum.float_of_int c); [|eauto].
    unfold PyNum.float_truediv. rewrite Hx. eauto. }
  clear H. revert last Hdiv. induction steps as [|c steps IH]; intros last Hdiv;
    simpl; [reflexivity|].
  destruct Hdiv as [Hdiv | F].
  - destruct (last <? c); [|apply IH; auto].
    unfold Worker.progress_pct. destruct (Hdiv c) as [e ->]. apply IH; auto.
  - inversion F as [|? ? Hle F']; subst.
    destruct (Z.ltb_spec last c); [lia|]. apply IH; auto.
Qed.

End WorkerRuns.

Lemma split_pieces_clean (c : ascii) (s : string) :
  Forall (fun p => PyStr.contains_char c p = false) (PyStr.split c s).
Proof.
  induction s as [|a s IH]; simpl.
  - repeat constructor.
  - destruct (Ascii.eqb a c) eqn:E.
    + constructor; [reflexivity | exact IH].
    + destruct (PyStr.split c s) as [|p rest].
      * constructor; [simpl; now rewrite E | constructor].
      * inversion IH; subst. constructor; [simpl; now rewrite E | assumption].
Qed.

Lemma join_split (c : ascii) (s : string) :
  Worker.join (String c EmptyString) (PyStr.split c s) = s.
Proof.
  induction s as [|a s IH]; simpl.
  - reflexivity.
  - destruct (Ascii.eqb_spec a c) as [->|Hne].
    + pose proof (split_not_nil c s) as Hn.
      destruct (PyStr.split c s) as [|p rest] eqn:E; [contradiction|].
      simpl in *. now rewrite IH.
    + pose proof (split_not_nil c s) as Hn.
      destruct (PyStr.split c s) as [|p rest] eqn:E; [contradiction|].
      destruct rest; simpl in *; now rewrite <- IH.
Qed.

Lemma split_clean (c : ascii) (p : string) :
  PyStr.contains_char c p = false -> PyStr.split c p = [p].
Proof.
  induction p as [|a p IH]; simpl; intros H.
  - reflexivity.
  - apply orb_false_iff in H as [Ha Hp]. rewrite Ha, (IH Hp). reflexivity.
Qed.

Lemma split_app_sep (c : ascii) (p s : string) :
  PyStr.contains_char c p = false ->
  PyStr.split c (p ++ String c s) = p :: PyStr.split c s.
Proof.
  induction p as [|a p IH]; simpl; intros H.
  - now rewrite Ascii.eqb_refl.
  - apply orb_false_iff in H as [Ha Hp]. rewrite Ha, (IH Hp). reflexivity.
Qed.

Lemma split_join (c : ascii) (pieces : list string) :
  pieces <> [] ->
  Forall (fun p => PyStr.contains_char c p = false) pieces ->
  PyStr.split c (Worker.join (String c EmptyString) pieces) = pieces.
Proof.
  induction pieces as [|p pieces IH]; intros Hn Hf; [contradiction|].
  inversion Hf as [|? ? Hp Hf']; subst.
  destruct pieces as [|q pieces].
  - simpl. now apply split_clean.
  - change (Worker.join (String c "") (p :: q :: pieces))
      with (p ++ String c (Worker.join (String c "") (q :: pieces)))%string.
    rewrite split_app_sep by assumption. f_equal. apply IH; [discriminate | assumption].
Qed.

Lemma last_n_all {A} (n : nat) (xs : list A) :
  List.length xs <= n -> Worker.last_n n xs = xs.
Proof.
  intros H. unfold Worker.last_n. destruct n; [reflexivity|].
  replace (List.length xs - S n) with 0 by lia. reflexivity.
Qed.

Lemma last_n_pos {A} (n : nat) (xs : list A) :
  1 <= n -> Worker.last_n n xs = skipn (List.length xs - n) xs.
Proof. intros H. destruct n; [lia|reflexivity]. Qed.

Lemma last_n_length {A} (n : nat) (xs : list A) :
  1 <= n -> List.length (Worker.last_n n xs) = Nat.min n (List.length xs).
Proof. intros H. rewrite last_n_pos, length_skipn by exact H. lia. Qed.

Lemma Forall_skipn {A} (P : A -> Prop) (k : nat) (xs : list A) :
  Forall P xs -> Forall P (skipn k xs).
Proof.
  revert xs. induction k as [|k IH]; intros xs H; simpl; [exact H|].
  destruct xs; [constructor|]. inversion H; subst. auto.
Qed.

(** X6. [_get_tail] of an empty text is ["(empty)"]; of any other text,
    for at least one line asked, its lines are the last [num_lines] lines of
    the text stripped of surrounding whitespace, so there are at most
    [num_lines] of them; a stripped text that has no more lines than asked
    is returned whole. *)
Theorem get_tail_lines (text : string) (num_lines : nat) :
  (text = EmptyString -> Worker._get_tail text num_lines = "(empty)")
  /\ (text <> EmptyString -> 1 <= num_lines ->
      PyStr.split (ascii_of_nat 10) (Worker._get_tail text num_lines)
      = Worker.last_n num_lines
          (PyStr.split (ascii_of_nat 10) (PyStr.strip text))
      /\ List.length
           (PyStr.split (ascii_of_nat 10) (Worker._get_tail text num_lines))
         <= num_lines)
  /\ (text <> EmptyString ->
      List.length (PyStr.split (ascii_of_nat 10) (PyStr.strip text))
      <= num_lines ->
      Worker._get_tail text num_lines = PyStr.strip text).
Proof.
  split; [|split].
  - intros ->. reflexivity.
  - intros Hne Hn.
    assert (E : Worker._get_tail text num_lines
                = Worker.join ExitCode.newline
                    (Worker.last_n num_lines
                       (PyStr.split (ascii_of_nat 10) (PyStr.strip text))))
      by (destruct text; [contradiction | reflexivity]).
    rewrite E. unfold ExitCode.newline.
    rewrite split_join.
    + split; [reflexivity|]. rewrite last_n_length by exact Hn. lia.
    + intros H. apply (f_equal (@List.length string)) in H.
      rewrite last_n_length in H by exact Hn. simpl in H.
      pose proof (split_not_nil (ascii_of_nat 10) (PyStr.strip text)) as Hs.
      destruct (PyStr.split (ascii_of_nat 10) (PyStr.strip text));
        [contradiction | simpl in H; lia].
    + rewrite last_n_pos by exact Hn.
      apply Forall_skipn, split_pieces_clean.
  - intros Hne Hlen.
    assert (E : Worker._get_tail text num_lines
                = Worker.join ExitCode.newline
                    (Worker.last_n num_lines
                       (PyStr.split (ascii_of_nat 10) (PyStr.strip text))))
      by (destruct text; [contradiction | reflexivity]).
    rewrite E, last_n_all by assumption. apply join_split.
Qed.

(** X2 on a run of 100 steps that reaches step 50 and exits with code 3. *)
Lemma run_to_completion_witness :
  Worker.signals
    (snd (Worker.run (fun _ => None)
            (Examples.example_env (VInt 100) [50%Z] (Ret 4242%Z) (Ret 3%Z))
            Worker.initial))
  = [Worker.progress 0 (Worker.MsgInitializing "run");
     Worker.progress 5 Worker.MsgLaunching;
     Worker.progress 10 (Worker.MsgRunning 4242);
     Worker.progress 50 (Worker.MsgStep 50 100);
     Worker.error
       (Worker.FailedExit 3 "Unknown error (exit code 3)" 50 100 "out"
          "(empty)")].
Proof.
  assert (Hdiv : true = true ->
                 exists x, PyNum.truediv 50%Z (VInt 100) = Ret x)
    by (intros _; eexists; vm_compute; reflexivity).
  exact (eq_trans
           (proj1 (run_to_completion (fun _ => None)
                     (Examples.example_env (VInt 100) [50%Z] (Ret 4242%Z)
                        (Ret 3%Z))
                     4242%Z 3%Z 100%Z "out" "" true
                     eq_refl eq_refl eq_refl eq_refl eq_refl eq_refl eq_refl
                     eq_refl eq_refl eq_refl eq_refl Hdiv eq_refl))
           eq_refl).
Defined.

(** X4 on a run whose duration is the text ["long"]. *)
Lemma run_exit_zero_reported_as_error_witness :
  Worker.signals
    (snd (Worker.run (fun _ => None)
            (Examples.example_env (VStr "long") [50%Z] (Ret 4242%Z) (Ret 0%Z))
            Worker.initial))
  = [Worker.progress 0 (Worker.MsgInitializing "run");
     Worker.progress 5 Worker.MsgLaunching;
     Worker.progress 10 (Worker.MsgRunning 4242);
     Worker.error (Worker.Exception ValueError)].
Proof.
  exact (proj1 (run_exit_zero_reported_as_error (fun _ => None)
                  (Examples.example_env (VStr "long") [50%Z] (Ret 4242%Z)
                     (Ret 0%Z))
                  4242%Z "out" "" ValueError
                  eq_refl eq_refl eq_refl eq_refl eq_refl eq_refl eq_refl
                  eq_refl eq_refl eq_refl)).
Defined.

(** X5 on a duration of 0 steps. *)
Lemma monitor_silent_witness :
  Worker.monitor_loop (fun _ => None)
    (Examples.example_env (VInt 0) [] (Ret 4242%Z) (Ret 0%Z))
    [10%Z; 20%Z] 0%Z Worker.initial
  = (Ret tt, Worker.initial).
Proof.
  apply monitor_silent. left. reflexivity.
Defined.

(** X6 on a text of three lines with a trailing newline, two lines asked. *)
Lemma get_tail_lines_witness :
  PyStr.split (ascii_of_nat 10)
    (Worker._get_tail ("a" ++ ExitCode.newline ++ "b" ++ ExitCode.newline
                       ++ "c" ++ ExitCode.newline)%string 2)
  = ["b"; "c"].
Proof.
  exact (proj1 (proj1 (proj2 (get_tail_lines
                                ("a" ++ ExitCode.newline ++ "b"
                                 ++ ExitCode.newline ++ "c"
                                 ++ ExitCode.newline)%string 2))
                  ltac:(discriminate) (le_S 1 1 (le_n 1)))).
Defined.

(* --------------------------------------------------------------------- *)
(** ** Further properties of the batch and of the expansion               *)
(* --------------------------------------------------------------------- *)

Section BatchRuns.

Import Batch.
Import BatchRun.

Lemma deliver_frame (ev : Terminal) (w : Window) :
  is_cancelled w = false ->
  let w' := deliver ev w in
  let done := total_combinations w <=? completed_combinations w + 1 in
  batch_output_folder w' = batch_output_folder w
  /\ simulation_threads w' = simulation_threads w
  /\ progress_bar_maximum w' = progress_bar_maximum w
  /\ quit_requests w' = quit_requests w
  /\ run_button_enabled w' = (if done then true else run_button_enabled w)
  /\ cancel_button_visible w'
     = (if done then false else cancel_button_visible w)
  /\ progress_bar_visible w'
     = (if done then false else progress_bar_visible w)
  /\ dialogs w' = dialogs w ++ dialogs_of ev w.
Proof.
  intros Hc. unfold dialogs_of.
  destruct ev as [exp_name | error_message]; simpl;
    unfold on_batch_simulation_finished, on_batch_simulation_error;
    rewrite Hc; cbn;
    try destruct (total_combinations w =? 1); cbn;
    destruct (total_combinations w <=? completed_combinations w + 1); cbn;
    rewrite <- ?app_assoc, ?app_nil_r; repeat split; auto.
Qed.

Lemma deliver_all_frame (evs : list Terminal) (w : Window) :
  is_cancelled w = false ->
  completed_combinations w + List.length evs < total_combinations w ->
  let w' := deliver_all evs w in
  batch_output_folder w' = batch_output_folder w
  /\ simulation_threads w' = simulation_threads w
  /\ progress_bar_maximum w' = progress_bar_maximum w
  /\ run_button_enabled w' = run_button_enabled w
  /\ cancel_button_visible w' = cancel_button_visible w
  /\ progress_bar_visible w' = progress_bar_visible w
  /\ dialogs w' = dialogs w.
Proof.
  intros Hc. induction evs as [|ev evs IH] using rev_ind; intros Hlt.
  - simpl. repeat split.
  - rewrite length_app in Hlt. simpl in Hlt. cbv zeta.
    rewrite deliver_all_snoc.
    destruct IH as (Hf & Ht & Hm & Hr & Hcb & Hp & Hd); [lia|].
    destruct (deliver_all_counts evs w Hc) as (Hk & Htot & Hcf & _); [lia|lia|].
    destruct (deliver_frame ev (deliver_all evs w) Hcf)
      as (Hf' & Ht' & Hm' & _ & Hr' & Hcb' & Hp' & Hd').
    unfold dialogs_of in Hd'. rewrite Htot, Hk in *.
    destruct (Nat.leb_spec (total_combinations w)
                (completed_combinations w + List.length evs + 1)); [lia|].
    assert (Hne : (total_combinations w =? 1) = false)
      by (apply Nat.eqb_neq; lia).
    rewrite Hne in Hd'.
    rewrite Hf', Ht', Hm', Hr', Hcb', Hp', Hd', Hf, Ht, Hm, Hr, Hcb, Hp, Hd.
    destruct ev; simpl; rewrite ?app_nil_r; repeat split.
Qed.

Lemma launch_workers_length (base : string) (combos : list (Dict.t PyVal))
  (R : nat) :
  List.length (launch_workers base combos R) = List.length combos * R.
Proof.
  pose proof (f_equal (@List.length _) (launch_workers_names base combos R))
    as H.
  now rewrite !length_map, length_prod, !length_seq in H.
Qed.

Lemma launched_fields (base : string) (combos : list (Dict.t PyVal)) (R : nat)
  (w : Window) :
  let w0 := launched base combos R w in
  let T := List.length combos * R in
  is_cancelled w0 = false /\ completed_combinations w0 = 0
  /\ total_combinations w0 = T
  /\ batch_output_folder w0 = batch_output_folder w
  /\ simulation_threads w0 = seq 0 T
  /\ run_button_enabled w0 = false /\ cancel_button_visible w0 = true
  /\ progress_bar_visible w0 = true /\ progress_bar_maximum w0 = T
  /\ progress_bar_value w0 = 0 /\ dialogs w0 = dialogs w.
Proof.
  unfold launched, launch_batch_simulation. cbv zeta.
  rewrite launch_workers_length.
  destruct ((1 <? List.length combos) || (1 <? R)); cbn; repeat split.
Qed.

(** X7. From the launch of a batch of T >= 1 runs until its last terminal
    signal, with the flag down: after k signals the count and the progress
    bar show k out of the maximum T, the run button stays disabled and the
    cancel button and the bar stay visible while k < T, and the k = T-th
    signal re-enables the run button and hides the other two. *)
Theorem batch_controls (base : string) (combos : list (Dict.t PyVal))
  (R : nat) (w : Window) (evs : list Terminal) (k : nat) :
  let T := List.length combos * R in
  1 <= T -> List.length evs = T -> k <= T ->
  let wk := deliver_all (firstn k evs) (launched base combos R w) in
  completed_combinations wk = k
  /\ progress_bar_value wk = k
  /\ progress_bar_maximum wk = T
  /\ run_button_enabled wk = (k =? T)
  /\ cancel_button_visible wk = negb (k =? T)
  /\ progress_bar_visible wk = negb (k =? T)
  /\ simulation_threads wk = seq 0 T.
Proof.
  cbv zeta. intros HT Hlen Hk.
  destruct (launched_fields base combos R w)
    as (Hc & H0 & Ht & Hf & Hth & Hr & Hcb & Hp & Hm & Hv & Hd).
  set (w0 := launched base combos R w) in *.
  set (T := List.length combos * R) in *.
  destruct (Nat.eqb_spec k T) as [->|Hne].
  - rewrite firstn_all2 by lia.
    destruct (exists_last (l := evs)) as (pre & ev & ->);
      [intros ->; simpl in Hlen; lia|].
    rewrite length_app in Hlen. simpl in Hlen.
    rewrite deliver_all_snoc.
    destruct (deliver_all_counts pre w0 Hc) as (Hk' & Ht' & Hc' & Hv' & _);
      [lia | lia |].
    destruct (deliver_all_frame pre w0 Hc) as (_ & Hth' & Hm' & _); [lia|].
    destruct (deliver_counts ev _ Hc') as (Hk2 & Hv2 & _).
    destruct (deliver_frame ev _ Hc') as (_ & Hth2 & Hm2 & _ & Hr2 & Hcb2 & Hp2 & _).
    cbv zeta in *. rewrite Ht', Hk' in *.
    destruct (Nat.leb_spec (total_combinations w0)
                (completed_combinations w0 + List.length pre + 1)); [|lia].
    rewrite Hk2, Hv2, Hth2, Hm2, Hr2, Hcb2, Hp2, Hth', Hm', Hth, Hm.
    repeat split; lia.
  - assert (Hfl : List.length (firstn k evs) = k)
      by (rewrite length_firstn; lia).
    destruct (deliver_all_counts (firstn k evs) w0 Hc)
      as (Hk' & _ & _ & Hv' & _); [lia | lia |].
    destruct (deliver_all_frame (firstn k evs) w0 Hc)
      as (_ & Hth' & Hm' & Hr' & Hcb' & Hp' & _); [lia|].
    rewrite Hk', Hv', Hth', Hm', Hr', Hcb', Hp', Hfl, H0, Hth, Hm, Hr, Hcb, Hp, Hv.
    repeat split.
    destruct (firstn k evs) eqn:E; [simpl in Hfl; lia | reflexivity].
Qed.

(** X8. The only message box a batch of two or more runs shows while its
    terminal signals arrive is the completion box after the last one, with
    the total as the number of runs, however many of the runs failed; a
    batch of a single run that fails shows the error box first. *)
Theorem batch_dialogs (base : string) (combos : list (Dict.t PyVal))
  (R : nat) (w : Window) (evs : list Terminal) :
  let T := List.length combos * R in
  1 <= T -> List.length evs = T ->
  dialogs (deliver_all evs (launched base combos R w))
  = dialogs w
    ++ match evs with
       | [RunError error_message] =>
           [CriticalSimulationError
              ("Simulation failed!" ++ ExitCode.newline ++ ExitCode.newline
               ++ take_chars 500 error_message ++ "...")%string]
       | _ => []
       end
    ++ [InfoBatchComplete T (batch_output_folder w)].
Proof.
  cbv zeta. intros HT Hlen.
  destruct (launched_fields base combos R w)
    as (Hc & H0 & Ht & Hf & _ & _ & _ & _ & _ & _ & Hd).
  set (w0 := launched base combos R w) in *.
  set (T := List.length combos * R) in *.
  destruct (exists_last (l := evs)) as (pre & ev & ->);
    [intros ->; simpl in Hlen; lia|].
  rewrite length_app in Hlen. simpl in Hlen.
  rewrite deliver_all_snoc.
  destruct (deliver_all_counts pre w0 Hc) as (Hk' & Ht' & Hc' & _);
    [lia | lia |].
  destruct (deliver_all_frame pre w0 Hc) as (Hf' & _ & _ & _ & _ & _ & Hd');
    [lia|].
  destruct (deliver_frame ev _ Hc') as (_ & _ & _ & _ & _ & _ & _ & Hd2).
  rewrite Hd2, Hd', Hd. unfold dialogs_of. rewrite Ht', Hk', Hf', Ht, H0, Hf.
  destruct (Nat.leb_spec T (0 + List.length pre + 1)); [|lia].
  replace (0 + List.length pre + 1) with T by lia.
  f_equal. f_equal.
  destruct (Nat.eqb_spec T 1) as [E|E].
  - assert (pre = []) by (destruct pre; [reflexivity | simpl in Hlen; lia]).
    subst pre. cbn [app]. destruct ev; reflexivity.
  - assert (Hpre : exists a pre', pre = a :: pre')
      by (destruct pre; [simpl in Hlen; lia | eauto]).
    destruct Hpre as (a & pre' & ->). cbn [app].
    destruct ev; destruct a; destruct pre'; reflexivity.
Qed.
End BatchRuns.

Lemma nth_error_flat_map_blocks {A B} (f : A -> list B) (R : nat)
  (l : list A) (c r : nat) :
  (forall x, List.length (f x) = R) -> r < R ->
  nth_error (flat_map f l) (c * R + r)
  = match nth_error l c with
    | Some x => nth_error (f x) r
    | None => None
    end.
Proof.
  intros Hlen Hr. revert c. induction l as [|x l IH]; intros c; simpl.
  - now destruct c; destruct (_ + r).
  - destruct c as [|c]; simpl.
    + apply nth_error_app1. now rewrite Hlen.
    + rewrite nth_error_app2 by (rewrite Hlen; lia).
      rewrite Hlen. replace (R + c * R + r - R) with (c * R + r) by lia.
      apply IH.
Qed.

Lemma nth_error_enumerate {A} (xs : list A) (c : nat) :
  nth_error (Batch.enumerate xs) c
  = option_map (fun x => (c, x)) (nth_error xs c).
Proof.
  unfold Batch.enumerate.
  assert (H : forall start,
            nth_error (combine (seq start (List.length xs)) xs) c
            = option_map (fun x => (start + c, x)) (nth_error xs c)).
  { revert c. induction xs as [|x xs IH]; intros c start; simpl.
    - now destruct c.
    - destruct c as [|c]; simpl.
      + now rewrite Nat.add_0_r.
      + rewrite IH. destruct (nth_error xs c); simpl; [|reflexivity].
        do 2 f_equal. lia. }
  apply H.
Qed.

(** X9. The worker launched for replicate [r] of combination [c] is the
    [c * replicates + r]-th; its parameters are those of the combination
    with only [exp_name] set to the run identifier: every other key keeps
    its value, and the keys are the same when the combination already has
    an [exp_name]. *)
Theorem launched_worker_parameters (base_exp_name : string)
  (parameter_combinations : list (Dict.t PyVal)) (replicates : nat)
  (c r : nat) (params : Dict.t PyVal) :
  nth_error parameter_combinations c = Some params ->
  r < replicates ->
  let exp_name :=
    Batch.exp_name_of base_exp_name (List.length parameter_combinations)
      replicates c r in
  exists worker,
    nth_error
      (Batch.launch_workers base_exp_name parameter_combinations replicates)
      (c * replicates + r) = Some worker
    /\ Dict.get "exp_name" worker = Some (VStr exp_name)
    /\ (forall k, k <> "exp_name" -> Dict.get k worker = Dict.get k params)
    /\ (In "exp_name" (Dict.keys params) ->
        Dict.keys worker = Dict.keys params).
Proof.
  intros Hc Hr. cbv zeta.
  exists (Dict.set "exp_name"
            (VStr (Batch.exp_name_of base_exp_name
                     (List.length parameter_combinations) replicates c r))
            params).
  split; [|split; [|split]].
  - unfold Batch.launch_workers.
    rewrite (nth_error_flat_map_blocks _ replicates).
    + rewrite nth_error_enumerate, Hc. simpl.
      rewrite nth_error_map, nth_error_seq.
      destruct (Nat.ltb_spec r replicates); [reflexivity | lia].
    + intros [i p]. now rewrite length_map, length_seq.
    + exact Hr.
  - apply Dict_get_set_same.
  - intros k Hk. now apply Dict_get_set_other.
  - apply Dict_keys_set_in.
Qed.

Lemma split_two_pieces (c : ascii) (s : string) :
  PyStr.contains_char c s = true -> 2 <= List.length (PyStr.split c s).
Proof.
  induction s as [|a s IH]; simpl; [discriminate|].
  destruct (Ascii.eqb a c); simpl.
  - intros _. pose proof (split_not_nil c s).
    destruct (PyStr.split c s); [contradiction | simpl; lia].
  - intros H. specialize (IH H).
    destruct (PyStr.split c s); simpl in *; lia.
Qed.

Lemma product_size_pow {A} (lists : list (list A)) :
  Forall (fun l => 2 <= List.length l) lists ->
  2 ^ List.length lists
  <= fold_right Nat.mul 1 (map (@List.length A) lists).
Proof.
  induction 1 as [|l lists Hl _ IH]; simpl; [lia|].
  nia.
Qed.

Lemma NoDup_product {A} (lists : list (list A)) :
  Forall (@NoDup A) lists -> NoDup (Sweep.product lists).
Proof.
  induction 1 as [|l lists Hl _ IH]; simpl.
  - repeat constructor. auto.
  - induction Hl as [|x l Hx Hl IHl]; simpl; [constructor|].
    apply NoDup_app.
    + apply NoDup_map_NoDup_ForallPairs; [|exact IH].
      intros a b _ _ H. now injection H.
    + exact IHl.
    + intros choice H1 H2. apply in_map_iff in H1 as (rest & <- & _).
      apply in_flat_map in H2 as (y & Hy & H2).
      apply in_map_iff in H2 as (rest' & E & _). injection E as -> _.
      contradiction.
Qed.

Section SweepMore.

Variable int_of_str : string -> option Z.
Variable float_of_str : string -> option float.
Variable repr_float : float -> string.

Local Abbreviation detect_sweep_parameters :=
  (Sweep.detect_sweep_parameters int_of_str float_of_str repr_float).
Local Abbreviation expand := (Sweep.expand int_of_str float_of_str repr_float).
Local Abbreviation is_sweep := (Sweep.is_sweep repr_float).
Local Abbreviation alternatives :=
  (Sweep.alternatives int_of_str float_of_str repr_float).
Local Abbreviation sweep_axes :=
  (Sweep.sweep_axes int_of_str float_of_str repr_float).
Local Abbreviation base_of := (Sweep.base_of int_of_str float_of_str repr_float).

Lemma expand_spec (params : Dict.t PyVal) (st0 : Sweep.SweepState) :
  NoDup (Dict.keys params) ->
  expand params st0
  = map (fun choice =>
           Sweep.assign (combine (Dict.keys (sweep_axes params)) choice)
             (base_of params))
      (Sweep.product (map snd (sweep_axes params))).
Proof.
  intros Hnd. unfold Sweep.expand.
  rewrite detect_sweep_parameters_spec by assumption. cbn [snd].
  apply generate_spec. now apply sweep_axes_NoDup.
Qed.

Lemma sweep_axes_two (params : Dict.t PyVal) :
  Forall (fun ax => 2 <= List.length (snd ax)) (sweep_axes params).
Proof.
  induction params as [|[k v] params IH]; simpl; [constructor|].
  apply Forall_app. split; [|exact IH].
  destruct (is_sweep v) eqn:E; constructor; [|constructor].
  simpl. unfold Sweep.alternatives. rewrite length_map.
  now apply split_two_pieces.
Qed.

(** X10. Every sweep axis has at least two alternatives, so a parameter
    set with k sweep parameters expands to at least 2^k configurations,
    and never to none. *)
Theorem expansion_size (current_params : Dict.t PyVal)
  (st0 : Sweep.SweepState) :
  NoDup (Dict.keys current_params) ->
  Forall (fun ax => 2 <= List.length (snd ax)) (sweep_axes current_params)
  /\ 2 ^ List.length (sweep_axes current_params)
     <= List.length (expand current_params st0)
  /\ expand current_params st0 <> [].
Proof.
  intros Hnd. pose proof (sweep_axes_two current_params) as H2.
  assert (Hsize : 2 ^ List.length (sweep_axes current_params)
                  <= List.length (expand current_params st0)).
  { rewrite expand_spec by assumption.
    rewrite length_map, product_length.
    rewrite <- (length_map snd (sweep_axes current_params)).
    apply product_size_pow. apply Forall_map. exact H2. }
  split; [exact H2|]. split; [exact Hsize|].
  intros E. rewrite E in Hsize. simpl in Hsize.
  pose proof (Nat.pow_nonzero 2 (List.length (sweep_axes current_params))).
  lia.
Qed.

Lemma no_sweep_axes (params : Dict.t PyVal) :
  (forall k v, In (k, v) params -> is_sweep v = false) ->
  sweep_axes params = [] /\ base_of params = params.
Proof.
  induction params as [|[k v] params IH]; intros H; simpl; [auto|].
  rewrite (H k v (or_introl eq_refl)).
  destruct IH as [-> ->]; [intros; eapply H; right; eauto|]. auto.
Qed.

(** X11. When no value contains a comma, detection answers [False] and
    the expansion is the parameter set itself, alone. *)
Theorem expansion_without_sweep (current_params : Dict.t PyVal)
  (st0 : Sweep.SweepState) :
  NoDup (Dict.keys current_params) ->
  (forall k v, In (k, v) current_params -> is_sweep v = false) ->
  fst (detect_sweep_parameters current_params st0) = Ret false
  /\ expand current_params st0 = [current_params].
Proof.
  intros Hnd Hno. destruct (no_sweep_axes current_params Hno) as [Ha Hb].
  split.
  - rewrite detect_sweep_parameters_spec by assumption. simpl. now rewrite Ha.
  - rewrite expand_spec by assumption. rewrite Ha, Hb. reflexivity.
Qed.

(** X12. When no sweep axis repeats an alternative, the configurations of
    the expansion are pairwise distinct. *)
Theorem expansion_distinct (current_params : Dict.t PyVal)
  (st0 : Sweep.SweepState) :
  NoDup (Dict.keys current_params) ->
  Forall (fun ax => NoDup (snd ax)) (sweep_axes current_params) ->
  NoDup (expand current_params st0).
Proof.
  intros Hnd Hax. rewrite expand_spec by assumption.
  pose proof (sweep_axes_NoDup int_of_str float_of_str repr_float
                current_params Hnd) as Hk.
  apply NoDup_map_NoDup_ForallPairs.
  - intros c1 c2 H1 H2 E.
    apply product_element_length in H1, H2. rewrite length_map in H1, H2.
    pose proof (assign_get int_of_str float_of_str
                  (Dict.keys (sweep_axes current_params)) c1
                  (base_of current_params) Hk) as G1.
    pose proof (assign_get int_of_str float_of_str
                  (Dict.keys (sweep_axes current_params)) c2
                  (base_of current_params) Hk) as G2.
    assert (L : List.length (Dict.keys (sweep_axes current_params))
                = List.length (sweep_axes current_params))
      by (unfold Dict.keys; apply length_map).
    rewrite L in G1, G2.
    specialize (G1 H1). specialize (G2 H2). rewrite E, G2 in G1.
    clear - G1. revert c2 G1. induction c1 as [|a c1 IH]; intros [|b c2] G;
      simpl in G; try discriminate; [reflexivity|].
    injection G as -> G. f_equal. now apply IH.
  - apply NoDup_product. apply Forall_map. exact Hax.
Qed.

End SweepMore.

(** X7 on a batch of two replicates after the first signal. *)
Lemma batch_controls_witness :
  Batch.run_button_enabled
    (Batch.deliver_all [Batch.RunError "crash"]
       (BatchRun.launched "run" [[]] 2 BatchRun.idle)) = false.
Proof.
  exact (proj1 (proj2 (proj2 (proj2
           (batch_controls "run" [[]] 2 BatchRun.idle
              [Batch.RunError "crash"; Batch.RunFinished "run_rep02"] 1
              (le_S 1 1 (le_n 1)) eq_refl (le_S 1 1 (le_n 1))))))).
Defined.

(** X8 on a batch of two replicates that both fail. *)
Lemma batch_dialogs_witness :
  Batch.dialogs
    (Batch.deliver_all [Batch.RunError "crash"; Batch.RunError "crash"]
       (BatchRun.launched "run" [[]] 2 BatchRun.idle))
  = [Batch.InfoBatchComplete 2 "experiments"].
Proof.
  exact (batch_dialogs "run" [[]] 2 BatchRun.idle
           [Batch.RunError "crash"; Batch.RunError "crash"]
           (le_S 1 1 (le_n 1)) eq_refl).
Defined.

(** X9 on the second replicate of the only combination. *)
Lemma launched_worker_parameters_witness :
  exists worker,
    nth_error (Batch.launch_workers "run" [[("jee", VInt 2)]] 2) 1
    = Some worker
    /\ Dict.get "exp_name" worker = Some (VStr "run_rep02")
    /\ (forall k, k <> "exp_name" ->
                  Dict.get k worker = Dict.get k [("jee", VInt 2)])
    /\ (In "exp_name" (Dict.keys [("jee", VInt 2)]) ->
        Dict.keys worker = Dict.keys [("jee", VInt 2)]).
Proof.
  exact (launched_worker_parameters "run" [[("jee", VInt 2)]] 2 0 1
           [("jee", VInt 2)] eq_refl (le_n 2)).
Defined.

Lemma example_params_keys : NoDup (Dict.keys Examples.example_params).
Proof. repeat constructor; simpl; intuition discriminate. Qed.

(** X10 on the example of the specification. *)
Lemma expansion_size_witness :
  2 ^ 1 <= List.length
             (Sweep.expand Examples.decimal_int (fun _ => None)
                (fun _ => "3.0") Examples.example_params
                (Sweep.mkSweepState [] [])).
Proof.
  exact (proj1 (proj2 (expansion_size Examples.decimal_int (fun _ => None)
                         (fun _ => "3.0") Examples.example_params
                         (Sweep.mkSweepState [] []) example_params_keys))).
Defined.

(** X11 on a parameter set without a comma. *)
Lemma expansion_without_sweep_witness :
  Sweep.expand Examples.decimal_int (fun _ => None) (fun _ => "3.0")
    [("jee", VInt 2); ("exp_name", VStr "x")] (Sweep.mkSweepState [] [])
  = [[("jee", VInt 2); ("exp_name", VStr "x")]].
Proof.
  refine (proj2 (expansion_without_sweep Examples.decimal_int (fun _ => None)
                   (fun _ => "3.0") [("jee", VInt 2); ("exp_name", VStr "x")]
                   (Sweep.mkSweepState [] []) _ _)).
  - repeat constructor; simpl; intuition discriminate.
  - intros k v [H|[H|[]]]; injection H as <- <-; reflexivity.
Defined.

(** X12 on the example of the specification. *)
Lemma expansion_distinct_witness :
  NoDup (Sweep.expand Examples.decimal_int (fun _ => None) (fun _ => "3.0")
           Examples.example_params (Sweep.mkSweepState [] [])).
Proof.
  refine (expansion_distinct Examples.decimal_int (fun _ => None)
            (fun _ => "3.0") Examples.example_params
            (Sweep.mkSweepState [] []) example_params_keys _).
  repeat constructor; simpl; intuition discriminate.
Defined.

(* --------------------------------------------------------------------- *)
(** ** Validation against the schema                                      *)
(* --------------------------------------------------------------------- *)

Section ValidationFacts.

Import Schema.

Variable repr_float : float -> string.

Local Abbreviation validate_parameter_value :=
  (Schema.validate_parameter_value repr_float).
Local Abbreviation validate_parameter_set :=
  (Schema.validate_parameter_set repr_float).

(** The three checks of [validate_parameter_value] after the type check,
    each read off as: was an issue added. *)
Lemma validate_checks schema p v info d issues :
  lookup schema p = Some info ->
  _default info = Some d ->
  PyCmp.isinstance v (PyCmp.type_of d) = true ->
  validate_parameter_value schema p v = Ok issues ->
  exists (b1 b2 b3 : bool) i1 i2 i3,
    issues = (if b1 then [i1] else []) ++ (if b2 then [i2] else [])
             ++ (if b3 then [i3] else [])
    /\ severity i1 = "WARNING" /\ severity i2 = "ERROR"
    /\ severity i3 = "WARNING"
    /\ match _physiological_range info with
       | None => b1 = false
       | Some (lo, hi) => PyCmp.outside v lo hi = Ok b1
       end
    /\ match _mathematical_range info with
       | None => b2 = false
       | Some (lo, hi) => PyCmp.outside v lo hi = Ok b2
       end
    /\ match _warning_threshold info with
       | None => b3 = false
       | Some t => PyCmp.gt v t = Ok b3
       end.
Proof.
  intros Hl Hd Hi. unfold Schema.validate_parameter_value.
  rewrite Hl, Hd, Hi. cbn [negb].
  set (dummy := mkIssue "WARNING" "" None).
  set (dummyE := mkIssue "ERROR" "" None).
  destruct (_physiological_range info) as [[lo1 hi1]|];
    [destruct (PyCmp.outside v lo1 hi1) as [[|]|]; try discriminate|];
  (destruct (_mathematical_range info) as [[lo2 hi2]|];
    [destruct (PyCmp.outside v lo2 hi2) as [[|]|]; try discriminate|]);
  (destruct (_warning_threshold info) as [t|];
    [destruct (PyCmp.gt v t) as [[|]|]; try discriminate|]);
  intros H; injection H as <-;
  match goal with
  | |- context [@eq (list Issue) ?l _] =>
      match l with
      | [?a; ?b; ?c] => exists true, true, true, a, b, c
      | [?a; ?b] =>
          first [ (exists true, true, false, a, b, dummy; cbn;
                   repeat split; reflexivity)
                | (exists true, false, true, a, dummyE, b; cbn;
                   repeat split; reflexivity)
                | (exists false, true, true, dummy, a, b; cbn;
                   repeat split; reflexivity) ]
      | [?a] =>
          first [ (exists true, false, false, a, dummyE, dummy; cbn;
                   repeat split; reflexivity)
                | (exists false, true, false, dummy, a, dummy; cbn;
                   repeat split; reflexivity)
                | (exists false, false, true, dummy, dummyE, a; cbn;
                   repeat split; reflexivity) ]
      | [] => exists false, false, false, dummy, dummyE, dummy
      end
  end; cbn; repeat split; reflexivity.
Qed.

(** What the type check leaves: a value of the expected type is compared
    with a bound of the default's kind without a [TypeError]. *)
Lemma lt_comparable (a b : PyVal) :
  comparable a b = true -> exists r, PyCmp.lt a b = Ok r.
Proof.
  destruct a, b; cbn; try discriminate; eauto.
Qed.

Lemma comparable_sym (a b : PyVal) : comparable a b = comparable b a.
Proof. destruct a, b; reflexivity. Qed.

Lemma comparable_instance (v d b : PyVal) :
  PyCmp.isinstance v (PyCmp.type_of d) = true ->
  comparable d b = true -> comparable v b = true.
Proof.
  destruct v, d, b; cbn; congruence.
Qed.

Lemma outside_comparable (v lo hi : PyVal) :
  comparable v lo = true -> comparable v hi = true ->
  exists r, PyCmp.outside v lo hi = Ok r.
Proof.
  intros Hlo Hhi. unfold PyCmp.outside, PyCmp.gt.
  destruct (lt_comparable v lo Hlo) as [r ->].
  rewrite comparable_sym in Hhi.
  destruct (lt_comparable hi v Hhi) as [r' ->].
  destruct r; eauto.
Qed.

(** For a value of the expected type, the ERROR is the one of the
    mathematical range. *)
Lemma validate_typed_error (schema : Schema.t) (p : string) (v : PyVal)
  (info : ParamInfo) (d : PyVal) (issues : list Issue) :
  lookup schema p = Some info ->
  _default info = Some d ->
  PyCmp.isinstance v (PyCmp.type_of d) = true ->
  validate_parameter_value schema p v = Ok issues ->
  (any_severity "ERROR" issues = true <->
   exists lo hi, _mathematical_range info = Some (lo, hi)
                 /\ PyCmp.outside v lo hi = Ok true).
Proof.
  intros Hl Hd Hi H.
  destruct (validate_checks schema p v info d issues Hl Hd Hi H)
    as (b1 & b2 & b3 & i1 & i2 & i3 & -> & S1 & S2 & S3 & _ & C2 & _).
  assert (Hany : any_severity "ERROR"
                   ((if b1 then [i1] else []) ++ (if b2 then [i2] else [])
                    ++ (if b3 then [i3] else [])) = b2).
  { unfold any_severity. rewrite !existsb_app.
    destruct b1, b2, b3; cbn; rewrite ?S1, ?S2, ?S3; reflexivity. }
  rewrite Hany. split.
  - intros ->.
    destruct (_mathematical_range info) as [[lo hi]|] eqn:Hm; [|discriminate].
    now exists lo, hi.
  - intros (lo & hi & Hm & Ho). rewrite Hm in C2. congruence.
Qed.

(** X13. [validate_parameter_value] reports an ERROR exactly when the
    parameter is not in the schema, when the value is not of the type of
    the parameter's default, or when it lies outside the parameter's
    [_mathematical_range]. *)
Theorem validate_error_iff (schema : Schema.t) (p : string) (v : PyVal)
  (issues : list Issue) :
  validate_parameter_value schema p v = Ok issues ->
  (any_severity "ERROR" issues = true <->
   lookup schema p = None
   \/ (exists info d,
         lookup schema p = Some info /\ _default info = Some d
         /\ PyCmp.isinstance v (PyCmp.type_of d) = false)
   \/ (exists info lo hi,
         lookup schema p = Some info
         /\ _mathematical_range info = Some (lo, hi)
         /\ PyCmp.outside v lo hi = Ok true)).
Proof.
  intros H.
  destruct (lookup schema p) as [info|] eqn:Hl.
  2:{ unfold Schema.validate_parameter_value in H. rewrite Hl in H.
      injection H as <-. cbn. split; auto. }
  destruct (_default info) as [d|] eqn:Hd.
  2:{ unfold Schema.validate_parameter_value in H. rewrite Hl, Hd in H.
      discriminate. }
  destruct (PyCmp.isinstance v (PyCmp.type_of d)) eqn:Hi.
  2:{ unfold Schema.validate_parameter_value in H. rewrite Hl, Hd, Hi in H.
      injection H as <-. cbn. split; [|reflexivity].
      intros _. right. left. now exists info, d. }
  rewrite (validate_typed_error schema p v info d issues Hl Hd Hi H). split.
  - intros (lo & hi & Hm & Ho). right. right. now exists info, lo, hi.
  - intros [Hn|[(info' & d' & Hl' & Hd' & Hi')|(info' & lo & hi & Hl' & Hm & Ho)]].
    + discriminate.
    + injection Hl' as <-. congruence.
    + injection Hl' as <-. now exists lo, hi.
Qed.

(** X14. A value passes [validate_parameter_value] without any issue
    exactly when the parameter is in the schema, the value has the type of
    its default, lies inside the physiological and the mathematical range
    (where declared) and does not exceed the warning threshold (where
    declared).  The [_recommended_range] plays no part. *)
Theorem validate_clean_iff (schema : Schema.t) (p : string) (v : PyVal) :
  validate_parameter_value schema p v = Ok [] <->
  exists info d,
    lookup schema p = Some info /\ _default info = Some d
    /\ PyCmp.isinstance v (PyCmp.type_of d) = true
    /\ inside v (_physiological_range info)
    /\ inside v (_mathematical_range info)
    /\ below v (_warning_threshold info).
Proof.
  split.
  - intros H.
    destruct (lookup schema p) as [info|] eqn:Hl.
    2:{ unfold Schema.validate_parameter_value in H. rewrite Hl in H.
        discriminate. }
    destruct (_default info) as [d|] eqn:Hd.
    2:{ unfold Schema.validate_parameter_value in H. rewrite Hl, Hd in H.
        discriminate. }
    destruct (PyCmp.isinstance v (PyCmp.type_of d)) eqn:Hi.
    2:{ unfold Schema.validate_parameter_value in H. rewrite Hl, Hd, Hi in H.
        discriminate. }
    destruct (validate_checks schema p v info d [] Hl Hd Hi H)
      as (b1 & b2 & b3 & i1 & i2 & i3 & E & _ & _ & _ & C1 & C2 & C3).
    assert (b1 = false /\ b2 = false /\ b3 = false) as (-> & -> & ->).
    { destruct b1, b2, b3; cbn in E; try discriminate; auto. }
    exists info, d. repeat split; auto.
    + unfold inside. now destruct (_physiological_range info) as [[lo hi]|].
    + unfold inside. now destruct (_mathematical_range info) as [[lo hi]|].
    + unfold below. now destruct (_warning_threshold info).
  - intros (info & d & Hl & Hd & Hi & H1 & H2 & H3).
    unfold Schema.validate_parameter_value. rewrite Hl, Hd, Hi. cbn [negb].
    unfold inside in H1, H2. unfold below in H3.
    destruct (_physiological_range info) as [[lo1 hi1]|]; [rewrite H1|];
      (destruct (_mathematical_range info) as [[lo2 hi2]|]; [rewrite H2|]);
      (destruct (_warning_threshold info) as [t|]; [rewrite H3|]);
      reflexivity.
Qed.

(** Every severity is ERROR or WARNING. *)
Lemma validate_severities (schema : Schema.t) (p : string) (v : PyVal)
  (issues : list Issue) :
  validate_parameter_value schema p v = Ok issues ->
  Forall (fun i => severity i = "ERROR" \/ severity i = "WARNING") issues.
Proof.
  intros H.
  destruct (lookup schema p) as [info|] eqn:Hl.
  2:{ unfold Schema.validate_parameter_value in H. rewrite Hl in H.
      injection H as <-. repeat constructor. }
  destruct (_default info) as [d|] eqn:Hd.
  2:{ unfold Schema.validate_parameter_value in H. rewrite Hl, Hd in H.
      discriminate. }
  destruct (PyCmp.isinstance v (PyCmp.type_of d)) eqn:Hi.
  2:{ unfold Schema.validate_parameter_value in H. rewrite Hl, Hd, Hi in H.
      injection H as <-. repeat constructor. }
  destruct (validate_checks schema p v info d issues Hl Hd Hi H)
    as (b1 & b2 & b3 & i1 & i2 & i3 & -> & S1 & S2 & S3 & _).
  destruct b1, b2, b3; cbn; repeat (constructor; auto).
Qed.

(** X15. One value gets at most three issues from
    [validate_parameter_value], at most one of them an ERROR, and every
    severity is ERROR or WARNING. *)
Theorem validate_issue_shape (schema : Schema.t) (p : string) (v : PyVal)
  (issues : list Issue) :
  validate_parameter_value schema p v = Ok issues ->
  List.length issues <= 3
  /\ List.length (filter (fun i => String.eqb (severity i) "ERROR") issues) <= 1
  /\ Forall (fun i => severity i = "ERROR" \/ severity i = "WARNING") issues.
Proof.
  intros H.
  pose proof (validate_severities schema p v issues H) as Hsev.
  split; [|split; [|exact Hsev]];
    (destruct (lookup schema p) as [info|] eqn:Hl;
     [|unfold Schema.validate_parameter_value in H; rewrite Hl in H;
       injection H as <-; cbn; auto]);
    (destruct (_default info) as [d|] eqn:Hd;
     [|unfold Schema.validate_parameter_value in H; rewrite Hl, Hd in H;
       discriminate]);
    (destruct (PyCmp.isinstance v (PyCmp.type_of d)) eqn:Hi;
     [|unfold Schema.validate_parameter_value in H; rewrite Hl, Hd, Hi in H;
       injection H as <-; cbn; auto]);
    destruct (validate_checks schema p v info d issues Hl Hd Hi H)
      as (b1 & b2 & b3 & i1 & i2 & i3 & -> & S1 & S2 & S3 & _);
    destruct b1, b2, b3; cbn; rewrite ?S1, ?S2, ?S3; cbn; auto.
Qed.

(** X16. [validate_parameter_value] raises nothing for a parameter whose
    declared bounds are of the kind of its default (numbers for a number,
    texts for a text), whatever the value. *)
Theorem validate_never_raises (schema : Schema.t) (p : string) (v : PyVal) :
  (forall info, lookup schema p = Some info -> bounds_comparable info = true) ->
  exists issues, validate_parameter_value schema p v = Ok issues.
Proof.
  intros Hb. unfold Schema.validate_parameter_value.
  destruct (lookup schema p) as [info|] eqn:Hl; [|eauto].
  specialize (Hb info eq_refl). unfold bounds_comparable in Hb.
  destruct (_default info) as [d|] eqn:Hd; [|discriminate].
  destruct (PyCmp.isinstance v (PyCmp.type_of d)) eqn:Hi; cbn [negb]; [|eauto].
  apply andb_prop in Hb as [Hb H3]. apply andb_prop in Hb as [H1 H2].
  assert (Hout : forall lo hi,
            comparable d lo && comparable d hi = true ->
            exists r, PyCmp.outside v lo hi = Ok r).
  { intros lo hi Hc. apply andb_prop in Hc as [Hlo Hhi].
    apply outside_comparable; eapply comparable_instance; eauto. }
  destruct (_physiological_range info) as [[lo1 hi1]|];
    [destruct (Hout lo1 hi1 H1) as [[|] ->]|];
    (destruct (_mathematical_range info) as [[lo2 hi2]|];
      [destruct (Hout lo2 hi2 H2) as [[|] ->]|]);
    (destruct (_warning_threshold info) as [t|];
      [unfold PyCmp.gt;
       destruct (lt_comparable t v) as [[|] ->];
       [rewrite comparable_sym; eapply comparable_instance; eauto|..]|]);
    eauto.
Qed.

(** The loop of [validate_parameter_set], with the dictionary built so
    far. *)
Lemma validate_items_spec (schema : Schema.t) (items : list (string * PyVal)) :
  forall (acc all_issues : Dict.t (list Issue)),
  NoDup (Dict.keys items) ->
  (forall k, In k (Dict.keys items) -> Dict.get k acc = None) ->
  validate_items repr_float schema items acc = Ok all_issues ->
  forall p issues,
    Dict.get p all_issues = Some issues <->
    Dict.get p acc = Some issues
    \/ (issues <> []
        /\ exists v, Dict.get p items = Some v
                     /\ validate_parameter_value schema p v = Ok issues).
Proof.
  induction items as [|[k v] items IH]; intros acc all_issues Hnd Hfresh H p issues.
  - cbn in H. injection H as <-. cbn. split; [auto|].
    intros [?|(_ & v & ? & _)]; [assumption|discriminate].
  - cbn [validate_items] in H.
    inversion Hnd as [|? ? Hnin Hnd']; subst.
    destruct (validate_parameter_value schema k v) as [found|] eqn:Hv;
      [|discriminate].
    assert (Hk : Dict.get k acc = None) by (apply Hfresh; cbn; auto).
    assert (Hrest : forall acc',
              (forall k', k' <> k -> Dict.get k' acc' = Dict.get k' acc) ->
              forall k', In k' (Dict.keys items) -> Dict.get k' acc' = None).
    { intros acc' Hsame k' Hin. rewrite Hsame.
      - apply Hfresh. cbn. auto.
      - intros ->. apply Hnin. exact Hin. }
    cbn [Dict.get]. destruct (String.eqb_spec p k) as [->|Hne].
    + (* the entry of [k] itself *)
      assert (Hitems : Dict.get k items = None)
        by (apply Dict_get_not_in; exact Hnin).
      destruct found as [|i found].
      * rewrite (IH acc all_issues Hnd' (Hrest acc (fun _ _ => eq_refl)) H).
        rewrite Hk, Hitems. split.
        -- intros [?|(_ & v' & ? & _)]; discriminate.
        -- intros [Ha|(Hne & v' & Hv' & Hval)]; [congruence|].
           injection Hv' as <-. rewrite Hv in Hval. injection Hval as <-.
           now contradiction Hne.
      * rewrite (IH _ all_issues Hnd'
                   (Hrest _ (fun k' Hk' => Dict_get_set_other k k' _ acc Hk')) H).
        rewrite Dict_get_set_same, Hitems. split.
        -- intros [Heq|(_ & v' & ? & _)]; [|discriminate].
           injection Heq as <-. right. split; [discriminate|]. now exists v.
        -- intros [Ha|(_ & v' & Hv' & Hval)]; [congruence|].
           injection Hv' as <-. rewrite Hv in Hval. injection Hval as <-.
           now left.
    + destruct found as [|i found].
      * apply (IH acc all_issues Hnd' (Hrest acc (fun _ _ => eq_refl)) H).
      * rewrite (IH _ all_issues Hnd'
                   (Hrest _ (fun k' Hk' => Dict_get_set_other k k' _ acc Hk')) H).
        now rewrite Dict_get_set_other.
Qed.

(** X17. [validate_parameter_set] returns the parameters that have issues,
    each with the issues [validate_parameter_value] finds for its value;
    a parameter without issues has no entry. *)
Theorem validate_parameter_set_entries (schema : Schema.t)
  (params : Dict.t PyVal) (all_issues : Dict.t (list Issue)) :
  NoDup (Dict.keys params) ->
  validate_parameter_set schema params = Ok all_issues ->
  forall p issues,
    Dict.get p all_issues = Some issues <->
    issues <> []
    /\ exists v, Dict.get p params = Some v
                 /\ validate_parameter_value schema p v = Ok issues.
Proof.
  intros Hnd H p issues. unfold Schema.validate_parameter_set in H.
  rewrite (validate_items_spec schema params [] all_issues Hnd
             (fun _ _ => eq_refl) H p issues).
  cbn. split; [intros [?|?]; [discriminate|assumption] | auto].
Qed.

End ValidationFacts.

(* --------------------------------------------------------------------- *)
(** ** Expertise levels, defaults and presets of the schema               *)
(* --------------------------------------------------------------------- *)

Section SchemaFacts.

Import Schema.

Lemma expertise_level_filter (level : string) (params : Dict.t ParamInfo)
  (names : list string) :
  fold_left
    (fun names '(param_name, param_info) =>
       if level_order (match _expert_level param_info with
                       | Some l => l
                       | None => "advanced"
                       end) 2 <=? level_order level 0
       then if String.eqb level "basic"
               && match _hidden_basic param_info with
                  | Some b => b
                  | None => false
                  end
            then names
            else names ++ [param_name]
       else names)
    params names
  = names ++ Dict.keys (filter (fun kv => shown level (snd kv)) params).
Proof.
  revert names. induction params as [|[k info] params IH]; intros names.
  - cbn. now rewrite app_nil_r.
  - cbn [fold_left filter snd]. rewrite IH. unfold shown at 2.
    destruct (_ <=? _); cbn [andb negb].
    + destruct (String.eqb level "basic" && _); cbn [negb].
      * reflexivity.
      * cbn. now rewrite <- app_assoc.
    + reflexivity.
Qed.

Lemma level_order_le_2 (l : string) (default : nat) :
  default <= 2 -> level_order l default <= 2.
Proof.
  intros H. unfold level_order.
  repeat (destruct (String.eqb l _); [lia|]). exact H.
Qed.

(** X18. The expertise levels are nested: what the basic level lists is
    listed at every level, what any level lists is listed at the advanced
    level, and the advanced level lists every parameter of the schema, in
    schema order. *)
Theorem expertise_levels_nested (schema : Schema.t) (level : string) :
  incl (get_parameters_by_expertise_level schema "basic")
       (get_parameters_by_expertise_level schema level)
  /\ incl (get_parameters_by_expertise_level schema level)
          (get_parameters_by_expertise_level schema "advanced")
  /\ get_parameters_by_expertise_level schema "advanced"
     = match inputs schema with
       | Some params => Dict.keys params
       | None => []
       end.
Proof.
  unfold get_parameters_by_expertise_level.
  destruct (inputs schema) as [params|].
  2:{ repeat split; intros x []. }
  rewrite !expertise_level_filter. cbn [app].
  assert (Hall : filter (fun kv => shown "advanced" (snd kv)) params = params).
  { apply forallb_filter_id. apply forallb_forall. intros [k info] _.
    unfold shown. cbn [snd]. rewrite andb_true_r.
    apply Nat.leb_le. change (level_order "advanced" 0) with 2.
    apply level_order_le_2. lia. }
  rewrite Hall. repeat split.
  - intros x Hin. unfold Dict.keys in *. apply in_map_iff in Hin as [[k info] [<- Hin]].
    apply filter_In in Hin as [Hin Hs]. apply in_map_iff. exists (k, info).
    split; [reflexivity|]. apply filter_In. split; [exact Hin|].
    cbn [snd] in *. unfold shown in *.
    apply andb_prop in Hs as [Hle Hhid]. apply Nat.leb_le in Hle.
    change (level_order "basic" 0) with 0 in Hle.
    apply andb_true_intro. split.
    + apply Nat.leb_le. lia.
    + destruct (String.eqb level "basic") eqn:E; [|reflexivity].
      apply String.eqb_eq in E. subst level. exact Hhid.
  - intros x Hin. unfold Dict.keys in *. apply in_map_iff in Hin as [[k info] [<- Hin]].
    apply filter_In in Hin as [Hin _]. apply in_map_iff. now exists (k, info).
Qed.

(** One assignment [presets[preset_name][param_name] = preset_value],
    with the creation of the inner dictionary where needed. *)
Lemma preset_assignment (presets : Dict.t (Dict.t PyVal))
  (param_name preset_name : string) (preset_value : PyVal) (q k : string) :
  let presets1 :=
    match Dict.get preset_name presets with
    | Some _ => presets
    | None => Dict.set preset_name [] presets
    end in
  preset_entry
    (Dict.set preset_name
       (Dict.set param_name preset_value
          (Dict.get_default preset_name [] presets1))
       presets1) q k
  = if String.eqb q preset_name && String.eqb k param_name
    then Some preset_value
    else preset_entry presets q k.
Proof.
  intros presets1. unfold preset_entry.
  assert (Hd : Dict.get_default preset_name [] presets1
               = Dict.get_default preset_name [] presets).
  { subst presets1. unfold Dict.get_default, Dict.t in *.
    destruct (Dict.get preset_name presets) eqn:E.
    - now rewrite E.
    - now rewrite Dict_get_set_same. }
  assert (Hg : forall q', q' <> preset_name ->
                          Dict.get q' presets1 = Dict.get q' presets).
  { intros q' Hne. subst presets1.
    destruct (Dict.get preset_name presets); [reflexivity|].
    now apply Dict_get_set_other. }
  rewrite Hd. destruct (String.eqb_spec q preset_name) as [->|Hq]; cbn [andb].
  - rewrite Dict_get_set_same.
    destruct (String.eqb_spec k param_name) as [->|Hk].
    + apply Dict_get_set_same.
    + rewrite Dict_get_set_other by exact Hk.
      unfold Dict.get_default, Dict.t in *.
      now destruct (Dict.get preset_name presets).
  - rewrite Dict_get_set_other by exact Hq. now rewrite Hg.
Qed.

(** The inner loop over one parameter's presets. *)
Lemma add_presets_entry (param_name : string) (param_presets : Dict.t PyVal) :
  forall (presets : Dict.t (Dict.t PyVal)) (q k : string),
  NoDup (Dict.keys param_presets) ->
  preset_entry (add_presets param_name param_presets presets) q k
  = if String.eqb k param_name
    then match Dict.get q param_presets with
         | Some v => Some v
         | None => preset_entry presets q k
         end
    else preset_entry presets q k.
Proof.
  unfold add_presets.
  induction param_presets as [|[pn pv] pp IH]; intros presets q k Hnd.
  - cbn. now destruct (String.eqb k param_name).
  - inversion Hnd as [|? ? Hnin Hnd']; subst.
    cbn [fold_left]. rewrite IH by exact Hnd'.
    rewrite preset_assignment. cbn [Dict.get].
    destruct (String.eqb_spec k param_name) as [->|Hk];
      [|now rewrite andb_false_r].
    rewrite andb_true_r.
    destruct (String.eqb_spec q pn) as [->|Hq]; [|reflexivity].
    now rewrite (Dict_get_not_in pn pp Hnin).
Qed.

(** The outer loop over the parameters of the schema. *)
Lemma presets_loop (params : Dict.t ParamInfo) :
  forall (presets : Dict.t (Dict.t PyVal)) (q k : string),
  NoDup (Dict.keys params) ->
  (forall name info pp, In (name, info) params -> _presets info = Some pp ->
                        NoDup (Dict.keys pp)) ->
  preset_entry
    (fold_left
       (fun presets '(param_name, param_info) =>
          match _presets param_info with
          | Some param_presets => add_presets param_name param_presets presets
          | None => presets
          end)
       params presets) q k
  = match declared_preset params k q with
    | Some v => Some v
    | None => preset_entry presets q k
    end.
Proof.
  induction params as [|[name info] params IH]; intros presets q k Hnd Hpp.
  - reflexivity.
  - inversion Hnd as [|? ? Hnin Hnd']; subst.
    cbn [fold_left]. rewrite IH; [|exact Hnd'|].
    2:{ intros n i pp Hin. apply (Hpp n i pp). now right. }
    unfold declared_preset. cbn [Dict.get].
    destruct (String.eqb_spec k name) as [->|Hk].
    + rewrite (Dict_get_not_in name params Hnin).
      destruct (_presets info) as [pp|] eqn:Hp; [|reflexivity].
      rewrite add_presets_entry by (apply (Hpp name info pp); [now left|exact Hp]).
      now rewrite String.eqb_refl.
    + destruct (Dict.get k params) as [info'|];
        [destruct (_presets info') as [pp'|];
         [destruct (Dict.get q pp'); [reflexivity|]|]|];
        (destruct (_presets info) as [pp|] eqn:Hp; [|reflexivity];
         rewrite add_presets_entry
           by (apply (Hpp name info pp); [now left|exact Hp]);
         apply String.eqb_neq in Hk; now rewrite Hk).
Qed.

(** X19. [get_parameter_presets] transposes the schema: the value of
    parameter [k] in preset [q] is the one that [k]'s own [_presets] entry
    gives for [q], and a preset holds no other parameter. *)
Theorem presets_transposed (schema : Schema.t) (params : Dict.t ParamInfo)
  (q k : string) :
  inputs schema = Some params ->
  NoDup (Dict.keys params) ->
  (forall name info pp, In (name, info) params -> _presets info = Some pp ->
                        NoDup (Dict.keys pp)) ->
  preset_entry (get_parameter_presets schema) q k = declared_preset params k q.
Proof.
  intros Hin Hnd Hpp. unfold get_parameter_presets. rewrite Hin.
  rewrite presets_loop by assumption.
  now destruct (declared_preset params k q).
Qed.

(** X20. [get_model_defaults] holds, for each parameter of the schema, the
    [_default] of its entry, and nothing for a parameter without one. *)
Theorem model_defaults_lookup (schema : Schema.t) (params : Dict.t ParamInfo)
  (k : string) :
  inputs schema = Some params ->
  NoDup (Dict.keys params) ->
  Dict.get k (get_model_defaults schema)
  = match Dict.get k params with
    | Some info => _default info
    | None => None
    end.
Proof.
  intros Hin Hnd. unfold get_model_defaults. rewrite Hin.
  assert (H : forall defaults,
    Dict.get k
      (fold_left
         (fun defaults '(param_name, param_info) =>
            match _default param_info with
            | Some v => Dict.set param_name v defaults
            | None => defaults
            end) params defaults)
    = match Dict.get k params with
      | Some info => match _default info with
                     | Some v => Some v
                     | None => Dict.get k defaults
                     end
      | None => Dict.get k defaults
      end).
  { clear Hin. induction params as [|[name info] params IH]; intros defaults.
    - reflexivity.
    - inversion Hnd as [|? ? Hnin Hnd']; subst.
      cbn [fold_left Dict.get]. rewrite IH by exact Hnd'.
      destruct (String.eqb_spec k name) as [->|Hk].
      + rewrite (Dict_get_not_in name params Hnin).
        destruct (_default info); [apply Dict_get_set_same|reflexivity].
      + destruct (Dict.get k params) as [info'|];
          [destruct (_default info'); [reflexivity|]|];
          (destruct (_default info); [now apply Dict_get_set_other|reflexivity]). }
  rewrite H. destruct (Dict.get k params) as [info|]; [|reflexivity].
  now destruct (_default info).
Qed.

End SchemaFacts.

(* --------------------------------------------------------------------- *)
(** ** The tabs and groups of the parameters                              *)
(* --------------------------------------------------------------------- *)

Lemma Dict_keys_set {V} (k : string) (v : V) (d : Dict.t V) :
  Dict.keys (Dict.set k v d)
  = if existsb (String.eqb k) (Dict.keys d) then Dict.keys d
    else Dict.keys d ++ [k].
Proof.
  unfold Dict.keys.
  induction d as [|[k' v'] d IH]; cbn; [reflexivity|].
  destruct (String.eqb k k') eqn:E; cbn.
  - apply String.eqb_eq in E. now subst.
  - rewrite IH. now destruct (existsb (String.eqb k) (map fst d)).
Qed.

Lemma Dict_set_NoDup {V} (k : string) (v : V) (d : Dict.t V) :
  NoDup (Dict.keys d) -> NoDup (Dict.keys (Dict.set k v d)).
Proof.
  intros Hnd. rewrite Dict_keys_set.
  destruct (existsb (String.eqb k) (Dict.keys d)) eqn:E; [exact Hnd|].
  apply NoDup_app; [exact Hnd|repeat constructor; intros []|].
  intros x Hin Hx. destruct Hx as [<-|[]].
  assert (existsb (String.eqb k) (Dict.keys d) = true); [|congruence].
  apply existsb_exists. exists k. split; [exact Hin|apply String.eqb_refl].
Qed.

Lemma Dict_get_filter {V} (f : string * V -> bool) (k : string) (d : Dict.t V) :
  NoDup (Dict.keys d) ->
  Dict.get k (filter f d)
  = match Dict.get k d with
    | Some v => if f (k, v) then Some v else None
    | None => None
    end.
Proof.
  induction d as [|[k' v'] d IH]; intros Hnd; [reflexivity|].
  inversion Hnd as [|? ? Hnin Hnd']; subst.
  cbn [filter Dict.get].
  destruct (String.eqb_spec k k') as [->|Hne].
  - destruct (f (k', v')) eqn:Ef.
    + cbn [Dict.get]. now rewrite String.eqb_refl.
    + rewrite IH by exact Hnd'. now rewrite (Dict_get_not_in k' d Hnin).
  - destruct (f (k', v')).
    + cbn [Dict.get]. apply String.eqb_neq in Hne. rewrite Hne. now apply IH.
    + now apply IH.
Qed.

Section StructureFacts.

Import Schema.

(** One parameter placed in its tab and group. *)
Lemma add_parameter_entry (structure : Structure) (k : string)
  (info : ParamInfo) (tab group p : string) :
  structure_entry (add_parameter structure (k, info)) tab group p
  = if String.eqb tab (tab_name_of info)
       && String.eqb group (subcategory_of info) && String.eqb p k
    then Some (description_of info)
    else structure_entry structure tab group p.
Proof.
  unfold add_parameter, structure_entry, Dict.get_default, Structure, Dict.t in *.
  set (T := tab_name_of info). set (G := subcategory_of info).
  destruct (String.eqb_spec tab T) as [->|HT]; cbn [andb].
  - rewrite Dict_get_set_same.
    destruct (Dict.get T structure) as [groups|] eqn:ET.
    + rewrite ?ET.
      destruct (String.eqb_spec group G) as [->|HG]; cbn [andb].
      * rewrite Dict_get_set_same.
        destruct (Dict.get G groups) as [ps|] eqn:EG.
        -- rewrite ?EG. destruct (String.eqb_spec p k) as [->|Hp].
           ++ apply Dict_get_set_same.
           ++ now apply Dict_get_set_other.
        -- rewrite Dict_get_set_same.
           destruct (String.eqb_spec p k) as [->|Hp].
           ++ apply Dict_get_set_same.
           ++ now rewrite Dict_get_set_other.
      * rewrite Dict_get_set_other by exact HG.
        destruct (Dict.get G groups) as [ps|] eqn:EG; [reflexivity|].
        now rewrite Dict_get_set_other.
    + rewrite Dict_get_set_same. cbn [Dict.get].
      destruct (String.eqb_spec group G) as [->|HG]; cbn [andb].
      * rewrite !Dict_get_set_same.
        destruct (String.eqb_spec p k) as [->|Hp]; cbn.
        -- now rewrite String.eqb_refl.
        -- apply String.eqb_neq in Hp. now rewrite Hp.
      * rewrite Dict_get_set_other by exact HG. cbn.
        apply String.eqb_neq in HG. now rewrite HG.
  - rewrite Dict_get_set_other by exact HT.
    destruct (Dict.get T structure); [reflexivity|].
    now rewrite Dict_get_set_other.
Qed.

Lemma add_parameter_NoDup (structure : Structure) (item : string * ParamInfo) :
  NoDup (Dict.keys structure) ->
  NoDup (Dict.keys (add_parameter structure item)).
Proof.
  intros Hnd. destruct item as [k info]. unfold add_parameter.
  apply Dict_set_NoDup.
  destruct (Dict.get (tab_name_of info) structure); [exact Hnd|].
  now apply Dict_set_NoDup.
Qed.

Lemma structure_loop (params : Dict.t ParamInfo) :
  forall (structure : Structure) (tab group p : string),
  NoDup (Dict.keys params) ->
  structure_entry (fold_left add_parameter params structure) tab group p
  = match Dict.get p params with
    | Some info =>
        if String.eqb tab (tab_name_of info)
           && String.eqb group (subcategory_of info)
        then Some (description_of info)
        else structure_entry structure tab group p
    | None => structure_entry structure tab group p
    end.
Proof.
  induction params as [|[k info] params IH]; intros structure tab group p Hnd.
  - reflexivity.
  - inversion Hnd as [|? ? Hnin Hnd']; subst.
    cbn [fold_left Dict.get]. rewrite IH by exact Hnd'.
    rewrite add_parameter_entry.
    destruct (String.eqb_spec p k) as [->|Hp].
    + rewrite (Dict_get_not_in k params Hnin). now rewrite andb_true_r.
    + rewrite andb_false_r. reflexivity.
Qed.

Lemma structure_loop_NoDup (params : Dict.t ParamInfo) (structure : Structure) :
  NoDup (Dict.keys structure) ->
  NoDup (Dict.keys (fold_left add_parameter params structure)).
Proof.
  revert structure. induction params as [|item params IH]; intros structure Hnd.
  - exact Hnd.
  - cbn. apply IH. now apply add_parameter_NoDup.
Qed.

(** X21. For a schema with an ['inputs'] entry,
    [get_parameter_structure] files every parameter under one tab and one
    group only: the tab its category maps to and its subcategory, with its
    description; and it returns no tab without a group.  For a schema
    without ['inputs'] it returns the three tabs of [TAB_ORDER], all
    empty. *)
Theorem structure_partition (schema : Schema.t) (tab group p : string) :
  (inputs schema = None ->
   get_parameter_structure schema = map (fun tab => (tab, [])) TAB_ORDER)
  /\ (forall params,
        inputs schema = Some params ->
        NoDup (Dict.keys params) ->
        structure_entry (get_parameter_structure schema) tab group p
        = match Dict.get p params with
          | Some info =>
              if String.eqb tab (tab_name_of info)
                 && String.eqb group (subcategory_of info)
              then Some (description_of info)
              else None
          | None => None
          end
        /\ Forall (fun kv => snd kv <> []) (get_parameter_structure schema)).
Proof.
  split.
  { intros Hin. unfold get_parameter_structure. now rewrite Hin. }
  intros params Hin Hnd. unfold get_parameter_structure. rewrite Hin. split.
  - set (S0 := map (fun tab => (tab, [])) TAB_ORDER).
    assert (H0 : NoDup (Dict.keys (V := Dict.t (Dict.t string)) S0)).
    { cbn. repeat constructor; cbn; intuition discriminate. }
    pose proof (structure_loop_NoDup params S0 H0) as HN.
    pose proof (structure_loop params S0 tab group p Hnd) as HL.
    assert (HS0 : structure_entry S0 tab group p = None).
    { unfold structure_entry, S0. cbn.
      repeat (destruct (String.eqb tab _); [reflexivity|]). reflexivity. }
    rewrite HS0 in HL. rewrite <- HL.
    unfold structure_entry at 1. unfold Structure in *.
    rewrite (Dict_get_filter _ tab _ HN). unfold structure_entry.
    unfold Structure, Dict.t in *.
    match goal with
    | |- context [@Dict.get ?V tab ?x] => destruct (@Dict.get V tab x) as [gs|]
    end; [|reflexivity].
    cbn [snd]. now destruct gs.
  - apply Forall_forall. intros [k groups] Hf.
    apply filter_In in Hf as [_ Hf]. cbn [snd] in *. now destruct groups.
Qed.

End StructureFacts.

(* --------------------------------------------------------------------- *)
(** ** Conversion of the entered values                                   *)
(* --------------------------------------------------------------------- *)

Lemma rstrip_cons (a : ascii) (s : string) :
  PyStr.rstrip (String a s)
  = match PyStr.rstrip s with
    | EmptyString => if PyStr.is_space a then EmptyString else String a EmptyString
    | r => String a r
    end.
Proof. reflexivity. Qed.

Lemma lstrip_idempotent (s : string) :
  PyStr.lstrip (PyStr.lstrip s) = PyStr.lstrip s.
Proof.
  induction s as [|a s IH]; [reflexivity|].
  cbn. destruct (PyStr.is_space a) eqn:E; [exact IH|].
  cbn. now rewrite E.
Qed.

Lemma rstrip_idempotent (s : string) :
  PyStr.rstrip (PyStr.rstrip s) = PyStr.rstrip s.
Proof.
  induction s as [|a s IH]; [reflexivity|].
  rewrite rstrip_cons.
  destruct (PyStr.rstrip s) as [|b r] eqn:E.
  - destruct (PyStr.is_space a) eqn:Ea; [reflexivity|].
    cbn. now rewrite Ea.
  - rewrite rstrip_cons, IH. reflexivity.
Qed.

Lemma lstrip_rstrip (s : string) :
  PyStr.lstrip (PyStr.rstrip s) = PyStr.rstrip (PyStr.lstrip s).
Proof.
  induction s as [|a s IH]; [reflexivity|].
  rewrite rstrip_cons. cbn [PyStr.lstrip].
  destruct (PyStr.is_space a) eqn:Ea.
  - rewrite <- IH. destruct (PyStr.rstrip s) as [|b r]; [reflexivity|].
    cbn [PyStr.lstrip]. now rewrite Ea.
  - rewrite rstrip_cons.
    destruct (PyStr.rstrip s) as [|b r]; cbn [PyStr.lstrip]; now rewrite Ea.
Qed.

Lemma strip_idempotent (s : string) :
  PyStr.strip (PyStr.strip s) = PyStr.strip s.
Proof.
  unfold PyStr.strip.
  now rewrite lstrip_rstrip, lstrip_idempotent, rstrip_idempotent.
Qed.

Lemma contains_char_lstrip (c : ascii) (s : string) :
  PyStr.is_space c = false ->
  PyStr.contains_char c (PyStr.lstrip s) = PyStr.contains_char c s.
Proof.
  intros Hc. induction s as [|a s IH]; [reflexivity|].
  cbn. destruct (PyStr.is_space a) eqn:Ea; [|reflexivity].
  rewrite IH. destruct (Ascii.eqb_spec a c) as [->|]; [congruence|reflexivity].
Qed.

Lemma contains_char_rstrip (c : ascii) (s : string) :
  PyStr.is_space c = false ->
  PyStr.contains_char c (PyStr.rstrip s) = PyStr.contains_char c s.
Proof.
  intros Hc. induction s as [|a s IH]; [reflexivity|].
  rewrite rstrip_cons. cbn [PyStr.contains_char]. rewrite <- IH.
  destruct (PyStr.rstrip s) as [|b r]; [|reflexivity].
  destruct (PyStr.is_space a) eqn:Ea; cbn.
  - destruct (Ascii.eqb_spec a c) as [->|]; [congruence|reflexivity].
  - reflexivity.
Qed.

Lemma contains_char_strip (c : ascii) (s : string) :
  PyStr.is_space c = false ->
  PyStr.contains_char c (PyStr.strip s) = PyStr.contains_char c s.
Proof.
  intros Hc. unfold PyStr.strip.
  now rewrite contains_char_rstrip, contains_char_lstrip.
Qed.

Lemma split_cons (c a : ascii) (s : string) :
  PyStr.split c (String a s)
  = if Ascii.eqb a c then EmptyString :: PyStr.split c s
    else String a (hd EmptyString (PyStr.split c s)) :: tl (PyStr.split c s).
Proof.
  cbn. destruct (Ascii.eqb a c); [reflexivity|].
  pose proof (split_not_nil c s).
  now destruct (PyStr.split c s).
Qed.

(** Trimming on the left touches the first piece only. *)
Lemma split_lstrip (c : ascii) (s : string) :
  PyStr.is_space c = false ->
  PyStr.split c (PyStr.lstrip s)
  = PyStr.lstrip (hd EmptyString (PyStr.split c s)) :: tl (PyStr.split c s).
Proof.
  intros Hc. induction s as [|a s IH]; [reflexivity|].
  cbn [PyStr.lstrip]. rewrite split_cons.
  destruct (PyStr.is_space a) eqn:Ea.
  - destruct (Ascii.eqb_spec a c) as [->|]; [congruence|].
    cbn [hd tl PyStr.lstrip]. rewrite Ea. exact IH.
  - rewrite split_cons.
    destruct (Ascii.eqb a c); cbn [hd tl PyStr.lstrip]; [reflexivity|].
    now rewrite Ea.
Qed.

(** Trimming on the right touches the last piece only. *)
Lemma split_rstrip (c : ascii) (s : string) :
  PyStr.is_space c = false ->
  PyStr.split c (PyStr.rstrip s)
  = removelast (PyStr.split c s)
    ++ [PyStr.rstrip (last (PyStr.split c s) EmptyString)].
Proof.
  intros Hc. induction s as [|a s IH]; [reflexivity|].
  assert (Hcase : PyStr.rstrip (String a s) = String a (PyStr.rstrip s)
                  \/ (PyStr.rstrip (String a s) = EmptyString
                      /\ PyStr.rstrip s = EmptyString
                      /\ PyStr.is_space a = true)).
  { rewrite rstrip_cons. destruct (PyStr.rstrip s); [|now left].
    destruct (PyStr.is_space a); [now right|now left]. }
  destruct Hcase as [Hr|(Hr & Hs & Ha)].
  - rewrite Hr, !split_cons, IH.
    pose proof (split_not_nil c s) as Hn.
    destruct (Ascii.eqb a c) eqn:Eac.
    + destruct (PyStr.split c s) as [|x rest]; [contradiction|]. reflexivity.
    + destruct (PyStr.split c s) as [|x rest] eqn:Hsp; [contradiction|].
      destruct rest as [|y rest].
      * cbn [removelast last app hd tl].
        assert (Hx : s = x).
        { rewrite <- (join_split c s), Hsp. reflexivity. }
        subst x. now rewrite Hr.
      * reflexivity.
  - assert (Hclean : PyStr.contains_char c (String a s) = false).
    { rewrite <- (contains_char_rstrip c _ Hc), Hr. reflexivity. }
    rewrite (split_clean c _ Hclean). cbn [removelast last app].
    rewrite Hr. reflexivity.
Qed.

Lemma strip_lstrip (s : string) : PyStr.strip (PyStr.lstrip s) = PyStr.strip s.
Proof. unfold PyStr.strip. now rewrite lstrip_idempotent. Qed.

Lemma strip_rstrip (s : string) : PyStr.strip (PyStr.rstrip s) = PyStr.strip s.
Proof.
  unfold PyStr.strip. now rewrite lstrip_rstrip, rstrip_idempotent.
Qed.

Lemma map_removelast_last {A B} (f : A -> B) (g : A -> A) (d : A) (l : list A) :
  l <> [] -> (forall x, f (g x) = f x) ->
  map f (removelast l ++ [g (last l d)]) = map f l.
Proof.
  intros Hn Hfg. induction l as [|x l IH]; [contradiction|].
  destruct l as [|y l].
  - cbn. now rewrite Hfg.
  - change (removelast (x :: y :: l)) with (x :: removelast (y :: l)).
    change (last (x :: y :: l) d) with (last (y :: l) d).
    cbn [app map]. f_equal. apply IH. discriminate.
Qed.

(** The pieces of a trimmed text are, once trimmed, those of the text. *)
Lemma split_strip (c : ascii) (s : string) :
  PyStr.is_space c = false ->
  map PyStr.strip (PyStr.split c (PyStr.strip s))
  = map PyStr.strip (PyStr.split c s).
Proof.
  intros Hc. unfold PyStr.strip at 2.
  rewrite (split_rstrip c _ Hc).
  rewrite (map_removelast_last PyStr.strip PyStr.rstrip);
    [|apply split_not_nil|apply strip_rstrip].
  rewrite (split_lstrip c s Hc).
  pose proof (split_not_nil c s) as Hn.
  destruct (PyStr.split c s) as [|x rest]; [contradiction|].
  cbn [map hd tl]. now rewrite strip_lstrip.
Qed.

Section ConversionFacts.

Import Schema.

Variable int_of_str : string -> option Z.
Variable float_of_str : string -> option float.
Variable repr_float : float -> string.

Local Abbreviation _convert_parameter_value :=
  (Params._convert_parameter_value int_of_str float_of_str).

(** X22. [_convert_parameter_value] is idempotent: converting a converted
    value changes nothing. *)
Theorem convert_idempotent (schema : Schema.t) (p : string) (v v' : PyVal) :
  _convert_parameter_value schema p v = Ok v' ->
  _convert_parameter_value schema p v' = Ok v'.
Proof.
  unfold Params._convert_parameter_value.
  destruct (inputs schema) as [params|]; [|discriminate].
  destruct (Dict.get p params) as [info|]; [|congruence].
  destruct (_default info) as [d|]; [|discriminate].
  destruct (PyCmp.isinstance v (PyCmp.type_of d)) eqn:Hi.
  { intros H. injection H as <-. now rewrite Hi. }
  destruct v as [z|f|b|s]; try (intros H; injection H as <-; now rewrite Hi).
  destruct (PyStr.contains_char "," (PyStr.strip s)) eqn:Hc.
  { intros H. injection H as <-.
    destruct (PyCmp.isinstance _ _); [reflexivity|].
    rewrite strip_idempotent. now rewrite Hc. }
  destruct (PyCmp.type_of d) eqn:Hd.
  - destruct (int_of_str (PyStr.strip s)) eqn:Hz; intros H; injection H as <-.
    + reflexivity.
    + rewrite Hi, Hc, Hz. reflexivity.
  - destruct (float_of_str (PyStr.strip s)) eqn:Hf; intros H; injection H as <-.
    + reflexivity.
    + rewrite Hi, Hc, Hf. reflexivity.
  - intros H. injection H as <-. reflexivity.
  - discriminate.
Qed.

Lemma token_value_strip (token : string) :
  Sweep.token_value int_of_str float_of_str (PyStr.strip token)
  = Sweep.token_value int_of_str float_of_str token.
Proof.
  unfold Sweep.token_value. now rewrite strip_idempotent.
Qed.

(** X23. A sweep survives [_convert_parameter_value]: the converted value
    is still a sweep, and it stands for the same alternatives. *)
Theorem convert_keeps_sweep (schema : Schema.t) (p : string) (v v' : PyVal) :
  Sweep.is_sweep repr_float v = true ->
  _convert_parameter_value schema p v = Ok v' ->
  Sweep.is_sweep repr_float v' = true
  /\ Sweep.alternatives int_of_str float_of_str repr_float v'
     = Sweep.alternatives int_of_str float_of_str repr_float v.
Proof.
  intros Hs. unfold Params._convert_parameter_value.
  destruct (inputs schema) as [params|]; [|discriminate].
  destruct (Dict.get p params) as [info|];
    [|intros H; injection H as <-; auto].
  destruct (_default info) as [d|]; [|discriminate].
  destruct (PyCmp.isinstance v (PyCmp.type_of d));
    [intros H; injection H as <-; auto|].
  destruct v as [z|f|b|s]; try (intros H; injection H as <-; auto).
  unfold Sweep.is_sweep in Hs. cbn [Sweep.str] in Hs.
  rewrite (contains_char_strip "," s eq_refl), Hs.
  intros H. injection H as <-. split.
  - unfold Sweep.is_sweep. cbn [Sweep.str].
    now rewrite (contains_char_strip "," s eq_refl).
  - unfold Sweep.alternatives. cbn [Sweep.str].
    rewrite <- !(map_ext _ _ token_value_strip).
    rewrite <- !(map_map PyStr.strip). f_equal. now apply split_strip.
Qed.

End ConversionFacts.

(* --------------------------------------------------------------------- *)
(** ** Validation of a sweep                                              *)
(* --------------------------------------------------------------------- *)

Section SweepValidationFacts.

Import Schema.

Variable int_of_str : string -> option Z.
Variable float_of_str : string -> option float.
Variable repr_float : float -> string.

Local Abbreviation validate_parameter_value :=
  (Schema.validate_parameter_value repr_float).
Local Abbreviation convert_token :=
  (Params.convert_token int_of_str float_of_str).
Local Abbreviation token_issues :=
  (Params.token_issues int_of_str float_of_str repr_float).
Local Abbreviation validate_tokens :=
  (Params.validate_tokens int_of_str float_of_str repr_float).
Local Abbreviation _validate_sweep_parameter :=
  (Params._validate_sweep_parameter int_of_str float_of_str repr_float).

(** The loop over the tokens appends, token by token, what the body
    finds. *)
Lemma validate_tokens_spec (schema : Schema.t) (p : string)
  (ty : PyCmp.PyType) (values : list string) :
  forall (i : nat) (acc out : list Issue),
  validate_tokens schema p ty i values acc = Ok out <->
  exists chunks,
    Forall2 (fun jt chunk => token_issues schema p ty (fst jt) (snd jt) = Ok chunk)
            (combine (seq i (List.length values)) values) chunks
    /\ out = acc ++ List.concat chunks.
Proof.
  induction values as [|tok values IH]; intros i acc out.
  - cbn. split.
    + intros H. injection H as <-. exists []. split; [constructor|].
      now rewrite app_nil_r.
    + intros (chunks & HF & ->). inversion HF; subst. cbn.
      now rewrite app_nil_r.
  - cbn [Params.validate_tokens List.length seq combine]. split.
    + destruct (token_issues schema p ty i tok) as [chunk|] eqn:Ht;
        [|discriminate].
      intros H. apply IH in H as (chunks & HF & ->).
      exists (chunk :: chunks). split.
      * constructor; [exact Ht|exact HF].
      * cbn. now rewrite app_assoc.
    + intros (chunks & HF & ->). inversion HF as [|? chunk ? chunks' Ht HF']; subst.
      cbn [fst snd] in Ht. rewrite Ht. apply IH.
      exists chunks'. split; [exact HF'|]. cbn. now rewrite app_assoc.
Qed.

Lemma convert_token_type (ty : PyCmp.PyType) (tok : string) (v : PyVal) :
  convert_token ty tok = Some v -> PyCmp.type_of v = ty.
Proof.
  unfold Params.convert_token.
  destruct ty; cbn.
  - destruct (int_of_str tok); [|discriminate]. intros H. now injection H as <-.
  - destruct (float_of_str tok); [|discriminate]. intros H. now injection H as <-.
  - intros H. now injection H as <-.
  - intros H. now injection H as <-.
Qed.

Lemma isinstance_type_of (v : PyVal) : PyCmp.isinstance v (PyCmp.type_of v) = true.
Proof. now destruct v. Qed.

Lemma any_severity_prefixed (sev : string) (i : nat) (tok : string)
  (issues : list Issue) :
  any_severity sev (map (Params.prefixed i tok) issues) = any_severity sev issues.
Proof.
  unfold any_severity. induction issues as [|x issues IH]; [reflexivity|].
  cbn. now rewrite IH.
Qed.

Lemma any_severity_concat (sev : string) (chunks : list (list Issue)) :
  any_severity sev (List.concat chunks) = existsb (any_severity sev) chunks.
Proof.
  unfold any_severity. induction chunks as [|c chunks IH]; [reflexivity|].
  cbn. now rewrite existsb_app, IH.
Qed.

Lemma sweep_tokens (schema : Schema.t) (p s : string) (info : ParamInfo)
  (d : PyVal) :
  lookup schema p = Some info -> _default info = Some d ->
  _validate_sweep_parameter schema p s
  = validate_tokens schema p (PyCmp.type_of d) 0
      (map PyStr.strip (PyStr.split "," s)) [].
Proof.
  unfold lookup, Params._validate_sweep_parameter.
  destruct (inputs schema) as [params|]; [|discriminate].
  intros -> ->. reflexivity.
Qed.

(** X24. A sweep passes [_validate_sweep_parameter] without any issue
    exactly when every one of its tokens, trimmed, converts to the type of
    the parameter's default and passes [validate_parameter_value] without
    any issue. *)
Theorem sweep_clean_iff (schema : Schema.t) (p s : string) (info : ParamInfo)
  (d : PyVal) :
  lookup schema p = Some info -> _default info = Some d ->
  (_validate_sweep_parameter schema p s = Ok [] <->
   Forall (fun tok =>
             exists v, convert_token (PyCmp.type_of d) tok = Some v
                       /\ validate_parameter_value schema p v = Ok [])
          (map PyStr.strip (PyStr.split "," s))).
Proof.
  intros Hl Hd. rewrite (sweep_tokens schema p s info d Hl Hd).
  rewrite validate_tokens_spec.
  generalize (map PyStr.strip (PyStr.split "," s)) as tokens.
  generalize 0 as i.
  intros i tokens. revert i. induction tokens as [|tok tokens IH]; intros i.
  - cbn. split; [constructor|]. intros _. exists []. split; [constructor|reflexivity].
  - cbn [List.length seq combine]. split.
    + intros (chunks & HF & E).
      inversion HF as [|? chunk ? chunks' Ht HF']; subst.
      cbn [fst snd app List.concat] in *. symmetry in E.
      apply app_eq_nil in E as [-> E].
      constructor.
      * unfold Params.token_issues in Ht.
        destruct (convert_token (PyCmp.type_of d) tok) as [v|]; [|discriminate].
        exists v. split; [reflexivity|].
        destruct (validate_parameter_value schema p v) as [found|];
          [|discriminate].
        injection Ht as Ht. apply map_eq_nil in Ht. now subst.
      * apply (IH (S i)). exists chunks'. split; [exact HF'|]. now rewrite E.
    + intros HF. inversion HF as [|? ? (v & Hc & Hv) HF']; subst.
      apply (IH (S i)) in HF' as (chunks & HF' & E).
      exists ([] :: chunks). split.
      * constructor; [|exact HF'].
        cbn [fst snd]. unfold Params.token_issues. now rewrite Hc, Hv.
      * exact E.
Qed.

(** X25. [_validate_sweep_parameter] reports an ERROR exactly when some
    token cannot be converted to the type of the parameter's default, or
    converts to a value outside the parameter's [_mathematical_range]. *)
Theorem sweep_error_iff (schema : Schema.t) (p s : string) (info : ParamInfo)
  (d : PyVal) (issues : list Issue) :
  lookup schema p = Some info -> _default info = Some d ->
  _validate_sweep_parameter schema p s = Ok issues ->
  (any_severity "ERROR" issues = true <->
   exists tok,
     In tok (map PyStr.strip (PyStr.split "," s))
     /\ (convert_token (PyCmp.type_of d) tok = None
         \/ exists v lo hi,
              convert_token (PyCmp.type_of d) tok = Some v
              /\ _mathematical_range info = Some (lo, hi)
              /\ PyCmp.outside v lo hi = Ok true)).
Proof.
  intros Hl Hd. rewrite (sweep_tokens schema p s info d Hl Hd).
  intros H. apply validate_tokens_spec in H as (chunks & HF & ->).
  cbn [app]. rewrite any_severity_concat.
  revert HF.
  generalize (map PyStr.strip (PyStr.split "," s)) as tokens.
  generalize 0 as i.
  intros i tokens. revert i chunks.
  assert (Hbody : forall i tok chunk,
    token_issues schema p (PyCmp.type_of d) i tok = Ok chunk ->
    (any_severity "ERROR" chunk = true <->
     convert_token (PyCmp.type_of d) tok = None
     \/ exists v lo hi,
          convert_token (PyCmp.type_of d) tok = Some v
          /\ _mathematical_range info = Some (lo, hi)
          /\ PyCmp.outside v lo hi = Ok true)).
  { intros i tok chunk Ht. unfold Params.token_issues in Ht.
    destruct (convert_token (PyCmp.type_of d) tok) as [v|] eqn:Hc.
    - destruct (validate_parameter_value schema p v) as [found|] eqn:Hv;
        [|discriminate].
      injection Ht as <-. rewrite any_severity_prefixed.
      assert (Hi : PyCmp.isinstance v (PyCmp.type_of d) = true).
      { rewrite <- (convert_token_type _ _ _ Hc). apply isinstance_type_of. }
      rewrite (validate_typed_error repr_float schema p v info d found Hl Hd Hi Hv).
      split.
      + intros (lo & hi & Hm & Ho). right. now exists v, lo, hi.
      + intros [?|(v' & lo & hi & Hv' & Hm & Ho)]; [discriminate|].
        injection Hv' as <-. now exists lo, hi.
    - injection Ht as <-. cbn. split; auto. }
  induction tokens as [|tok tokens IH]; intros i chunks HF.
  - inversion HF; subst. cbn. split; [discriminate|].
    intros (tok & [] & _).
  - cbn [List.length seq combine] in HF.
    inversion HF as [|? chunk ? chunks' Ht HF']; subst.
    cbn [fst snd existsb] in *. rewrite orb_true_iff.
    rewrite (Hbody i tok chunk Ht), (IH (S i) chunks' HF').
    split.
    + intros [Hh|(tok' & Hin & Hh)].
      * exists tok. split; [now left|exact Hh].
      * exists tok'. split; [now right|exact Hh].
    + intros (tok' & [<-|Hin] & Hh).
      * now left.
      * right. now exists tok'.
Qed.

End SweepValidationFacts.

(* --------------------------------------------------------------------- *)
(** ** From the run button to the launch                                  *)
(* --------------------------------------------------------------------- *)

Lemma Dict_set_Forall {V} (P : V -> Prop) (k : string) (v : V) (d : Dict.t V) :
  Forall (fun kv => P (snd kv)) d -> P v ->
  Forall (fun kv => P (snd kv)) (Dict.set k v d).
Proof.
  intros Hd Hv. induction d as [|[k' v'] d IH]; cbn.
  - now repeat constructor.
  - inversion Hd; subst. destruct (String.eqb k k'); constructor; auto.
Qed.

Section RunFacts.

Import Schema Launch.

Variable int_of_str : string -> option Z.
Variable float_of_str : string -> option float.
Variable repr_float : float -> string.
Variable joinpath : string -> string -> string.

Local Abbreviation validate_entry :=
  (Params.validate_entry int_of_str float_of_str repr_float).
Local Abbreviation validate_entries :=
  (Params.validate_entries int_of_str float_of_str repr_float).
Local Abbreviation run_simulation :=
  (Launch.run_simulation int_of_str float_of_str repr_float joinpath).
Local Abbreviation expand := (Sweep.expand int_of_str float_of_str repr_float).
Local Abbreviation sweep_axes :=
  (Sweep.sweep_axes int_of_str float_of_str repr_float).

Local Abbreviation known_severity :=
  (fun i : Issue => severity i = "ERROR" \/ severity i = "WARNING").

Lemma validate_entry_severities (schema : Schema.t) (p : string) (v : PyVal)
  (issues : list Issue) :
  validate_entry schema p v = Ok issues -> Forall known_severity issues.
Proof.
  assert (Hsweep : forall s,
    Params._validate_sweep_parameter int_of_str float_of_str repr_float
      schema p s = Ok issues -> Forall known_severity issues).
  { intros s. unfold Params._validate_sweep_parameter.
    destruct (inputs schema) as [params|]; [|discriminate].
    destruct (Dict.get p params) as [info|].
    2:{ intros H. injection H as <-. repeat constructor. }
    destruct (_default info) as [d|]; [|discriminate].
    intros H. apply validate_tokens_spec in H as (chunks & HF & ->).
    cbn [app]. apply Forall_concat.
    induction HF as [|[j tok] chunk ? ? Ht HF IH]; constructor; [|exact IH].
    cbn [fst snd] in Ht. unfold Params.token_issues in Ht.
    destruct (Params.convert_token _ _ _ tok) as [cv|].
    - destruct (validate_parameter_value repr_float schema p cv) as [found|] eqn:Hv;
        [|discriminate].
      injection Ht as <-. apply Forall_map.
      exact (validate_severities repr_float schema p cv found Hv).
    - injection Ht as <-. repeat constructor. }
  unfold Params.validate_entry.
  destruct v as [z|f|b|s]; try apply validate_severities.
  destruct (PyStr.contains_char "," s); [apply Hsweep|apply validate_severities].
Qed.

Local Abbreviation issue_entry :=
  (fun issues : list Issue => issues <> [] /\ Forall known_severity issues).

Lemma validate_entries_shape (schema : Schema.t) (items : list (string * PyVal)) :
  forall acc all_issues,
  Forall (fun kv => issue_entry (snd kv)) acc ->
  validate_entries schema items acc = Ok all_issues ->
  Forall (fun kv => issue_entry (snd kv)) all_issues.
Proof.
  induction items as [|[k v] items IH]; intros acc all_issues Hacc H.
  - cbn in H. now injection H as <-.
  - cbn [Params.validate_entries] in H.
    destruct (validate_entry schema k v) as [[|i found]|] eqn:Hv;
      [eauto| |discriminate].
    apply (IH (Dict.set k (i :: found) acc) all_issues); [|exact H].
    apply (Dict_set_Forall (fun issues => issue_entry issues)); [exact Hacc|].
    split; [discriminate|].
    exact (validate_entry_severities schema k v _ Hv).
Qed.

(** The validation question is asked exactly when some parameter has an
    issue. *)
Lemma asked_iff (all_issues : Dict.t (list Issue)) :
  Forall (fun kv => issue_entry (snd kv)) all_issues ->
  (match with_severity "ERROR" all_issues, with_severity "WARNING" all_issues with
   | [], [] => false
   | _, _ => true
   end) = match all_issues with [] => false | _ => true end.
Proof.
  intros HF. destruct all_issues as [|[k issues] rest]; [reflexivity|].
  inversion HF as [|? ? [Hne Hsev] _]; subst. cbn [snd] in *.
  destruct issues as [|i issues]; [contradiction|].
  inversion Hsev as [|? ? [Hi|Hi] _]; subst.
  - unfold with_severity at 1. cbn. rewrite Hi. reflexivity.
  - unfold with_severity. cbn. rewrite Hi. cbn.
    destruct (existsb _ issues); [reflexivity|].
    now destruct (filter _ rest).
Qed.

Lemma detect_returns (params : Dict.t PyVal) (st0 : Sweep.SweepState) :
  exists b st,
    Sweep.detect_sweep_parameters int_of_str float_of_str repr_float params st0
    = (Ret b, st).
Proof.
  unfold Sweep.detect_sweep_parameters, Py.bind, Py.modify, Py.get, Py.ret.
  pose proof (detect_loop_returns int_of_str float_of_str repr_float params
                (Sweep.mkSweepState [] [])) as H.
  destruct (Py.for_each params _ _) as [o st]. cbn in H. subst o. eauto.
Qed.

Lemma expand_not_nil (params : Dict.t PyVal) (st0 : Sweep.SweepState) :
  NoDup (Dict.keys params) -> expand params st0 <> [].
Proof.
  intros Hnd E.
  pose proof (f_equal (@List.length _) E) as HL.
  rewrite (expand_spec int_of_str float_of_str repr_float) in HL by assumption.
  rewrite length_map, product_length in HL.
  pose proof (sweep_axes_two int_of_str float_of_str repr_float params) as H2.
  pose proof (product_size_pow (map snd (sweep_axes params))) as Hp.
  rewrite HL in Hp. cbn in Hp.
  assert (Hpos : 0 < 2 ^ List.length (map snd (sweep_axes params))).
  { apply Nat.neq_0_lt_0. apply Nat.pow_nonzero. discriminate. }
  assert (H2' : Forall (fun l : list PyVal => 2 <= List.length l)
                  (map snd (sweep_axes params)))
    by (apply Forall_map; exact H2).
  specialize (Hp H2'). lia.
Qed.

(** A launch whose runs have texts as names goes through. *)
Lemma launch_named (base : PyVal) (combos : list (Dict.t PyVal)) (R : nat)
  (w : Batch.Window) :
  (1 <? List.length combos) || (1 <? R) || is_text base = true ->
  Launch.launch repr_float base combos R w
  = (Ok tt,
     fst (Batch.launch_batch_simulation (Sweep.str repr_float base) combos R w),
     Batch.launch_workers (Sweep.str repr_float base) combos R).
Proof.
  intros H. unfold Launch.launch, Batch.launch_batch_simulation. cbv zeta.
  now rewrite H.
Qed.

(** X26. [run_simulation] starts workers only after the user has answered
    Yes to the confirmation, and, when some parameter has a validation
    issue, only after a Yes to the validation question as well. *)
Theorem run_needs_confirmation (schema : Schema.t) (current_params : Dict.t PyVal)
  (replicates : nat) (output_dir now : string) (mkdir : Outcome unit)
  (reply_issues reply_run : Batch.Reply) (a : App) :
  workers (snd (run_simulation schema current_params replicates output_dir now
                  mkdir reply_issues reply_run a)) <> workers a ->
  reply_run = Batch.Yes
  /\ exists all_issues,
       validate_entries schema current_params [] = Ok all_issues
       /\ (all_issues = [] \/ reply_issues = Batch.Yes).
Proof.
  unfold Launch.run_simulation.
  destruct (validate_entries schema current_params []) as [all_issues|] eqn:Hval;
    [|intros H; now contradiction H].
  rewrite (asked_iff all_issues
             (validate_entries_shape schema current_params [] all_issues
                (Forall_nil _) Hval)).
  intros H.
  assert (Hrun : reply_run = Batch.Yes).
  { destruct reply_run; [reflexivity|]. exfalso. apply H. clear H.
    destruct (match all_issues with [] => false | _ => true end
              && match reply_issues with Batch.No => true | _ => false end);
      [now destruct all_issues|].
    destruct (Sweep.detect_sweep_parameters _ _ _ _ _) as [[b|e] st];
      [|now destruct all_issues].
    destruct (Batch.total_combinations _ =? 0); [now destruct all_issues|].
    destruct (if b || (1 <? replicates) then mkdir else Ret tt);
      [|now destruct all_issues].
    destruct (b || (1 <? replicates)); now destruct all_issues. }
  split; [exact Hrun|]. exists all_issues. split; [reflexivity|].
  destruct all_issues as [|x rest]; [now left|]. right.
  destruct reply_issues; [reflexivity|]. exfalso. apply H. reflexivity.
Qed.

Local Abbreviation folder_of :=
  (Launch.folder_of int_of_str float_of_str repr_float joinpath).

(** [run_simulation] up to the confirmation, when validation lets it
    through and the folder can be created: the state in which the
    confirmation leaves the window when the answer is No. *)
Lemma run_to_confirmation (schema : Schema.t) (current_params : Dict.t PyVal)
  (replicates : nat) (output_dir now : string)
  (reply_issues reply_run : Batch.Reply) (a : App)
  (all_issues : Dict.t (list Issue)) :
  NoDup (Dict.keys current_params) ->
  1 <= replicates ->
  validate_entries schema current_params [] = Ok all_issues ->
  all_issues = [] \/ reply_issues = Batch.Yes ->
  let combos := expand current_params (sweep a) in
  let folder := folder_of current_params replicates output_dir now in
  let a0 := snd (run_simulation schema current_params replicates output_dir now
                   (Ret tt) reply_issues Batch.No a) in
  run_simulation schema current_params replicates output_dir now (Ret tt)
    reply_issues reply_run a
  = match reply_run with
    | Batch.Yes =>
        let '(r, w, ws) :=
          Launch.launch repr_float
            (Dict.get_default "exp_name" (VStr "unnamed_run") current_params)
            combos replicates (window a0) in
        (r, add_workers ws (set_window w a0))
    | Batch.No => (Ok tt, a0)
    end
  /\ window a0 = set_batch_output_folder folder
                   (Batch.reset_batch (List.length combos) replicates (window a))
  /\ parameter_combinations a0 = combos
  /\ workers a0 = workers a
  /\ (forall p, In p (prompts a0) -> In p (prompts a) \/ p <> NoCombinations)
  /\ folders a0
     = folders a
       ++ (if (match sweep_axes current_params with [] => false | _ => true end)
              || (1 <? replicates)
           then [folder] else []).
Proof.
  intros Hnd HR Hval Hpass combos folder.
  pose proof (expand_not_nil current_params (sweep a) Hnd) as Hne.
  fold combos in Hne.
  unfold Launch.run_simulation. rewrite Hval.
  rewrite (asked_iff all_issues
             (validate_entries_shape schema current_params [] all_issues
                (Forall_nil _) Hval)).
  assert (Hask : (match all_issues with [] => false | _ => true end)
                 && match reply_issues with
                    | Batch.No => true
                    | Batch.Yes => false
                    end = false).
  { destruct Hpass as [->| ->]; [reflexivity|apply andb_false_r]. }
  rewrite Hask.
  assert (Hcombos : Sweep.generate_parameter_combinations
                      (Sweep.mkSweepState (sweep_axes current_params)
                         (Sweep.base_of int_of_str float_of_str repr_float
                            current_params)) = combos).
  { unfold combos, Sweep.expand.
    now rewrite (detect_sweep_parameters_spec int_of_str float_of_str repr_float). }
  rewrite (detect_sweep_parameters_spec int_of_str float_of_str repr_float)
    by assumption.
  cbv zeta. rewrite Hcombos.
  assert (Htot : (List.length combos * replicates =? 0) = false).
  { apply Nat.eqb_neq. destruct combos; [contradiction|]. cbn. lia. }
  cbn [window set_window set_parameter_combinations set_sweep
       Batch.total_combinations Batch.reset_batch].
  rewrite Htot.
  subst folder. unfold Launch.folder_of.
  set (is_sweep := match sweep_axes current_params with [] => false | _ => true end).
  clear Hval Hpass Hask.
  destruct (is_sweep || (1 <? replicates)) eqn:Hb;
    destruct all_issues as [|entry rest]; cbn [snd].
  all: split; [destruct reply_run; reflexivity|].
  all: split; [reflexivity|]; split; [reflexivity|]; split; [reflexivity|].
  all: split;
    [|cbn [folders add_folder show_prompt set_window]; now rewrite ?app_nil_r].
  all: cbn [prompts show_prompt add_folder set_window];
    intros p Hin;
    repeat (apply in_app_or in Hin as [Hin|[<-|[]]]; [|right; discriminate]);
    now left.
Qed.

(** X27. A confirmed [run_simulation] whose runs get texts as names
    (several combinations or replicates, or an experiment name that is a
    text or absent) leaves the window as a launch of one worker per
    configuration and replicate does: it starts that many workers, the
    batch counts them all, and the cancel flag and the count of finished
    runs are reset, whatever an earlier batch left. *)
Theorem run_confirmed (schema : Schema.t) (current_params : Dict.t PyVal)
  (replicates : nat) (output_dir now : string) (reply_issues : Batch.Reply)
  (a : App) (all_issues : Dict.t (list Issue)) :
  NoDup (Dict.keys current_params) ->
  1 <= replicates ->
  validate_entries schema current_params [] = Ok all_issues ->
  all_issues = [] \/ reply_issues = Batch.Yes ->
  let combos := expand current_params (sweep a) in
  let base := Dict.get_default "exp_name" (VStr "unnamed_run") current_params in
  (1 <? List.length combos) || (1 <? replicates) || is_text base = true ->
  let result := run_simulation schema current_params replicates output_dir now
                  (Ret tt) reply_issues Batch.Yes a in
  fst result = Ok tt
  /\ window (snd result)
     = BatchRun.launched (Sweep.str repr_float base) combos replicates
         (set_batch_output_folder
            (folder_of current_params replicates output_dir now) (window a))
  /\ parameter_combinations (snd result) = combos
  /\ (exists ws, workers (snd result) = workers a ++ ws
                 /\ List.length ws = List.length combos * replicates)
  /\ Batch.total_combinations (window (snd result))
     = List.length combos * replicates
  /\ Batch.completed_combinations (window (snd result)) = 0
  /\ Batch.is_cancelled (window (snd result)) = false.
Proof.
  intros Hnd HR Hval Hpass combos base Hnamed result.
  destruct (run_to_confirmation schema current_params replicates output_dir now
              reply_issues Batch.Yes a all_issues Hnd HR Hval Hpass)
    as (Hrun & Hw & Hc & Hws & _ & _).
  fold combos in Hrun, Hw, Hc. fold base in Hrun. subst result. rewrite Hrun.
  set (a0 := snd (run_simulation schema current_params replicates output_dir
                    now (Ret tt) reply_issues Batch.No a)) in *.
  rewrite (launch_named base combos replicates (window a0) Hnamed).
  cbn [fst snd window workers parameter_combinations add_workers set_window].
  assert (Hlaunched :
    fst (Batch.launch_batch_simulation (Sweep.str repr_float base) combos
           replicates (window a0))
    = BatchRun.launched (Sweep.str repr_float base) combos replicates
        (set_batch_output_folder
           (folder_of current_params replicates output_dir now) (window a))).
  { rewrite Hw. reflexivity. }
  pose proof (launched_fields (Sweep.str repr_float base) combos replicates
                (set_batch_output_folder
                   (folder_of current_params replicates output_dir now)
                   (window a))) as HF.
  cbv zeta in HF. rewrite <- Hlaunched in HF.
  destruct HF as (F1 & F2 & F3 & _).
  repeat split; try assumption.
  exists (Batch.launch_workers (Sweep.str repr_float base) combos replicates).
  split; [now rewrite Hws|apply launch_workers_length].
Qed.


(** X28. A No to the confirmation starts no worker and leaves the buttons
    as they were, but [run_simulation] has by then reset the cancel flag
    and the counters of the batch, stored the combinations, and created
    the folder of a batch. *)
Theorem run_declined (schema : Schema.t) (current_params : Dict.t PyVal)
  (replicates : nat) (output_dir now : string) (reply_issues : Batch.Reply)
  (a : App) (all_issues : Dict.t (list Issue)) :
  NoDup (Dict.keys current_params) ->
  1 <= replicates ->
  validate_entries schema current_params [] = Ok all_issues ->
  all_issues = [] \/ reply_issues = Batch.Yes ->
  let combos := expand current_params (sweep a) in
  let folder := folder_of current_params replicates output_dir now in
  let result := run_simulation schema current_params replicates output_dir now
                  (Ret tt) reply_issues Batch.No a in
  fst result = Ok tt
  /\ workers (snd result) = workers a
  /\ Batch.run_button_enabled (window (snd result))
     = Batch.run_button_enabled (window a)
  /\ Batch.cancel_button_visible (window (snd result))
     = Batch.cancel_button_visible (window a)
  /\ Batch.is_cancelled (window (snd result)) = false
  /\ Batch.completed_combinations (window (snd result)) = 0
  /\ Batch.total_combinations (window (snd result))
     = List.length combos * replicates
  /\ parameter_combinations (snd result) = combos
  /\ Batch.batch_output_folder (window (snd result)) = folder
  /\ folders (snd result)
     = folders a ++ (if (1 <? List.length combos) || (1 <? replicates)
                     then [folder] else []).
Proof.
  intros Hnd HR Hval Hpass combos folder result.
  destruct (run_to_confirmation schema current_params replicates output_dir now
              reply_issues Batch.No a all_issues Hnd HR Hval Hpass)
    as (Hrun & Hw & Hc & Hws & _ & Hf).
  fold combos in Hrun, Hw, Hc. fold folder in Hw, Hf. subst result.
  split; [now rewrite Hrun|].
  rewrite Hw, Hc, Hws, Hf.
  unfold set_batch_output_folder, Batch.reset_batch.
  cbn [Batch.is_cancelled Batch.completed_combinations
       Batch.total_combinations Batch.batch_output_folder
       Batch.run_button_enabled Batch.cancel_button_visible].
  repeat split.
  f_equal.
  replace (1 <? List.length combos)
    with (match sweep_axes current_params with [] => false | _ => true end);
    [reflexivity|].
  subst combos.
  rewrite (expand_spec int_of_str float_of_str repr_float) by assumption.
  rewrite length_map, product_length.
  pose proof (sweep_axes_two int_of_str float_of_str repr_float current_params)
    as H2.
  destruct (sweep_axes current_params) as [|[k vs] axes]; [reflexivity|].
  inversion H2 as [|? ? Hvs Hrest]; subst. cbn [snd map fold_right] in *.
  symmetry. apply Nat.ltb_lt.
  pose proof (product_size_pow (map snd axes)) as Hp.
  assert (Hr : Forall (fun l : list PyVal => 2 <= List.length l) (map snd axes))
    by (apply Forall_map; exact Hrest).
  specialize (Hp Hr).
  assert (0 < 2 ^ List.length (map snd axes))
    by (apply Nat.neq_0_lt_0, Nat.pow_nonzero; discriminate).
  nia.
Qed.

(** X29. When some parameter has a validation issue, [run_simulation]
    asks first, listing the parameters with an ERROR and those with a
    WARNING, and a No ends it there: nothing else has changed. *)
Theorem run_refused (schema : Schema.t) (current_params : Dict.t PyVal)
  (replicates : nat) (output_dir now : string) (mkdir : Outcome unit)
  (reply_run : Batch.Reply) (a : App) (all_issues : Dict.t (list Issue)) :
  validate_entries schema current_params [] = Ok all_issues ->
  all_issues <> [] ->
  run_simulation schema current_params replicates output_dir now mkdir
    Batch.No reply_run a
  = (Ok tt,
     show_prompt
       (ValidationIssuesDetected (with_severity "ERROR" all_issues)
          (with_severity "WARNING" all_issues)) a).
Proof.
  intros Hval Hne. unfold Launch.run_simulation. rewrite Hval.
  rewrite (asked_iff all_issues
             (validate_entries_shape schema current_params [] all_issues
                (Forall_nil _) Hval)).
  destruct all_issues; [contradiction|reflexivity].
Qed.

(** X30. With the replicates the spin box allows (at least one),
    [run_simulation] never shows the warning that no parameter combination
    was generated. *)
Theorem run_never_without_combinations (schema : Schema.t)
  (current_params : Dict.t PyVal) (replicates : nat) (output_dir now : string)
  (mkdir : Outcome unit) (reply_issues reply_run : Batch.Reply) (a : App) :
  NoDup (Dict.keys current_params) ->
  1 <= replicates ->
  ~ In NoCombinations (prompts a) ->
  ~ In NoCombinations
      (prompts (snd (run_simulation schema current_params replicates output_dir
                       now mkdir reply_issues reply_run a))).
Proof.
  intros Hnd HR Hfresh.
  pose proof (expand_not_nil current_params) as Hne.
  unfold Launch.run_simulation.
  destruct (validate_entries schema current_params []) as [all_issues|];
    [|exact Hfresh].
  set (asked := match with_severity "ERROR" all_issues,
                      with_severity "WARNING" all_issues with
                | [], [] => false
                | _, _ => true
                end).
  set (a1 := if asked then show_prompt _ a else a).
  assert (H1 : ~ In NoCombinations (prompts a1)).
  { subst a1. destruct asked; [|exact Hfresh].
    cbn. intros Hin. apply in_app_or in Hin as [Hin|[Hin|[]]];
      [now apply Hfresh|discriminate]. }
  destruct (asked && _); [exact H1|].
  specialize (Hne (sweep a1) Hnd). unfold Sweep.expand in Hne.
  rewrite (detect_sweep_parameters_spec int_of_str float_of_str repr_float)
    in * by assumption.
  cbv zeta. cbn [snd] in Hne.
  set (combos := Sweep.generate_parameter_combinations _) in *.
  cbn [window set_window set_parameter_combinations set_sweep
       Batch.total_combinations Batch.reset_batch].
  assert (Htot : (List.length combos * replicates =? 0) = false).
  { apply Nat.eqb_neq. destruct combos; [contradiction|]. cbn. lia. }
  rewrite Htot.
  set (b := _ || (1 <? replicates)).
  destruct (if b then mkdir else Ret tt); [|exact H1].
  assert (Hq : forall q a2, prompts a2 = prompts a1 -> q <> NoCombinations ->
                            ~ In NoCombinations (prompts (show_prompt q a2))).
  { intros q a2 E Hq Hin. cbn in Hin. rewrite E in Hin.
    apply in_app_or in Hin as [Hin|[Hin|[]]]; [now apply H1|congruence]. }
  destruct reply_run.
  - destruct (Launch.launch _ _ _ _ _) as [[r w] ws].
    cbn [snd prompts add_workers set_window].
    apply Hq; [now destruct b|discriminate].
  - cbn [snd]. apply Hq; [now destruct b|discriminate].
Qed.

End RunFacts.

(* --------------------------------------------------------------------- *)
(** ** The theorems on examples                                           *)
(* --------------------------------------------------------------------- *)

Lemma example_schema_keys :
  NoDup (Dict.keys [("jee", Examples.jee_info);
                    ("exp_name", Examples.exp_name_info)]).
Proof. repeat constructor; simpl; intuition discriminate. Qed.

(** X13 on a value beyond the mathematical range of [jee]. *)
Lemma validate_error_iff_witness :
  exists issues,
    Schema.validate_parameter_value Examples.float_text
      Examples.example_schema "jee" (VInt 30) = Ok issues
    /\ Schema.any_severity "ERROR" issues = true.
Proof.
  refine (ex_intro _ _ (conj eq_refl _)).
  refine (proj2 (validate_error_iff Examples.float_text
                   Examples.example_schema "jee" (VInt 30) _ eq_refl) _).
  right. right. exists Examples.jee_info, (VInt 0), (VInt 20).
  repeat split.
Defined.

(** X15 on the same value, which collects the three issues. *)
Lemma validate_issue_shape_witness :
  exists issues,
    Schema.validate_parameter_value Examples.float_text
      Examples.example_schema "jee" (VInt 30) = Ok issues
    /\ List.length issues <= 3.
Proof.
  refine (ex_intro _ _ (conj eq_refl _)).
  exact (proj1 (validate_issue_shape Examples.float_text
                  Examples.example_schema "jee" (VInt 30) _ eq_refl)).
Defined.

(** X16 on [jee], whose bounds are numbers as its default is. *)
Lemma validate_never_raises_witness :
  exists issues,
    Schema.validate_parameter_value Examples.float_text
      Examples.example_schema "jee" (VBool true) = Ok issues.
Proof.
  refine (validate_never_raises Examples.float_text Examples.example_schema
            "jee" (VBool true) _).
  intros info H. injection H as <-. reflexivity.
Defined.

(** X17 on a parameter set with one value out of range and one in
    order. *)
Lemma validate_parameter_set_entries_witness :
  exists all_issues,
    Schema.validate_parameter_set Examples.float_text Examples.example_schema
      [("jee", VInt 30); ("exp_name", VStr "run")] = Ok all_issues
    /\ (forall issues, Dict.get "exp_name" all_issues <> Some issues).
Proof.
  refine (ex_intro _ _ (conj eq_refl _)).
  intros issues H.
  refine (_ (proj1 (validate_parameter_set_entries Examples.float_text
                      Examples.example_schema
                      [("jee", VInt 30); ("exp_name", VStr "run")] _ _ eq_refl
                      "exp_name" issues) H)).
  - intros (Hne & v & Hv & Hval). injection Hv as <-.
    injection Hval as <-. now apply Hne.
  - repeat constructor; simpl; intuition discriminate.
Defined.

(** X19 on the preset [weak] of [jee]. *)
Lemma presets_transposed_witness :
  Schema.preset_entry (Schema.get_parameter_presets Examples.example_schema)
    "weak" "jee" = Some (VInt 8).
Proof.
  refine (presets_transposed Examples.example_schema _ "weak" "jee" eq_refl
            example_schema_keys _).
  intros name info pp [H|[H|[]]] Hp; injection H as <- <-;
    [injection Hp as <-|discriminate].
  repeat constructor; simpl; intuition discriminate.
Defined.

(** X20 on the default of [jee]. *)
Lemma model_defaults_lookup_witness :
  Dict.get "jee" (Schema.get_model_defaults Examples.example_schema)
  = Some (VInt 2).
Proof.
  exact (model_defaults_lookup Examples.example_schema _ "jee" eq_refl
           example_schema_keys).
Defined.

(** X21 on [jee], filed under the tab of its category. *)
Lemma structure_partition_witness :
  Schema.structure_entry
    (Schema.get_parameter_structure Examples.example_schema)
    "Cell Behavior" "Adhesion" "jee" = Some "EC-EC adhesion energy".
Proof.
  exact (proj1 (proj2 (structure_partition Examples.example_schema
                         "Cell Behavior" "Adhesion" "jee")
                  _ eq_refl example_schema_keys)).
Defined.

(** X22 on a text that reads as an integer. *)
Lemma convert_idempotent_witness :
  Params._convert_parameter_value Examples.decimal_int Examples.no_float
    Examples.example_schema "jee" (VInt 12) = Ok (VInt 12).
Proof.
  exact (convert_idempotent Examples.decimal_int Examples.no_float
           Examples.example_schema "jee" (VStr " 12 ") (VInt 12) eq_refl).
Defined.

(** X23 on a sweep entered with blanks around it. *)
Lemma convert_keeps_sweep_witness :
  Sweep.alternatives Examples.decimal_int Examples.no_float
    Examples.float_text (VStr "2, 4")
  = Sweep.alternatives Examples.decimal_int Examples.no_float
      Examples.float_text (VStr " 2, 4 ").
Proof.
  exact (proj2 (convert_keeps_sweep Examples.decimal_int Examples.no_float
                  Examples.float_text Examples.example_schema "jee"
                  (VStr " 2, 4 ") (VStr "2, 4") eq_refl eq_refl)).
Defined.

(** X24 on a sweep of two values within all ranges. *)
Lemma sweep_clean_iff_witness :
  Params._validate_sweep_parameter Examples.decimal_int Examples.no_float
    Examples.float_text Examples.example_schema "jee" "2, 4" = Ok [].
Proof.
  refine (proj2 (sweep_clean_iff Examples.decimal_int Examples.no_float
                   Examples.float_text Examples.example_schema "jee" "2, 4"
                   Examples.jee_info (VInt 2) eq_refl eq_refl) _).
  repeat constructor.
  - exists (VInt 2). split; reflexivity.
  - exists (VInt 4). split; reflexivity.
Defined.

(** X25 on a sweep with a token that is no integer. *)
Lemma sweep_error_iff_witness :
  exists issues,
    Params._validate_sweep_parameter Examples.decimal_int Examples.no_float
      Examples.float_text Examples.example_schema "jee" "2, high"
    = Ok issues
    /\ Schema.any_severity "ERROR" issues = true.
Proof.
  refine (ex_intro _ _ (conj eq_refl _)).
  refine (proj2 (sweep_error_iff Examples.decimal_int Examples.no_float
                   Examples.float_text Examples.example_schema "jee"
                   "2, high" Examples.jee_info (VInt 2) _
                   eq_refl eq_refl eq_refl) _).
  exists "high". split; [right; left; reflexivity|left; reflexivity].
Defined.

Lemma example_run_keys :
  NoDup (Dict.keys [("jee", VStr "2,4"); ("exp_name", VStr "run")]).
Proof. repeat constructor; simpl; intuition discriminate. Qed.

(** X26 on a confirmed sweep of two values: the workers were started
    after a Yes. *)
Lemma run_needs_confirmation_witness :
  Batch.Yes = Batch.Yes
  /\ exists all_issues,
       Params.validate_entries Examples.decimal_int Examples.no_float
         Examples.float_text Examples.example_schema
         [("jee", VStr "2,4"); ("exp_name", VStr "run")] [] = Ok all_issues
       /\ (all_issues = [] \/ Batch.No = Batch.Yes).
Proof.
  refine (run_needs_confirmation Examples.decimal_int Examples.no_float
            Examples.float_text Examples.joinpath Examples.example_schema
            [("jee", VStr "2,4"); ("exp_name", VStr "run")] 1 "experiments"
            "20251101_120000" (Ret tt) Batch.No Batch.Yes Examples.fresh_app _).
  vm_compute. discriminate.
Defined.

(** X27 on the same sweep: two workers, two runs to count. *)
Lemma run_confirmed_witness :
  Batch.total_combinations
    (Launch.window
       (snd (Launch.run_simulation Examples.decimal_int Examples.no_float
               Examples.float_text Examples.joinpath Examples.example_schema
               [("jee", VStr "2,4"); ("exp_name", VStr "run")] 1 "experiments"
               "20251101_120000" (Ret tt) Batch.No Batch.Yes
               Examples.fresh_app)))
  = List.length
      (Sweep.expand Examples.decimal_int Examples.no_float
         Examples.float_text
         [("jee", VStr "2,4"); ("exp_name", VStr "run")]
         (Sweep.mkSweepState [] [])) * 1.
Proof.
  exact (proj1 (proj2 (proj2 (proj2 (proj2
           (run_confirmed Examples.decimal_int Examples.no_float
              Examples.float_text Examples.joinpath Examples.example_schema
              [("jee", VStr "2,4"); ("exp_name", VStr "run")] 1 "experiments"
              "20251101_120000" Batch.No Examples.fresh_app []
              example_run_keys (le_n 1) eq_refl (or_introl eq_refl)
              eq_refl)))))).
Defined.


(** X28 on the same sweep, declined: the folder of the batch exists. *)
Lemma run_declined_witness :
  Launch.folders
    (snd (Launch.run_simulation Examples.decimal_int Examples.no_float
            Examples.float_text Examples.joinpath Examples.example_schema
            [("jee", VStr "2,4"); ("exp_name", VStr "run")] 1 "experiments"
            "20251101_120000" (Ret tt) Batch.No Batch.No Examples.fresh_app))
  = ["experiments/run_20251101_120000"].
Proof.
  exact (proj2 (proj2 (proj2 (proj2 (proj2 (proj2 (proj2 (proj2 (proj2
           (run_declined Examples.decimal_int Examples.no_float
              Examples.float_text Examples.joinpath Examples.example_schema
              [("jee", VStr "2,4"); ("exp_name", VStr "run")] 1 "experiments"
              "20251101_120000" Batch.No Examples.fresh_app []
              example_run_keys (le_n 1) eq_refl (or_introl eq_refl))))))))))).
Defined.

(** X29 on a value beyond the mathematical range, refused. *)
Lemma run_refused_witness :
  Launch.workers
    (snd (Launch.run_simulation Examples.decimal_int Examples.no_float
            Examples.float_text Examples.joinpath Examples.example_schema
            [("jee", VInt 30)] 1 "experiments" "20251101_120000" (Ret tt)
            Batch.No Batch.Yes Examples.fresh_app))
  = [].
Proof.
  refine (f_equal (fun r => Launch.workers (snd r))
            (run_refused Examples.decimal_int Examples.no_float
               Examples.float_text Examples.joinpath Examples.example_schema
               [("jee", VInt 30)] 1 "experiments" "20251101_120000" (Ret tt)
               Batch.Yes Examples.fresh_app _ eq_refl _)).
  discriminate.
Defined.

(** X30 on the confirmed sweep. *)
Lemma run_never_without_combinations_witness :
  ~ In Launch.NoCombinations
      (Launch.prompts
         (snd (Launch.run_simulation Examples.decimal_int Examples.no_float
                 Examples.float_text Examples.joinpath
                 Examples.example_schema
                 [("jee", VStr "2,4"); ("exp_name", VStr "run")] 1
                 "experiments" "20251101_120000" (Ret tt) Batch.No Batch.Yes
                 Examples.fresh_app))).
Proof.
  exact (run_never_without_combinations Examples.decimal_int Examples.no_float
           Examples.float_text Examples.joinpath Examples.example_schema
           [("jee", VStr "2,4"); ("exp_name", VStr "run")] 1 "experiments"
           "20251101_120000" (Ret tt) Batch.No Batch.Yes Examples.fresh_app
           example_run_keys (le_n 1) (fun H : False => H)).
Defined.
